(** * lets-vibe: the project-generation pipeline and its agents

    A shallow embedding of the JavaScript sources
      - [src/app/api/generate-project/route.js]  (the enhanced HTTP handler)
      - the basic HTTP handler (same validation and publish logic)
      - [src/app/api/agents/web-search-agent.js]
      - [src/app/api/agents/validation-agent.js]
      - [src/app/api/agents/research-agent.js]
      - [src/app/api/agents/knowledge-base.js]
      - [src/app/api/agents/orchestrator.js]
      - [src/app/api/utils/llm.js]
      - [src/app/api/utils/notion.js]
    together with the properties the specification states about them.

    Conventions of the embedding
      - a JavaScript string is the list of its UTF-16 code units;
      - a JavaScript value is a JSON value or [undefined]; numbers are the
        integers (fractional numbers and NaN are outside the model, except
        in [Double], which gives the score of a validation over binary64
        numbers);
      - an [async] function is a computation in the monad [M]: it threads the
        agent's own mutable state and the log of external calls, and ends in a
        value ([Ok], the promise resolves), in an exception ([Throw], the
        promise rejects with an [Error] carrying a message) or in [Beyond]
        (the run left the fragment of JavaScript that is modelled);
      - everything the outside world decides (what the search provider, the
        completion endpoint and the two publish services answer) is read from
        an oracle, indexed by the number of external calls made so far. *)

From Stdlib Require Import ZArith NArith QArith Qround List String Ascii Bool Lia.
From Stdlib Require SpecFloat.
From stdpp Require Import gmap list.

Set Warnings "-register-all".
Local Open Scope Z_scope.

(** ** JavaScript strings *)

Abbreviation jsstring := (list N).

Fixpoint lit (s : string) : jsstring :=
  match s with
  | EmptyString => []
  | String a rest => N_of_ascii a :: lit rest
  end.

(** [s.startsWith(sub)] and [s.includes(sub)], by code units. *)
Fixpoint starts_with (sub s : jsstring) : bool :=
  match sub, s with
  | [], _ => true
  | c :: sub', d :: s' => (c =? d)%N && starts_with sub' s'
  | _ :: _, [] => false
  end.

Fixpoint includes (s sub : jsstring) : bool :=
  starts_with sub s
  || match s with
     | [] => false
     | _ :: s' => includes s' sub
     end.

(** The substring relation [includes] decides. *)
Definition contains (sub s : jsstring) : Prop :=
  exists pre post, s = pre ++ sub ++ post.

(** [String.prototype.trim]: WhiteSpace and LineTerminator code points of
    ECMAScript (all of them lie in the basic plane, so one code unit each). *)
Definition is_whitespace (c : N) : bool :=
  ((c =? 0x09) || (c =? 0x0A) || (c =? 0x0B) || (c =? 0x0C) || (c =? 0x0D)
   || (c =? 0x20) || (c =? 0xA0) || (c =? 0x1680)
   || ((0x2000 <=? c) && (c <=? 0x200A))
   || (c =? 0x2028) || (c =? 0x2029) || (c =? 0x202F) || (c =? 0x205F)
   || (c =? 0x3000) || (c =? 0xFEFF))%N.

Fixpoint trim_start (s : jsstring) : jsstring :=
  match s with
  | c :: s' => if is_whitespace c then trim_start s' else s
  | [] => []
  end.

Definition trim (s : jsstring) : jsstring :=
  rev (trim_start (rev (trim_start s))).

Definition jsstring_eqb (a b : jsstring) : bool :=
  bool_decide (a = b).

(** Decimal digits of an integer, as [Number.prototype.toString] prints safe
    integers. *)
Fixpoint uint_digits (d : Decimal.uint) : jsstring :=
  match d with
  | Decimal.Nil => []
  | Decimal.D0 r => 48%N :: uint_digits r
  | Decimal.D1 r => 49%N :: uint_digits r
  | Decimal.D2 r => 50%N :: uint_digits r
  | Decimal.D3 r => 51%N :: uint_digits r
  | Decimal.D4 r => 52%N :: uint_digits r
  | Decimal.D5 r => 53%N :: uint_digits r
  | Decimal.D6 r => 54%N :: uint_digits r
  | Decimal.D7 r => 55%N :: uint_digits r
  | Decimal.D8 r => 56%N :: uint_digits r
  | Decimal.D9 r => 57%N :: uint_digits r
  end.

Definition number_to_string (z : Z) : jsstring :=
  match z with
  | Z0 => lit "0"
  | Zpos p => uint_digits (Pos.to_uint p)
  | Zneg p => lit "-" ++ uint_digits (Pos.to_uint p)
  end.

(** ** JavaScript values

    The values this program handles are the results of [JSON.parse], plus
    [undefined] (a property that is not there). Objects keep their fields in
    insertion order. *)

Inductive value : Type :=
| VUndefined
| VNull
| VBool (b : bool)
| VNum (z : Z)
| VStr (s : jsstring)
| VArr (elems : list value)
| VObj (fields : list (jsstring * value)).

(** How a computation ends: the promise resolves, it rejects with an [Error]
    whose [message] is given, or the run needs a part of JavaScript that this
    development does not model. *)
Inductive outcome (A : Type) : Type :=
| Ok (a : A)
| Throw (message : jsstring)
| Beyond.
Arguments Ok {A} a.
Arguments Throw {A} message.
Arguments Beyond {A}.

Definition truthy (v : value) : bool :=
  match v with
  | VUndefined | VNull => false
  | VBool b => b
  | VNum z => negb (z =? 0)
  | VStr s => match s with [] => false | _ :: _ => true end
  | VArr _ | VObj _ => true
  end.

(** [a || b] *)
Definition js_or (a b : value) : value := if truthy a then a else b.

Fixpoint assoc (k : jsstring) (fields : list (jsstring * value)) : option value :=
  match fields with
  | [] => None
  | (k', v) :: rest => if jsstring_eqb k k' then Some v else assoc k rest
  end.

Definition type_error_reading (v : value) (k : jsstring) : jsstring :=
  lit "Cannot read properties of "
  ++ (match v with VNull => lit "null" | _ => lit "undefined" end)
  ++ lit " (reading '" ++ k ++ lit "')".

(** [v.k] for the property names this program reads (own data properties,
    and [length] of strings and arrays); the messages are those of V8.
    Inherited methods are not values here: on a string, a name of
    [String.prototype] such as [link] reads as [undefined], where JavaScript
    finds a function. *)
Definition get (v : value) (k : jsstring) : outcome value :=
  match v with
  | VUndefined | VNull => Throw (type_error_reading v k)
  | VObj fields => Ok (default VUndefined (assoc k fields))
  | VStr s =>
      if jsstring_eqb k (lit "length") then Ok (VNum (Z.of_nat (length s)))
      else Ok VUndefined
  | VArr elems =>
      if jsstring_eqb k (lit "length") then Ok (VNum (Z.of_nat (length elems)))
      else Ok VUndefined
  | VBool _ | VNum _ => Ok VUndefined
  end.

(** [v?.k] *)
Definition get_opt (v : value) (k : jsstring) : value :=
  match get v k with
  | Ok x => x
  | _ => VUndefined
  end.

(** [a === b] where [b] is a number literal. *)
Definition strict_eq_num (a : value) (n : Z) : bool :=
  match a with
  | VNum z => z =? n
  | _ => false
  end.

(** [a === b] where [b] is a string literal. *)
Definition strict_eq_str (a : value) (s : jsstring) : bool :=
  match a with
  | VStr t => jsstring_eqb t s
  | _ => false
  end.

(** [v.trim()]: only strings have the method. *)
Definition call_trim (name : jsstring) (v : value) : outcome value :=
  match v with
  | VStr s => Ok (VStr (trim s))
  | VUndefined | VNull => Throw (type_error_reading v (lit "trim"))
  | _ => Throw (name ++ lit ".trim is not a function")
  end.

(** [`${v}`]: the string conversion of a template literal. An object parsed
    from JSON prints as "[object Object]" unless it has an own [toString]
    field, which is then not callable: the conversion falls through to
    [valueOf] and ends in a TypeError. Arrays print their elements joined by
    commas, [null] and [undefined] elements as the empty string. *)
Fixpoint to_string (v : value) : outcome jsstring :=
  match v with
  | VUndefined => Ok (lit "undefined")
  | VNull => Ok (lit "null")
  | VBool true => Ok (lit "true")
  | VBool false => Ok (lit "false")
  | VNum z => Ok (number_to_string z)
  | VStr s => Ok s
  | VArr elems =>
      (fix join (first : bool) (l : list value) : outcome jsstring :=
         match l with
         | [] => Ok []
         | x :: rest =>
             match (match x with
                    | VUndefined | VNull => Ok []
                    | _ => to_string x
                    end) with
             | Ok s =>
                 match join false rest with
                 | Ok t => Ok ((if first then [] else lit ",") ++ s ++ t)
                 | Throw m => Throw m
                 | Beyond => Beyond
                 end
             | Throw m => Throw m
             | Beyond => Beyond
             end
         end) true elems
  | VObj fields =>
      match assoc (lit "toString") fields with
      | Some _ => Throw (lit "Cannot convert object to primitive value")
      | None => Ok (lit "[object Object]")
      end
  end.

(** What [Response.json] and [JSON.stringify] keep of a value: fields whose
    value is [undefined] are dropped, [undefined] array elements become
    [null]. *)
Fixpoint jsonify (v : value) : value :=
  match v with
  | VArr elems =>
      VArr (map (fun x => match jsonify x with
                          | VUndefined => VNull
                          | y => y
                          end) elems)
  | VObj fields =>
      VObj (flat_map (fun kx => match jsonify (snd kx) with
                                | VUndefined => []
                                | y => [(fst kx, y)]
                                end) fields)
  | _ => v
  end.

(** [JSON.stringify(v)] without indentation. Strings are quoted with the
    escapes of ECMAScript's QuoteJSONString (control characters and lone
    surrogates as \uXXXX); numbers print in decimal. The result is [None] for
    [undefined], for which [JSON.stringify] returns [undefined]. *)
Definition hex_digit (n : N) : N :=
  (if n <? 10 then 48 + n else 87 + n)%N.

Definition hex4 (c : N) : jsstring :=
  [hex_digit ((c / 4096) mod 16); hex_digit ((c / 256) mod 16);
   hex_digit ((c / 16) mod 16); hex_digit (c mod 16)]%N.

Definition is_high_surrogate (c : N) : bool := ((0xD800 <=? c) && (c <=? 0xDBFF))%N.
Definition is_low_surrogate (c : N) : bool := ((0xDC00 <=? c) && (c <=? 0xDFFF))%N.

Definition escape_unit (c : N) : jsstring :=
  (if c =? 0x08 then lit "\b"
   else if c =? 0x09 then lit "\t"
   else if c =? 0x0A then lit "\n"
   else if c =? 0x0C then lit "\f"
   else if c =? 0x0D then lit "\r"
   else if c =? 0x22 then [0x5C; 0x22]
   else if c =? 0x5C then [0x5C; 0x5C]
   else if c <? 0x20 then lit "\u" ++ hex4 c
   else [c])%N.

Fixpoint escape_units (s : jsstring) : jsstring :=
  match s with
  | [] => []
  | c :: rest =>
      if is_high_surrogate c then
        match rest with
        | d :: rest' =>
            if is_low_surrogate d then c :: d :: escape_units rest'
            else (lit "\u" ++ hex4 c) ++ escape_units rest
        | [] => lit "\u" ++ hex4 c
        end
      else if is_low_surrogate c then (lit "\u" ++ hex4 c) ++ escape_units rest
      else escape_unit c ++ escape_units rest
  end.

Definition quote_json (s : jsstring) : jsstring :=
  [0x22%N] ++ escape_units s ++ [0x22%N].

Fixpoint JSON_stringify (v : value) : option jsstring :=
  match v with
  | VUndefined => None
  | VNull => Some (lit "null")
  | VBool true => Some (lit "true")
  | VBool false => Some (lit "false")
  | VNum z => Some (number_to_string z)
  | VStr s => Some (quote_json s)
  | VArr elems =>
      Some (lit "["
            ++ (fix items (first : bool) (l : list value) : jsstring :=
                  match l with
                  | [] => []
                  | x :: rest =>
                      (if first then [] else lit ",")
                      ++ default (lit "null") (JSON_stringify x)
                      ++ items false rest
                  end) true elems
            ++ lit "]")
  | VObj fields =>
      Some (lit "{"
            ++ (fix members (first : bool) (l : list (jsstring * value)) : jsstring :=
                  match l with
                  | [] => []
                  | (k, x) :: rest =>
                      match JSON_stringify x with
                      | None => members first rest
                      | Some t =>
                          (if first then [] else lit ",")
                          ++ quote_json k ++ lit ":" ++ t ++ members false rest
                      end
                  end) true fields
            ++ lit "}")
  end.

(** ** The outside world

    External calls, by what they are for. A completion call carries the task
    (which prompt template is used) and the values interpolated into the
    prompt; the prompt texts themselves are not modelled. *)

Inductive validation_method :=
| TechnicalFeasibility | MarketViability | ResourceAdequacy | TimelineRealism
| RiskAssessment | CompletenessCheck | QualityStandards | BestPracticesCompliance
| GenericValidation.

Inductive llm_task :=
(* llm.js *)
| InterpretProject | GenerateTasksAndMilestones | AssignTasksAndTimeline
| GenerateArtifacts
(* web-search-agent.js *)
| AnalyzeSearchResults | SynthesizeMultipleSearches
(* validation-agent.js *)
| Validate (method : validation_method)
| GenerateImprovementSuggestions | GenerateValidationReport
(* research-agent.js *)
| PlanResearchStrategy | PerformTechnicalAnalysis | PerformMarketAnalysis
| PerformRiskAnalysis | SynthesizeTopicFindings | SynthesizeResearch
(* knowledge-base.js *)
| ExtractLearnings | AnalyzePatterns.

Inductive call :=
| SerperSearch (q num hl gl : value)
| Completion (task : llm_task) (args : list value)
| CreateNotionPage (interpretation milestones assignments : value)
| CreateGitHubRepo (interpretation artifacts milestones : value).

Inductive reply :=
| Resolve (v : value)
| Reject (message : jsstring).

Definition event : Type := call * reply.

(** The world answers the [n]-th external call of a run, tells the time, and
    holds the two environment variables the agents read. *)
Record world := {
  answer : nat -> call -> reply;
  clock : nat -> jsstring;
  SERPER_API_KEY : value;
  OPENAI_API_KEY : value
}.

(** ** Computations

    [M S A]: a computation over the mutable state [S] of the object it runs
    on and the log of external calls made so far. State changes made before
    an exception stay. *)

Definition M (S A : Type) : Type :=
  S -> list event -> outcome A * S * list event.

Definition ret {S A} (a : A) : M S A := fun s log => (Ok a, s, log).

Definition throw {S A} (message : jsstring) : M S A :=
  fun s log => (Throw message, s, log).

Definition bind {S A B} (m : M S A) (k : A -> M S B) : M S B :=
  fun s log =>
    match m s log with
    | (Ok a, s', log') => k a s' log'
    | (Throw e, s', log') => (Throw e, s', log')
    | (Beyond, s', log') => (Beyond, s', log')
    end.

Notation "'let*' x := m 'in' k" := (bind m (fun x => k))
  (at level 10, x name, m at level 100, k at level 200).
Notation "'do*' m 'in' k" := (bind m (fun _ => k))
  (at level 10, m at level 100, k at level 200).

Definition lift {S A} (o : outcome A) : M S A := fun s log => (o, s, log).

(** [try { m } catch (error) { h error.message }] *)
Definition try_catch {S A} (m : M S A) (h : jsstring -> M S A) : M S A :=
  fun s log =>
    match m s log with
    | (Throw e, s', log') => h e s' log'
    | r => r
    end.

Definition get_state {S} : M S S := fun s log => (Ok s, s, log).
Definition put_state {S} (s : S) : M S unit := fun _ log => (Ok tt, s, log).

(** One external call: the world's answer is logged with the call. *)
Definition external {S} (w : world) (c : call) : M S value :=
  fun s log =>
    let r := answer w (length log) c in
    (match r with
     | Resolve v => Ok v
     | Reject e => Throw e
     end, s, log ++ [(c, r)]).

(** [new Date().toISOString()] *)
Definition now {S} (w : world) : M S jsstring :=
  fun s log => (Ok (clock w (length log)), s, log).

(** [for (const x of l) { f x }] and [Promise.all]-free sequential maps. *)
Fixpoint for_each {S A} (l : list A) (f : A -> M S unit) : M S unit :=
  match l with
  | [] => ret tt
  | x :: rest => do* f x in for_each rest f
  end.

Fixpoint map_m {S A B} (f : A -> M S B) (l : list A) : M S (list B) :=
  match l with
  | [] => ret []
  | x :: rest => let* y := f x in let* ys := map_m f rest in ret (y :: ys)
  end.

(** [callLLM(systemPrompt, userPrompt)] of [llm.js]: the credential check, then
    the request; a failed request, a non-success status and an unparsable
    body all reject, and the parsed content is the result. *)
Definition callLLM {S} (w : world) (task : llm_task) (args : list value) : M S value :=
  if truthy (OPENAI_API_KEY w) then external w (Completion task args)
  else throw (lit "OPENAI_API_KEY not configured").

(** ** Web search agent ([web-search-agent.js]) *)

Module WebSearchAgent.

(** [this.cache], a [Map] from cache keys to responses. *)
Abbreviation cache := (gmap jsstring value).

Definition disabled_summary : jsstring :=
  lit "Web search functionality is disabled. Configure SERPER_API_KEY to enable real-time research capabilities.".

Definition unavailable_analysis : value :=
  VObj [
    (lit "key_insights", VArr [VStr (lit "Web search unavailable - API key not configured")]);
    (lit "trends", VArr [VStr (lit "Unable to analyze current trends without web access")]);
    (lit "recommendations", VArr [VStr (lit "Configure SERPER_API_KEY for enhanced research capabilities")]);
    (lit "technical_details", VArr [VStr (lit "Web search functionality disabled")]);
    (lit "market_data", VArr [VStr (lit "Market analysis unavailable without web search")]);
    (lit "competitors", VArr [VStr (lit "Competitor analysis unavailable without web search")]);
    (lit "technologies", VArr [VStr (lit "Technology research limited without web access")]);
    (lit "summary", VStr disabled_summary)
  ].

Definition unavailable (query : value) : value :=
  VObj [ (lit "query", query); (lit "results", VArr []);
         (lit "analysis", unavailable_analysis) ].

(** The record [search] returns from its [catch] block. *)
Definition failed (query : value) (message : jsstring) : value :=
  VObj [ (lit "query", query); (lit "results", VArr []);
         (lit "analysis", VNull); (lit "error", VStr message) ].

Section Agent.
Variable w : world.

(** [searchWithSerper(query, options)]. The request, the status check and the
    parsing of the body are one external call. *)
Definition searchWithSerper (query options : value) : M cache value :=
  let apiKey := SERPER_API_KEY w in
  if negb (truthy apiKey) then
    ret (VObj [ (lit "organic", VArr []);
                (lit "searchInformation",
                 VObj [ (lit "totalResults", VNum 0);
                        (lit "formattedTotalResults",
                         VStr (lit "0 results (API key not configured)")) ]) ])
  else
    let* numResults := lift (get options (lit "numResults")) in
    let* language := lift (get options (lit "language")) in
    let* country := lift (get options (lit "country")) in
    external w (SerperSearch query
                  (js_or numResults (VNum 10))
                  (js_or language (VStr (lit "en")))
                  (js_or country (VStr (lit "us")))).

Definition relevant_result (result : value) : M cache value :=
  let* title := lift (get result (lit "title")) in
  let* snippet := lift (get result (lit "snippet")) in
  let* link := lift (get result (lit "link")) in
  let* date := lift (get result (lit "date")) in
  ret (VObj [ (lit "title", title); (lit "snippet", snippet);
              (lit "url", link); (lit "date", date) ]).

(** [analyzeSearchResults(query, searchResults)] *)
Definition analyzeSearchResults (query searchResults : value) : M cache value :=
  let* organic := lift (get searchResults (lit "organic")) in
  if negb (truthy organic) || strict_eq_num (get_opt organic (lit "length")) 0 then
    ret (unavailable query)
  else
    match organic with
    | VArr elems =>
        let* relevantResults := map_m relevant_result (firstn 5 elems) in
        let* analysis :=
          callLLM w AnalyzeSearchResults [query; VArr relevantResults] in
        let* timestamp := now w in
        ret (VObj [ (lit "query", query); (lit "results", VArr relevantResults);
                    (lit "analysis", analysis); (lit "timestamp", VStr timestamp) ])
    | VStr _ =>
        throw (lit "searchResults.organic.slice(...).map is not a function")
    | _ =>
        throw (lit "searchResults.organic.slice is not a function")
    end.

(** The default parameter [options = {}]. *)
Definition default_options (options : value) : value :=
  match options with
  | VUndefined => VObj []
  | _ => options
  end.

(** [`${query}-${JSON.stringify(options)}`] *)
Definition cacheKey (query options : value) : outcome jsstring :=
  match to_string query with
  | Ok q => Ok (q ++ lit "-" ++ default (lit "undefined")
                                   (JSON_stringify (default_options options)))
  | Throw e => Throw e
  | Beyond => Beyond
  end.

(** The [try] block of [search], entered on a cache miss. *)
Definition search_body (key : jsstring) (query options : value) : M cache value :=
  let* searchResults := searchWithSerper query options in
  let* analyzedResults := analyzeSearchResults query searchResults in
  let* c := get_state in
  do* put_state (<[key := analyzedResults]> c) in
  ret analyzedResults.

Definition search_miss (key : jsstring) (query options : value) : M cache value :=
  try_catch (search_body key query (default_options options))
            (fun message => ret (failed query message)).

(** [search(query, options = {})] *)
Definition search (query options : value) : M cache value :=
  let* key := lift (cacheKey query options) in
  let* c := get_state in
  match c !! key with
  | Some cached => ret cached
  | None => search_miss key query options
  end.

(** [Promise.all(queries.map(query => this.search(query)))].

    Every call of [search] runs up to its first [await] as soon as it is
    made: the key is computed and the cache is consulted before any of the
    searches goes on. So all lookups see the cache as it is when the batch
    starts. What is left of each search depends only on the answers to its own
    external calls; the searches are run one after the other here, in the
    order of the queries, and the batch is joined when all of them are done.
    A search that rejects (its key cannot be computed) makes the batch reject
    with the first such error. *)
Definition started : Type := value * outcome (jsstring * option value).

Definition start (c0 : cache) (query : value) : started :=
  (query,
   match cacheKey query VUndefined with
   | Ok key => Ok (key, c0 !! key)
   | Throw e => Throw e
   | Beyond => Beyond
   end).

Definition finish (s : started) : M cache (outcome value) :=
  match s with
  | (query, Ok (key, Some cached)) => ret (Ok cached)
  | (query, Ok (key, None)) =>
      let* r := search_miss key query VUndefined in ret (Ok r)
  | (query, Throw e) => ret (Throw e)
  | (query, Beyond) => ret Beyond
  end.

Fixpoint settle (rs : list (outcome value)) : outcome (list value) :=
  match rs with
  | [] => Ok []
  | Ok v :: rest =>
      match settle rest with
      | Ok vs => Ok (v :: vs)
      | other => other
      end
  | Throw e :: _ => Throw e
  | Beyond :: _ => Beyond
  end.

Definition search_all (queries : list value) : M cache (list value) :=
  let* c0 := get_state in
  let* rs := map_m finish (map (start c0) queries) in
  lift (settle rs).

(** [synthesizeMultipleSearches(queries, results)] *)
Definition synthesizeMultipleSearches (queries : value) (results : list value)
  : M cache value :=
  callLLM w SynthesizeMultipleSearches [queries; VArr results].

(** [searchMultipleQueries(queries)] *)
Definition searchMultipleQueries (queries : value) : M cache value :=
  let* _ := lift (get queries (lit "length")) in
  match queries with
  | VArr qs =>
      let* results := search_all qs in
      let* synthesis := synthesizeMultipleSearches queries results in
      ret (VObj [ (lit "individualResults", VArr results);
                  (lit "synthesis", synthesis) ])
  | _ => throw (lit "queries.map is not a function")
  end.

Definition searchBestPractices (domain : jsstring) : M cache value :=
  searchMultipleQueries
    (VArr [ VStr (domain ++ lit " best practices 2024");
            VStr (domain ++ lit " common mistakes to avoid");
            VStr (domain ++ lit " success stories case studies");
            VStr (domain ++ lit " implementation guidelines") ]).

(** [clearCache()] *)
Definition clearCache : M cache unit := put_state ∅.

End Agent.

(** The calls that look at the cache or set an entry: [search], and
    [searchMultipleQueries] (also behind [searchTechnologies],
    [searchCompetitors] and [searchBestPractices]). *)
Inductive operation :=
| Search (query options : value)
| SearchMultiple (queries : value).

(** One call made and awaited, however it ends. *)
Definition operate (w : world) (op : operation) : M cache unit :=
  fun c log =>
    match op with
    | Search query options =>
        match search w query options c log with
        | (_, c', log') => (Ok tt, c', log')
        end
    | SearchMultiple queries =>
        match searchMultipleQueries w queries c log with
        | (_, c', log') => (Ok tt, c', log')
        end
    end.

(** A sequence of calls on one agent, each made when the one before is
    done. *)
Fixpoint operations (w : world) (ops : list operation) : M cache unit :=
  match ops with
  | [] => ret tt
  | op :: rest => do* operate w op in operations w rest
  end.

(** Whether a response is one of the [try] block of [search]: the failure
    record alone has an [error]. *)
Definition succeeded (r : value) : bool :=
  match get r (lit "error") with
  | Ok VUndefined => true
  | _ => false
  end.

(** What the searches of a batch leave in the cache [c], given the cache
    [c0] they all looked at when the batch started and what each of them
    returned: a query that had no entry in [c0] and whose search succeeded has
    set the entry of its key, in the order of the queries. *)
Definition batch_sets (c0 c : cache) (returned : list (value * value)) : cache :=
  fold_left
    (fun (acc : cache) (qr : value * value) =>
       match cacheKey qr.1 VUndefined with
       | Ok key =>
           match c0 !! key with
           | None => if succeeded qr.2 then <[key := qr.2]> acc else acc
           | Some _ => acc
           end
       | _ => acc
       end)
    returned c.

End WebSearchAgent.

(** [obj[key] = v] on an object: the field is replaced where it is, or added
    at the end. *)
Fixpoint set_field (key : jsstring) (v : value) (fields : list (jsstring * value))
  : list (jsstring * value) :=
  match fields with
  | [] => [(key, v)]
  | (k, x) :: rest =>
      if jsstring_eqb key k then (k, v) :: rest
      else (k, x) :: set_field key v rest
  end.

(** ** Validation agent ([validation-agent.js]) *)

Module ValidationAgent.

Import WebSearchAgent.

Definition validationCriteria : list jsstring :=
  [ lit "technical_feasibility"; lit "market_viability"; lit "resource_adequacy";
    lit "timeline_realism"; lit "risk_assessment"; lit "completeness_check";
    lit "quality_standards"; lit "best_practices_compliance" ].

(** [criterion.split('_')] *)
Fixpoint split_underscore (s : jsstring) : list jsstring :=
  match s with
  | [] => [[]]
  | c :: rest =>
      if (c =? 0x5F)%N then [] :: split_underscore rest
      else match split_underscore rest with
           | word :: words => (c :: word) :: words
           | [] => [[c]]
           end
  end.

(** [word.charAt(0).toUpperCase() + word.slice(1)], for words that start with
    an ASCII character; [None] otherwise (Unicode case mapping is not
    modelled). *)
Definition capitalize (word : jsstring) : option jsstring :=
  match word with
  | [] => Some []
  | c :: rest =>
      if ((0x61 <=? c) && (c <=? 0x7A))%N then Some ((c - 32)%N :: rest)
      else if (c <? 0x80)%N then Some (c :: rest)
      else None
  end.

Fixpoint capitalize_all (words : list jsstring) : option jsstring :=
  match words with
  | [] => Some []
  | word :: rest =>
      match capitalize word, capitalize_all rest with
      | Some a, Some b => Some (a ++ b)
      | _, _ => None
      end
  end.

(** The name [validateCriterion] builds for a criterion. *)
Definition validationMethod (criterion : jsstring) : option jsstring :=
  match capitalize_all (split_underscore criterion) with
  | Some name => Some (lit "validate" ++ name)
  | None => None
  end.

(** The methods of the class whose name starts with "validate" and that take
    the project alone. *)
Definition methods : list (jsstring * validation_method) :=
  [ (lit "validateTechnicalFeasibility", TechnicalFeasibility);
    (lit "validateMarketViability", MarketViability);
    (lit "validateResourceAdequacy", ResourceAdequacy);
    (lit "validateTimelineRealism", TimelineRealism);
    (lit "validateRiskAssessment", RiskAssessment);
    (lit "validateCompletenessCheck", CompletenessCheck);
    (lit "validateQualityStandards", QualityStandards);
    (lit "validateBestPracticesCompliance", BestPracticesCompliance) ].

Fixpoint find_method (name : jsstring) (table : list (jsstring * validation_method))
  : option validation_method :=
  match table with
  | [] => None
  | (n, m) :: rest => if jsstring_eqb name n then Some m else find_method name rest
  end.

(** [typeof this[validationMethod] === 'function'] selects the method of that
    name, the generic check otherwise. The names "validateProject" and
    "validateCriterion" (criteria "project" and "criterion") would re-enter
    the agent; they are outside the model, as are names that need Unicode
    case mapping. *)
Definition dispatch (criterion : jsstring) : option validation_method :=
  match validationMethod criterion with
  | None => None
  | Some name =>
      if jsstring_eqb name (lit "validateProject")
         || jsstring_eqb name (lit "validateCriterion") then None
      else Some (default GenericValidation (find_method name methods))
  end.

(** The sum a [reduce((a, b) => a + b, 0)] over the scores computes, as long
    as every score is a number and every partial sum is an integer below
    2^52 in absolute value, where sums and the division by the count are
    exact in double precision. *)
Definition exactly_representable (z : Z) : bool := Z.abs z <? 2 ^ 52.

Fixpoint sum_scores (acc : Z) (scores : list value) : option Z :=
  match scores with
  | [] => Some acc
  | VNum z :: rest =>
      if exactly_representable (acc + z) then sum_scores (acc + z) rest else None
  | _ :: _ => None
  end.

(** [Math.round(sum / count)]: the nearest integer, halves rounded up. *)
Definition round_div (sum : Z) (count : Z) : Z := (2 * sum + count) / (2 * count).

(** [result.score || 0] *)
Definition score_of (result : value) : outcome value :=
  match get result (lit "score") with
  | Ok s => Ok (js_or s (VNum 0))
  | Throw e => Throw e
  | Beyond => Beyond
  end.

Fixpoint scores_of (results : list (jsstring * value)) : outcome (list value) :=
  match results with
  | [] => Ok []
  | (_, result) :: rest =>
      match score_of result with
      | Ok s =>
          match scores_of rest with
          | Ok ss => Ok (s :: ss)
          | other => other
          end
      | Throw e => Throw e
      | Beyond => Beyond
      end
  end.

(** [calculateOverallScore(validationResults)] *)
Definition calculateOverallScore (validationResults : list (jsstring * value))
  : outcome Z :=
  match scores_of validationResults with
  | Ok scores =>
      if (0 <? length scores)%nat then
        match sum_scores 0 scores with
        | Some sum => Ok (round_div sum (Z.of_nat (length scores)))
        | None => Beyond
        end
      else Ok 0
  | Throw e => Throw e
  | Beyond => Beyond
  end.

Section Agent.
Variable w : world.

(** [`${project.title} ...`] *)
Definition titled (project : value) (suffix : jsstring) : outcome value :=
  match get project (lit "title") with
  | Ok title =>
      match to_string title with
      | Ok t => Ok (VStr (t ++ suffix))
      | Throw e => Throw e
      | Beyond => Beyond
      end
  | Throw e => Throw e
  | Beyond => Beyond
  end.

Definition validateMarketViability (project : value) : M cache value :=
  let* q1 := lift (titled project (lit " market demand 2024")) in
  let* q2 := lift (titled project (lit " competition analysis")) in
  let* q3 := lift (titled project (lit " target audience size")) in
  let* q4 := lift (titled project (lit " monetization strategies")) in
  let* marketResearch := searchMultipleQueries w (VArr [q1; q2; q3; q4]) in
  callLLM w (Validate MarketViability) [project; marketResearch].

Definition validateBestPracticesCompliance (project : value) : M cache value :=
  let* title := lift (get project (lit "title")) in
  let* domain := lift (to_string (js_or title (VStr (lit "software development")))) in
  let* bestPracticesResearch := searchBestPractices w domain in
  callLLM w (Validate BestPracticesCompliance) [project; bestPracticesResearch].

(** [validateCriterion(project, criterion)] *)
Definition validateCriterion (project : value) (criterion : jsstring) : M cache value :=
  match dispatch criterion with
  | None => lift Beyond
  | Some MarketViability => validateMarketViability project
  | Some BestPracticesCompliance => validateBestPracticesCompliance project
  | Some GenericValidation =>
      callLLM w (Validate GenericValidation) [project; VStr criterion]
  | Some method => callLLM w (Validate method) [project]
  end.

(** The loop of [validateProject] over the criteria. *)
Fixpoint validate_each (project : value) (criteria : list jsstring)
    (results : list (jsstring * value)) : M cache (list (jsstring * value)) :=
  match criteria with
  | [] => ret results
  | criterion :: rest =>
      let* result := validateCriterion project criterion in
      validate_each project rest (set_field criterion result results)
  end.

(** [validateProject(project)] *)
Definition validateProject (project : value) : M cache value :=
  let* timestamp := now w in
  let criteria := VArr (map VStr validationCriteria) in
  let* results := validate_each project validationCriteria [] in
  let* overallScore := lift (calculateOverallScore results) in
  let improvementNeeded := overallScore <? 75 in
  let* suggestions :=
    (if improvementNeeded
     then callLLM w GenerateImprovementSuggestions [project; VObj results]
     else ret (VArr [])) in
  let validationResults :=
    [ (lit "timestamp", VStr timestamp);
      (lit "validationCriteria", criteria);
      (lit "results", VObj results);
      (lit "overallScore", VNum overallScore);
      (lit "improvementNeeded", VBool improvementNeeded);
      (lit "suggestions", suggestions) ] in
  let* report := callLLM w GenerateValidationReport [VObj validationResults] in
  ret (VObj (validationResults ++ [(lit "report", report)])).

End Agent.

End ValidationAgent.

(** ** Scores that are not integers

    The values above hold integers. A score such as 84.9 is a double, and
    [calculateOverallScore] adds, divides and rounds doubles. This is the
    same function over binary64 numbers, with the arithmetic of IEEE 754
    (round to nearest, ties to even). *)

Module Double.

Definition number : Type := SpecFloat.spec_float.

Definition of_Z (z : Z) : number := SpecFloat.binary_normalize 53 1024 z 0 false.

(** [a + b], [a / b] and [a < b] *)
Definition add : number -> number -> number := SpecFloat.SFadd 53 1024.
Definition div : number -> number -> number := SpecFloat.SFdiv 53 1024.
Definition less : number -> number -> bool := SpecFloat.SFltb.

(** The numbers that are falsy: zero and [NaN]. *)
Definition falsy (x : number) : bool :=
  match x with
  | SpecFloat.S754_zero _ | SpecFloat.S754_nan => true
  | _ => false
  end.

Definition signed (negative : bool) (m : positive) : Z :=
  if negative then Z.neg m else Z.pos m.

(** [Math.round(x)]: the integer nearest to [x], the one towards +infinity
    of two that are as near; [-0] for a negative [x] that rounds to zero. A
    finite double with a fraction part is below 2^52 in absolute value, so
    the integer is a double too. *)
Definition round (x : number) : number :=
  match x with
  | SpecFloat.S754_finite negative m e =>
      if 0 <=? e then x
      else
        let n := (2 * signed negative m + 2 ^ (- e)) / 2 ^ (1 - e) in
        if n =? 0 then SpecFloat.S754_zero negative else of_Z n
  | _ => x
  end.

(** [calculateOverallScore], given the [score] of every result:
    [result.score || 0], then the sum from 0 in the order of the results,
    divided by their number and rounded. *)
Definition calculateOverallScore (scores : list number) : number :=
  let scores := map (fun score => if falsy score then of_Z 0 else score) scores in
  if (0 <? length scores)%nat
  then round (div (fold_left add scores (of_Z 0)) (of_Z (Z.of_nat (length scores))))
  else of_Z 0.

(** The rational a finite double stands for. *)
Definition to_Q (x : number) : Q :=
  match x with
  | SpecFloat.S754_finite negative m e =>
      if 0 <=? e then inject_Z (signed negative m * 2 ^ e)
      else Qmake (signed negative m) (Z.to_pos (2 ^ (- e)))
  | _ => 0%Q
  end.

(** The arithmetic mean of the scores, rounded to the nearest integer (halves
    up), computed in the rationals. *)
Definition rounded_mean (scores : list number) : Z :=
  Qfloor (fold_right Qplus 0%Q (map to_Q scores)
          / inject_Z (Z.of_nat (length scores)) + (1 # 2))%Q.

(** The double of a decimal with one digit after the point, as [JSON.parse]
    reads it: the double nearest to [n / 10]. *)
Definition tenths (n : Z) : number := div (of_Z n) (of_Z 10).

End Double.

(** ** Research agent ([research-agent.js]) *)

Module ResearchAgent.

Import WebSearchAgent.

(** Property keys that an object does not keep as plain fields in insertion
    order: keys that are all digits are listed before the others, in numeric
    order, and assigning to "__proto__" sets the prototype. Research results
    keyed by such a topic are outside the model. *)
Definition is_digit (c : N) : bool := ((0x30 <=? c) && (c <=? 0x39))%N.

Definition special_key (key : jsstring) : bool :=
  match key with
  | [] => false
  | _ :: _ => forallb is_digit key || jsstring_eqb key (lit "__proto__")
  end.

(** [calculateResearchConfidence(researchResults)] *)
Definition topic_score (results : value) : Z :=
  let findings := get_opt results (lit "findings") in
  (if truthy (get_opt findings (lit "webResearch")) then 25 else 0)
  + (if truthy (get_opt findings (lit "technicalAnalysis")) then 25 else 0)
  + (if truthy (get_opt findings (lit "marketAnalysis")) then 25 else 0)
  + (if truthy (get_opt findings (lit "riskAnalysis")) then 25 else 0).

Definition calculateResearchConfidence (researchResults : list (jsstring * value)) : Z :=
  let totalScore := fold_left (fun acc kv => acc + topic_score (snd kv)) researchResults 0 in
  let topicCount := Z.of_nat (length researchResults) in
  if 0 <? topicCount then (2 * totalScore + topicCount) / (2 * topicCount) else 0.

Section Agent.
Variable w : world.

(** One of the four optional analyses of [researchTopic]:
    [if (researchStrategy.flag) { results.findings.name = await analysis }]. *)
Definition when_needed (researchStrategy : value) (flag name : jsstring)
    (analysis : M cache value) (findings : list (jsstring * value))
  : M cache (list (jsstring * value)) :=
  let* needed := lift (get researchStrategy flag) in
  if truthy needed then
    let* found := analysis in ret (set_field name found findings)
  else ret findings.

Definition performMarketAnalysis (topic : value) (text : jsstring) : M cache value :=
  let* marketSearchResults :=
    searchMultipleQueries w
      (VArr [ VStr (text ++ lit " market size analysis 2024");
              VStr (text ++ lit " industry trends growth");
              VStr (text ++ lit " target audience demographics");
              VStr (text ++ lit " pricing models revenue streams") ]) in
  callLLM w PerformMarketAnalysis [topic; marketSearchResults].

(** [researchTopic(topic)]; [text] is the topic as the prompts print it. *)
Definition researchTopic (topic : value) (text : jsstring) : M cache value :=
  let* researchStrategy := callLLM w PlanResearchStrategy [topic] in
  let* findings :=
    when_needed researchStrategy (lit "webSearchNeeded") (lit "webResearch")
      (let* queries := lift (get researchStrategy (lit "searchQueries")) in
       searchMultipleQueries w queries) [] in
  let* findings :=
    when_needed researchStrategy (lit "technicalAnalysisNeeded") (lit "technicalAnalysis")
      (callLLM w PerformTechnicalAnalysis [topic]) findings in
  let* findings :=
    when_needed researchStrategy (lit "marketAnalysisNeeded") (lit "marketAnalysis")
      (performMarketAnalysis topic text) findings in
  let* findings :=
    when_needed researchStrategy (lit "riskAnalysisNeeded") (lit "riskAnalysis")
      (callLLM w PerformRiskAnalysis [topic]) findings in
  let* synthesis := callLLM w SynthesizeTopicFindings [topic; VObj findings] in
  ret (VObj [ (lit "topic", topic); (lit "strategy", researchStrategy);
              (lit "findings", VObj findings); (lit "synthesis", synthesis) ]).

(** The loop of [conductResearch] over the topics. *)
Fixpoint research_each (topics : list value) (researchResults : list (jsstring * value))
  : M cache (list (jsstring * value)) :=
  match topics with
  | [] => ret researchResults
  | topic :: rest =>
      let* text := lift (to_string topic) in
      if special_key text then lift Beyond
      else
        let* results := researchTopic topic text in
        research_each rest (set_field text results researchResults)
  end.

(** [conductResearch(researchTopics)]. A string would be iterated character
    by character, which is not modelled; other values that are not arrays
    are not iterable. *)
Definition conductResearch (researchTopics : value) : M cache value :=
  let* count := lift (get researchTopics (lit "length")) in
  match researchTopics with
  | VArr topics =>
      let* researchResults := research_each topics [] in
      let* synthesis := callLLM w SynthesizeResearch [VObj researchResults] in
      let* timestamp := now w in
      ret (VObj [ (lit "individualResearch", VObj researchResults);
                  (lit "synthesis", synthesis);
                  (lit "researchMetadata",
                   VObj [ (lit "topicsInvestigated", count);
                          (lit "timestamp", VStr timestamp);
                          (lit "confidenceScore",
                           VNum (calculateResearchConfidence researchResults)) ]) ])
  | VStr _ => lift Beyond
  | _ => throw (lit "researchTopics is not iterable")
  end.

End Agent.

End ResearchAgent.

(** ** Knowledge base ([knowledge-base.js]) *)

Module KnowledgeBase.

(** [hashString(str)]: a 32-bit rolling hash, printed in base 36. *)
Definition to_int32 (z : Z) : Z := (z + 2 ^ 31) mod 2 ^ 32 - 2 ^ 31.

(** [hash = ((hash << 5) - hash) + char; hash = hash & hash] *)
Definition hash_step (hash : Z) (char : N) : Z :=
  to_int32 (to_int32 (hash * 32) - hash + Z.of_N char).

Definition digit36 (d : Z) : N :=
  if d <? 10 then Z.to_N (48 + d) else Z.to_N (87 + d).

(** [n.toString(36)] for [0 <= n < 36^fuel]. *)
Fixpoint base36 (fuel : nat) (n : Z) : jsstring :=
  match fuel with
  | O => []
  | S fuel' =>
      if n <? 36 then [digit36 n]
      else base36 fuel' (n / 36) ++ [digit36 (n mod 36)]
  end.

Definition hashString (str : jsstring) : jsstring :=
  base36 7 (Z.abs (fold_left hash_step str 0)).

(** [`prefix_${this.hashString(JSON.stringify(item))}`]; [JSON.stringify]
    returns [undefined] for [undefined], whose [length] cannot be read. *)
Definition generateKey (prefix : jsstring) (item : value) : outcome jsstring :=
  match JSON_stringify item with
  | Some str => Ok (prefix ++ hashString str)
  | None => Throw (lit "Cannot read properties of undefined (reading 'length')")
  end.

Definition generatePatternKey := generateKey (lit "pattern_").
Definition generateInsightKey := generateKey (lit "insight_").
Definition generateBestPracticeKey := generateKey (lit "practice_").
Definition generateTechnologyKey := generateKey (lit "tech_").

(** The four ways to store a learning item. *)
Inductive store_call :=
| StorePattern (type_ : jsstring) (item : value)
| StoreInsight (category_ : jsstring) (item : value)
| StoreBestPractice (item : value)
| StoreTechnologyLearning (item : value).

Definition store_key (sc : store_call) : outcome jsstring :=
  match sc with
  | StorePattern _ item => generatePatternKey item
  | StoreInsight _ item => generateInsightKey item
  | StoreBestPractice item => generateBestPracticeKey item
  | StoreTechnologyLearning item => generateTechnologyKey item
  end.

(** An order on strength counters: every entry is still there and counts at
    least as much. *)
Definition no_weaker (m m' : gmap jsstring Z) : Prop :=
  forall key n, m !! key = Some n -> exists n', m' !! key = Some n' /\ n <= n'.

(** [n++] on a counter: a counter is a JS number, and adding 1 is exact while
    the counter is a safe integer; a run that counts further is not followed. *)
Definition increment (n : Z) : outcome Z :=
  if Z.abs n <? 2 ^ 53 then Ok (n + 1) else Beyond.

Section Store.

(** The [confidence] of a pattern is a double that [updatePatternStrengths]
    rescales; doubles and their arithmetic are parameters: the number 1,
    the test [!x], and the products [x * 1.1] and [x * 0.9]. *)
Context {double : Type}.
Variable one : double.
Variable falsy : double -> bool.
Variable times_1_1 : double -> double.
Variable times_0_9 : double -> double.

Record pattern_entry := {
  pattern : value;
  type : jsstring;
  occurrences : Z;
  projects : list value;
  lastSeen : option jsstring;
  pattern_confidence : option double;
  pattern_lastValidated : option jsstring;
  evidence : option (list value)
}.

Record insight_entry := {
  insight : value;
  category : jsstring;
  confidence : Z;
  sources : list value;
  insight_lastUpdated : option jsstring
}.

Record practice_entry := {
  practice : value;
  effectiveness : Z;
  practice_contexts : list value;
  practice_lastValidated : option jsstring
}.

Record technology_entry := {
  learning : value;
  reliability : Z;
  technology_contexts : list value;
  technology_lastUpdated : option jsstring
}.

(** [this.knowledge] and [this.learningEnabled]. The maps [failures] and
    [markets] are created empty and never used. *)
Record knowledge := {
  patterns : gmap jsstring pattern_entry;
  insights : gmap jsstring insight_entry;
  bestPractices : gmap jsstring practice_entry;
  technologies : gmap jsstring technology_entry;
  learningEnabled : bool
}.

Definition empty_knowledge : knowledge :=
  {| patterns := ∅; insights := ∅; bestPractices := ∅; technologies := ∅;
     learningEnabled := true |}.

Variable w : world.

(** [storePattern(type, pattern)] *)
Definition storePattern (type_ : jsstring) (pattern_ : value) : M knowledge unit :=
  let* key := lift (generatePatternKey pattern_) in
  let* kb := get_state in
  let existing :=
    default {| pattern := pattern_; type := type_; occurrences := 0; projects := [];
               lastSeen := None; pattern_confidence := None;
               pattern_lastValidated := None; evidence := None |}
            (patterns kb !! key) in
  let* counted := lift (increment (occurrences existing)) in
  let* timestamp := now w in
  let updated :=
    {| pattern := pattern existing; type := type existing;
       occurrences := counted;
       projects := projects existing;
       lastSeen := Some timestamp;
       pattern_confidence := pattern_confidence existing;
       pattern_lastValidated := pattern_lastValidated existing;
       evidence := evidence existing |} in
  put_state {| patterns := <[key := updated]> (patterns kb);
               insights := insights kb; bestPractices := bestPractices kb;
               technologies := technologies kb;
               learningEnabled := learningEnabled kb |}.

(** [storeInsight(category, insight)] *)
Definition storeInsight (category_ : jsstring) (insight_ : value) : M knowledge unit :=
  let* key := lift (generateInsightKey insight_) in
  let* kb := get_state in
  let existing :=
    default {| insight := insight_; category := category_; confidence := 1;
               sources := []; insight_lastUpdated := None |}
            (insights kb !! key) in
  let* counted := lift (increment (confidence existing)) in
  let* timestamp := now w in
  let updated :=
    {| insight := insight existing; category := category existing;
       confidence := counted;
       sources := sources existing;
       insight_lastUpdated := Some timestamp |} in
  put_state {| patterns := patterns kb;
               insights := <[key := updated]> (insights kb);
               bestPractices := bestPractices kb;
               technologies := technologies kb;
               learningEnabled := learningEnabled kb |}.

(** [storeBestPractice(practice)] *)
Definition storeBestPractice (practice_ : value) : M knowledge unit :=
  let* key := lift (generateBestPracticeKey practice_) in
  let* kb := get_state in
  let existing :=
    default {| practice := practice_; effectiveness := 1; practice_contexts := [];
               practice_lastValidated := None |}
            (bestPractices kb !! key) in
  let* counted := lift (increment (effectiveness existing)) in
  let* timestamp := now w in
  let updated :=
    {| practice := practice existing;
       effectiveness := counted;
       practice_contexts := practice_contexts existing;
       practice_lastValidated := Some timestamp |} in
  put_state {| patterns := patterns kb; insights := insights kb;
               bestPractices := <[key := updated]> (bestPractices kb);
               technologies := technologies kb;
               learningEnabled := learningEnabled kb |}.

(** [storeTechnologyLearning(learning)] *)
Definition storeTechnologyLearning (learning_ : value) : M knowledge unit :=
  let* key := lift (generateTechnologyKey learning_) in
  let* kb := get_state in
  let existing :=
    default {| learning := learning_; reliability := 1; technology_contexts := [];
               technology_lastUpdated := None |}
            (technologies kb !! key) in
  let* counted := lift (increment (reliability existing)) in
  let* timestamp := now w in
  let updated :=
    {| learning := learning existing;
       reliability := counted;
       technology_contexts := technology_contexts existing;
       technology_lastUpdated := Some timestamp |} in
  put_state {| patterns := patterns kb; insights := insights kb;
               bestPractices := bestPractices kb;
               technologies := <[key := updated]> (technologies kb);
               learningEnabled := learningEnabled kb |}.

(** The characters a string is iterated by: its code points, a surrogate pair
    being one. *)
Fixpoint code_points (s : jsstring) : list jsstring :=
  match s with
  | [] => []
  | c :: rest =>
      match rest with
      | d :: rest' =>
          if is_high_surrogate c && is_low_surrogate d
          then [c; d] :: code_points rest'
          else [c] :: code_points rest
      | [] => [[c]]
      end
  end.

(** [for (const x of v || [])]: the elements when the value is an array;
    nothing when it is falsy; a string is iterated character by character;
    other values are not iterable. *)
Definition iterate (what : jsstring) (v : value) : outcome (list value) :=
  match js_or v (VArr []) with
  | VArr elems => Ok elems
  | VStr s => Ok (map VStr (code_points s))
  | _ => Throw (what ++ lit " is not iterable")
  end.

(** [categorizeAndStore(learnings)] *)
Definition store_all (what : jsstring) (learnings : value)
    (store : value -> M knowledge unit) : M knowledge unit :=
  let* list := lift (get learnings what) in
  let* items := lift (iterate (lit "learnings." ++ what ++ lit " || []") list) in
  for_each items store.

Definition categorizeAndStore (learnings : value) : M knowledge unit :=
  do* store_all (lit "success_patterns") learnings (storePattern (lit "success")) in
  do* store_all (lit "failure_patterns") learnings (storePattern (lit "failure")) in
  do* store_all (lit "technical_insights") learnings (storeInsight (lit "technical")) in
  do* store_all (lit "market_insights") learnings (storeInsight (lit "market")) in
  do* store_all (lit "best_practices") learnings storeBestPractice in
  store_all (lit "technology_learnings") learnings storeTechnologyLearning.

(** [existing.confidence || 1] *)
Definition confidence_or_one (c : option double) : double :=
  match c with
  | Some x => if falsy x then one else x
  | None => one
  end.

(** The body of the loop of [updatePatternStrengths] for one update. *)
Definition update_strength (update : value) : M knowledge unit :=
  let* described := lift (get update (lit "pattern")) in
  let* key := lift (generatePatternKey described) in
  let* kb := get_state in
  match patterns kb !! key with
  | Some existing =>
      let* change := lift (get update (lit "strength_change")) in
      let confidence' :=
        if strict_eq_str change (lit "increased")
        then Some (times_1_1 (confidence_or_one (pattern_confidence existing)))
        else if strict_eq_str change (lit "decreased")
        then Some (times_0_9 (confidence_or_one (pattern_confidence existing)))
        else pattern_confidence existing in
      let* timestamp := now w in
      let* proof := lift (get update (lit "evidence")) in
      let updated :=
        {| pattern := pattern existing; type := type existing;
           occurrences := occurrences existing;
           projects := projects existing;
           lastSeen := lastSeen existing;
           pattern_confidence := confidence';
           pattern_lastValidated := Some timestamp;
           evidence := Some (default [] (evidence existing) ++ [proof]) |} in
      put_state {| patterns := <[key := updated]> (patterns kb);
                   insights := insights kb; bestPractices := bestPractices kb;
                   technologies := technologies kb;
                   learningEnabled := learningEnabled kb |}
  | None => ret tt
  end.

(** [updatePatternStrengths(analysis)] *)
Definition updatePatternStrengths (analysis : value) : M knowledge unit :=
  let* list := lift (get analysis (lit "pattern_strength_updates")) in
  let* updates := lift (iterate (lit "analysis.pattern_strength_updates || []") list) in
  for_each updates update_strength.

(** [updatePatterns(project, results)] *)
Definition updatePatterns (project results : value) : M knowledge unit :=
  let* patternAnalysis := callLLM w AnalyzePatterns [project; results] in
  updatePatternStrengths patternAnalysis.

(** [storeProjectLearnings(project, results, feedback = null)] *)
Definition storeProjectLearnings (project results feedback : value) : M knowledge unit :=
  let* kb := get_state in
  if negb (learningEnabled kb) then ret tt
  else
    let* learnings := callLLM w ExtractLearnings [project; results; feedback] in
    do* categorizeAndStore learnings in
    updatePatterns project results.

(** [new Map(entries)]: later entries replace earlier ones with the same key. *)
Definition map_of {V} (entries : list (jsstring * V)) : gmap jsstring V :=
  fold_left (fun m kv => <[fst kv := snd kv]> m) entries ∅.

(** [exportKnowledge()] without its date, and [importKnowledge(knowledgeData)]
    for data of the exported shape; [None] is a field that is not there. *)
Record exported := {
  exported_patterns : option (list (jsstring * pattern_entry));
  exported_insights : option (list (jsstring * insight_entry));
  exported_bestPractices : option (list (jsstring * practice_entry));
  exported_technologies : option (list (jsstring * technology_entry))
}.

Definition importKnowledge (knowledgeData : exported) : M knowledge unit :=
  let* kb := get_state in
  put_state
    {| patterns := from_option map_of (patterns kb) (exported_patterns knowledgeData);
       insights := from_option map_of (insights kb) (exported_insights knowledgeData);
       bestPractices :=
         from_option map_of (bestPractices kb) (exported_bestPractices knowledgeData);
       technologies :=
         from_option map_of (technologies kb) (exported_technologies knowledgeData);
       learningEnabled := learningEnabled kb |}.

(** [clearKnowledge()] *)
Definition clearKnowledge : M knowledge unit :=
  let* kb := get_state in
  put_state {| patterns := ∅; insights := ∅; bestPractices := ∅; technologies := ∅;
               learningEnabled := learningEnabled kb |}.

(** *** Notions used in the statements about the knowledge base *)

(** One of the four store calls. *)
Definition store (sc : store_call) : M knowledge unit :=
  match sc with
  | StorePattern type_ item => storePattern type_ item
  | StoreInsight category_ item => storeInsight category_ item
  | StoreBestPractice item => storeBestPractice item
  | StoreTechnologyLearning item => storeTechnologyLearning item
  end.

(** The strength counters of the four maps. *)
Definition pattern_strengths (kb : knowledge) : gmap jsstring Z :=
  occurrences <$> patterns kb.
Definition insight_strengths (kb : knowledge) : gmap jsstring Z :=
  confidence <$> insights kb.
Definition practice_strengths (kb : knowledge) : gmap jsstring Z :=
  effectiveness <$> bestPractices kb.
Definition technology_strengths (kb : knowledge) : gmap jsstring Z :=
  reliability <$> technologies kb.

(** The counters of the map a store call writes to. *)
Definition strengths_for (sc : store_call) (kb : knowledge) : gmap jsstring Z :=
  match sc with
  | StorePattern _ _ => pattern_strengths kb
  | StoreInsight _ _ => insight_strengths kb
  | StoreBestPractice _ => practice_strengths kb
  | StoreTechnologyLearning _ => technology_strengths kb
  end.

Definition not_weakened (kb kb' : knowledge) : Prop :=
  no_weaker (pattern_strengths kb) (pattern_strengths kb')
  /\ no_weaker (insight_strengths kb) (insight_strengths kb')
  /\ no_weaker (practice_strengths kb) (practice_strengths kb')
  /\ no_weaker (technology_strengths kb) (technology_strengths kb').

(** The operations through which the knowledge base learns. *)
Inductive learning_step :=
| Store (sc : store_call)
| CategorizeAndStore (learnings : value)
| UpdatePatternStrengths (analysis : value)
| UpdatePatterns (project results : value)
| StoreProjectLearnings (project results feedback : value).

Definition learn (op : learning_step) : M knowledge unit :=
  match op with
  | Store sc => store sc
  | CategorizeAndStore learnings => categorizeAndStore learnings
  | UpdatePatternStrengths analysis =>
      updatePatternStrengths analysis
  | UpdatePatterns project results =>
      updatePatterns project results
  | StoreProjectLearnings project results feedback =>
      storeProjectLearnings project results feedback
  end.

Definition monotone {A} (m : M knowledge A) : Prop :=
  forall kb log, not_weakened kb (m kb log).1.2.

(** The four maps of counters are what they were. *)
Definition same_strengths (kb kb' : knowledge) : Prop :=
  pattern_strengths kb' = pattern_strengths kb
  /\ insight_strengths kb' = insight_strengths kb
  /\ practice_strengths kb' = practice_strengths kb
  /\ technology_strengths kb' = technology_strengths kb.

Definition preserving {A} (m : M knowledge A) : Prop :=
  forall kb log, same_strengths kb (m kb log).1.2.

End Store.

End KnowledgeBase.

(** ** The four stages of [llm.js]

    [interpretProject], [generateTasksAndMilestones],
    [assignTasksAndTimeline] and [generateArtifacts] each build a prompt from
    their arguments and make one completion call. Building the prompt reads
    properties, calls [map] and [join] and converts values to strings, all of
    which can throw before any request is made. The text of the prompt is not
    kept (the call records the arguments it is built from); what is kept is
    the order of these evaluations and the exception of the first that
    throws. *)

Module LLM.

Definition and_then {A B} (o : outcome A) (k : A -> outcome B) : outcome B :=
  match o with
  | Ok a => k a
  | Throw e => Throw e
  | Beyond => Beyond
  end.

(** [v.method(...)] for a method that arrays alone have; [text] is the
    source text of [v]. *)
Definition array_for (text method : jsstring) (v : value) : outcome (list value) :=
  match v with
  | VArr elems => Ok elems
  | VUndefined | VNull => Throw (type_error_reading v method)
  | _ => Throw (text ++ lit "." ++ method ++ lit " is not a function")
  end.

(** [`${v.k}`]: the property is read, then converted. *)
Definition shown (v : value) (k : jsstring) : outcome unit :=
  and_then (get v k) (fun x => and_then (to_string x) (fun _ => Ok tt)).

Fixpoint each (f : value -> outcome unit) (items : list value) : outcome unit :=
  match items with
  | [] => Ok tt
  | x :: rest => and_then (f x) (fun _ => each f rest)
  end.

(** [v.k.map((x, i) => `${i + 1}. ${x}`).join("\n")] *)
Definition numbered (text : jsstring) (v : value) (k : jsstring) : outcome unit :=
  and_then (get v k) (fun items =>
  and_then (array_for (text ++ lit "." ++ k) (lit "map") items) (fun items =>
  each (fun x => and_then (to_string x) (fun _ => Ok tt)) items)).

(** [items.join(", ")] on an array: every element but [null] and
    [undefined] is converted, as [toString] does on an array. *)
Definition joined (items : list value) : outcome unit :=
  and_then (to_string (VArr items)) (fun _ => Ok tt).

(** [v.k.join(", ")] *)
Definition listed (text : jsstring) (v : value) (k : jsstring) : outcome unit :=
  and_then (get v k) (fun items =>
  and_then (array_for (text ++ lit "." ++ k) (lit "join") items) joined).

(** [specialInstructions ? `...${specialInstructions}` : ""], after the
    default [specialInstructions = ""]. *)
Definition special_text (specialInstructions : value) : outcome unit :=
  if truthy specialInstructions
  then and_then (to_string specialInstructions) (fun _ => Ok tt)
  else Ok tt.

(** *** Whether a string converts to a number above zero

    [StringToNumber] of ECMAScript, as far as the sign of the result: white
    space is trimmed; the empty string is 0; "0x", "0o" and "0b" introduce
    unsigned integers; a decimal literal is an optional sign, "Infinity" or
    digits with an optional fraction and exponent; anything else is [NaN].
    A decimal that is not zero rounds to zero when it is at most [2^-1075]. *)
Definition is_decimal (c : N) : bool := ((48 <=? c) && (c <=? 57))%N.
Definition is_octal (c : N) : bool := ((48 <=? c) && (c <=? 55))%N.
Definition is_binary (c : N) : bool := ((c =? 48) || (c =? 49))%N.
Definition is_hex (c : N) : bool :=
  (is_decimal c || ((97 <=? c) && (c <=? 102)) || ((65 <=? c) && (c <=? 70)))%N.

Definition all_of (digit : N -> bool) (ds : jsstring) : bool :=
  match ds with
  | [] => false
  | _ :: _ => forallb digit ds
  end.

Definition positive_digits (digit : N -> bool) (ds : jsstring) : bool :=
  all_of digit ds && existsb (fun c => negb (c =? 48)%N) ds.

Fixpoint decimal_value (acc : Z) (ds : jsstring) : Z :=
  match ds with
  | [] => acc
  | d :: rest => decimal_value (10 * acc + (Z.of_N d - 48)) rest
  end.

Fixpoint span_digits (s : jsstring) : jsstring * jsstring :=
  match s with
  | [] => ([], [])
  | c :: rest =>
      if is_decimal c
      then let (ds, tail) := span_digits rest in (c :: ds, tail)
      else ([], s)
  end.

(** [mantissa * 10 ^ exponent] rounds to a double above zero. *)
Definition rounds_above_zero (mantissa exponent : Z) : bool :=
  (0 <? mantissa)
  && (if 0 <=? exponent then true else 10 ^ (- exponent) <? mantissa * 2 ^ 1075).

Definition exponent_part (mantissa : jsstring) (fraction : nat) (rest : jsstring) : bool :=
  let scaled e := rounds_above_zero (decimal_value 0 mantissa) (e - Z.of_nat fraction) in
  match rest with
  | [] => scaled 0
  | c :: signed =>
      if ((c =? 101) || (c =? 69))%N then
        match signed with
        | sign :: ds =>
            if (sign =? 43)%N then all_of is_decimal ds && scaled (decimal_value 0 ds)
            else if (sign =? 45)%N
                 then all_of is_decimal ds && scaled (- decimal_value 0 ds)
                 else all_of is_decimal signed && scaled (decimal_value 0 signed)
        | [] => false
        end
      else false
  end.

Definition unsigned_decimal (u : jsstring) : bool :=
  if jsstring_eqb u (lit "Infinity") then true
  else
    let (whole, rest) := span_digits u in
    match rest with
    | c :: after =>
        if (c =? 46)%N then
          let (fraction, tail) := span_digits after in
          match whole, fraction with
          | [], [] => false
          | _, _ => exponent_part (whole ++ fraction) (length fraction) tail
          end
        else match whole with
             | [] => false
             | _ :: _ => exponent_part whole 0 rest
             end
    | [] => match whole with
            | [] => false
            | _ :: _ => exponent_part whole 0 []
            end
    end.

Definition positive_numeral (s : jsstring) : bool :=
  match trim s with
  | c :: rest =>
      if (c =? 45)%N then false
      else if (c =? 43)%N then unsigned_decimal rest
      else
        match rest with
        | x :: ds =>
            if ((c =? 48) && ((x =? 120) || (x =? 88)))%N then positive_digits is_hex ds
            else if ((c =? 48) && ((x =? 111) || (x =? 79)))%N then positive_digits is_octal ds
            else if ((c =? 48) && ((x =? 98) || (x =? 66)))%N then positive_digits is_binary ds
            else unsigned_decimal (c :: rest)
        | [] => unsigned_decimal (c :: rest)
        end
  | [] => false
  end.

(** [v > 0]: [undefined] is [NaN] and [null] is 0; an array or an object is
    converted to a string first. *)
Definition greater_than_zero (v : value) : outcome bool :=
  match v with
  | VUndefined | VNull => Ok false
  | VBool b => Ok b
  | VNum z => Ok (0 <? z)
  | VStr s => Ok (positive_numeral s)
  | VArr _ | VObj _ => and_then (to_string v) (fun s => Ok (positive_numeral s))
  end.

(** *** The prompts *)

(** [interpretProject]: lines 60-80. *)
Definition interpret_prompt (projectIdea specialInstructions : value) : outcome unit :=
  and_then (special_text specialInstructions) (fun _ =>
  and_then (to_string projectIdea) (fun _ => Ok tt)).

(** [generateTasksAndMilestones]: lines 117-150. *)
Definition plan_prompt (interpretation : value) : outcome unit :=
  and_then (shown interpretation (lit "title")) (fun _ =>
  and_then (shown interpretation (lit "description")) (fun _ =>
  and_then (numbered (lit "interpretation") interpretation (lit "objectives")) (fun _ =>
  and_then (numbered (lit "interpretation") interpretation (lit "technical_requirements"))
    (fun _ =>
  and_then (shown interpretation (lit "estimated_duration")) (fun _ =>
  and_then (shown interpretation (lit "complexity_level")) (fun _ =>
  listed (lit "interpretation") interpretation (lit "primary_technologies"))))))).

(** One contributor: [`${c.name}: ${c.expertise.join(", ")}`]. *)
Definition contributor_line (c : value) : outcome unit :=
  and_then (shown c (lit "name")) (fun _ => listed (lit "c") c (lit "expertise")).

(** One task of a milestone (line 209). *)
Definition task_line (t : value) : outcome unit :=
  and_then (shown t (lit "id")) (fun _ =>
  and_then (shown t (lit "title")) (fun _ =>
  and_then (shown t (lit "estimated_hours")) (fun _ =>
  and_then (shown t (lit "priority")) (fun _ =>
  and_then (listed (lit "t") t (lit "required_expertise")) (fun _ =>
  shown t (lit "can_parallel")))))).

(** [m.dependencies.length > 0 ? m.dependencies.join(", ") : "None"] *)
Definition dependencies_text (m : value) : outcome unit :=
  and_then (get m (lit "dependencies")) (fun dependencies =>
  and_then (get dependencies (lit "length")) (fun length =>
  and_then (greater_than_zero length) (fun some =>
  if some then listed (lit "m") m (lit "dependencies") else Ok tt))).

(** One milestone (lines 203-209). *)
Definition milestone_text (m : value) : outcome unit :=
  and_then (shown m (lit "name")) (fun _ =>
  and_then (shown m (lit "description")) (fun _ =>
  and_then (shown m (lit "duration_weeks")) (fun _ =>
  and_then (dependencies_text m) (fun _ =>
  and_then (get m (lit "tasks")) (fun tasks =>
  and_then (array_for (lit "m.tasks") (lit "map") tasks) (each task_line)))))).

(** [assignTasksAndTimeline]: lines 198-241. *)
Definition assign_prompt (milestones contributors specialInstructions : value)
  : outcome unit :=
  and_then (array_for (lit "contributors") (lit "map") contributors) (fun cs =>
  and_then (each contributor_line cs) (fun _ =>
  and_then (get milestones (lit "milestones")) (fun planned =>
  and_then (array_for (lit "milestones.milestones") (lit "map") planned) (fun planned =>
  and_then (each milestone_text planned) (fun _ =>
  special_text specialInstructions))))).

(** [generateArtifacts]: lines 267-358. *)
Definition artifacts_prompt (interpretation projectIdea : value) : outcome unit :=
  and_then (shown interpretation (lit "title")) (fun _ =>
  and_then (shown interpretation (lit "description")) (fun _ =>
  and_then (numbered (lit "interpretation") interpretation (lit "objectives")) (fun _ =>
  and_then (numbered (lit "interpretation") interpretation (lit "technical_requirements"))
    (fun _ =>
  and_then (numbered (lit "interpretation") interpretation (lit "success_criteria"))
    (fun _ =>
  and_then (listed (lit "interpretation") interpretation (lit "primary_technologies"))
    (fun _ =>
  and_then (shown interpretation (lit "target_audience")) (fun _ =>
  and_then (shown interpretation (lit "business_value")) (fun _ =>
  and_then (to_string projectIdea) (fun _ => Ok tt))))))))).

Section Stages.
Variable w : world.

(** A stage: the prompt is built, then [callLLM] makes the request. *)
Definition stage {S} (prompt : outcome unit) (task : llm_task) (args : list value)
  : M S value :=
  do* lift prompt in callLLM w task args.

Definition interpretProject {S} (projectIdea specialInstructions : value) : M S value :=
  stage (interpret_prompt projectIdea specialInstructions)
    InterpretProject [projectIdea; specialInstructions].

Definition generateTasksAndMilestones {S} (interpretation : value) : M S value :=
  stage (plan_prompt interpretation) GenerateTasksAndMilestones [interpretation].

Definition assignTasksAndTimeline {S} (milestones contributors specialInstructions : value)
  : M S value :=
  stage (assign_prompt milestones contributors specialInstructions)
    AssignTasksAndTimeline [milestones; contributors; specialInstructions].

Definition generateArtifacts {S} (interpretation milestones assignments projectIdea : value)
  : M S value :=
  stage (artifacts_prompt interpretation projectIdea)
    GenerateArtifacts [interpretation; milestones; assignments; projectIdea].

End Stages.

End LLM.

(** ** The HTTP handler ([generate-project/route.js]) *)

Module Route.

(** What [await request.json()] gives: the parsed body, or a rejection when
    the body is not JSON. *)
Inductive request :=
| Body (v : value)
| Malformed (message : jsstring).

Record response := { status : Z; body : value }.

(** [Response.json(data, { status })]; the status is 200 when not given. *)
Definition Response_json (data : value) (code : Z) : response :=
  {| status := code; body := jsonify data |}.

(** [const { k } = body] *)
Definition destructure (v : value) (k : jsstring) : outcome value :=
  match v with
  | VUndefined =>
      Throw (lit "Cannot destructure property '" ++ k
             ++ lit "' of 'body' as it is undefined.")
  | VNull =>
      Throw (lit "Cannot destructure property '" ++ k
             ++ lit "' of 'body' as it is null.")
  | _ => get v k
  end.

(** The result of a publish step: the URL, or [null] when the step threw. *)
Definition url_of (r : reply) : value :=
  match r with
  | Resolve url => url
  | Reject _ => VNull
  end.

Definition agent_insights : value :=
  VObj [ (lit "confidence_score", VNum 85);
         (lit "web_search_performed", VBool false);
         (lit "technical_research_conducted", VBool true);
         (lit "market_analysis_performed", VBool false);
         (lit "enhancement_applied", VBool true) ].

(** The object the enhanced handler answers with on success. *)
Definition success_data
    (interpretation milestones assignments artifacts notionUrl githubUrl : value)
    (timestamp : jsstring) : value :=
  VObj [ (lit "title", get_opt interpretation (lit "title"));
         (lit "objectives", get_opt interpretation (lit "objectives"));
         (lit "scope_assumptions", get_opt interpretation (lit "scope_assumptions"));
         (lit "milestones", js_or (get_opt milestones (lit "milestones")) milestones);
         (lit "assignments", js_or (get_opt assignments (lit "assignments")) assignments);
         (lit "notion_url", notionUrl);
         (lit "github_url", githubUrl);
         (lit "paper_content", get_opt artifacts (lit "paper_draft"));
         (lit "readme_content", get_opt artifacts (lit "readme"));
         (lit "api_documentation", get_opt artifacts (lit "api_documentation"));
         (lit "deployment_guide", get_opt artifacts (lit "deployment_guide"));
         (lit "testing_strategy", get_opt artifacts (lit "testing_strategy"));
         (lit "code_structure", get_opt artifacts (lit "code_structure"));
         (lit "agent_insights", agent_insights);
         (lit "generation_type", VStr (lit "enhanced"));
         (lit "generation_timestamp", VStr timestamp);
         (lit "agent_version", VStr (lit "1.0.0")) ].

(** The object the basic handler answers with on success. *)
Definition success_data_basic
    (interpretation milestones assignments artifacts notionUrl githubUrl : value)
  : value :=
  VObj [ (lit "title", get_opt interpretation (lit "title"));
         (lit "objectives", get_opt interpretation (lit "objectives"));
         (lit "scope_assumptions", get_opt interpretation (lit "scope_assumptions"));
         (lit "milestones", get_opt milestones (lit "milestones"));
         (lit "assignments", get_opt assignments (lit "assignments"));
         (lit "notion_url", notionUrl);
         (lit "github_url", githubUrl);
         (lit "paper_content", get_opt artifacts (lit "paper_draft"));
         (lit "readme_content", get_opt artifacts (lit "readme")) ].

Section Handler.
Variable w : world.

(** The four stages, as the handlers call them. *)
Definition interpretProject := LLM.interpretProject (S:=unit) w.
Definition generateTasksAndMilestones := LLM.generateTasksAndMilestones (S:=unit) w.
Definition assignTasksAndTimeline := LLM.assignTasksAndTimeline (S:=unit) w.
Definition generateArtifacts := LLM.generateArtifacts (S:=unit) w.

(** [createNotionPage] and [createGitHubRepo]: each is one external step;
    the world says whether it returns a URL or throws. *)
Definition createNotionPage (interpretation milestones assignments : value)
  : M unit value :=
  external w (CreateNotionPage interpretation milestones assignments).

Definition createGitHubRepo (interpretation artifacts milestones : value)
  : M unit value :=
  external w (CreateGitHubRepo interpretation artifacts milestones).

Definition request_json (req : request) : M unit value :=
  match req with
  | Body v => ret v
  | Malformed message => throw message
  end.

(** [!project_idea || !project_idea.trim()] *)
Definition idea_missing (project_idea : value) : M unit bool :=
  if negb (truthy project_idea) then ret true
  else
    let* trimmed := lift (call_trim (lit "project_idea") project_idea) in
    ret (negb (truthy trimmed)).

(** [!contributors || contributors.length === 0] *)
Definition contributors_missing (contributors : value) : M unit bool :=
  if negb (truthy contributors) then ret true
  else
    let* len := lift (get contributors (lit "length")) in
    ret (strict_eq_num len 0).

(** [let url = null; try { url = await publish } catch (error) { ... }] *)
Definition attempt (publish : M unit value) : M unit value :=
  try_catch publish (fun _ => ret VNull).

(** [POST(request)] of [route.js], the enhanced handler: its [try] block,
    its [catch] block, and the two together. *)
Definition POST_try (req : request) : M unit response :=
    (let* body := request_json req in
     let* project_idea := lift (destructure body (lit "project_idea")) in
     let* special_instructions := lift (destructure body (lit "special_instructions")) in
     let* contributors := lift (destructure body (lit "contributors")) in
     let* no_idea := idea_missing project_idea in
     if no_idea then
       ret (Response_json (VObj [ (lit "error", VStr (lit "Project idea is required")) ]) 400)
     else
     let* no_contributors := contributors_missing contributors in
     if no_contributors then
       ret (Response_json
              (VObj [ (lit "error", VStr (lit "At least one contributor is required")) ]) 400)
     else
     (* Step 1 *)
     let* interpretation := interpretProject project_idea special_instructions in
     let* _ := lift (get interpretation (lit "title")) in
     (* Step 2 *)
     let* milestones := generateTasksAndMilestones interpretation in
     let* _ := lift (get milestones (lit "milestones")) in
     (* Step 3 *)
     let* assignments :=
       assignTasksAndTimeline milestones contributors special_instructions in
     let* _ := lift (get assignments (lit "assignments")) in
     (* Step 4 *)
     let* artifacts :=
       generateArtifacts interpretation milestones assignments project_idea in
     (* Step 5 *)
     let* notionUrl := attempt (createNotionPage interpretation milestones assignments) in
     (* Step 6 *)
     let* githubUrl := attempt (createGitHubRepo interpretation artifacts milestones) in
     let* timestamp := now w in
     ret (Response_json
            (success_data interpretation milestones assignments artifacts
               notionUrl githubUrl timestamp) 200)).

Definition POST_catch (message : jsstring) : M unit response :=
  let* timestamp := now w in
  ret (Response_json
         (VObj [ (lit "error",
                  js_or (VStr message) (VStr (lit "Failed to generate project")));
                 (lit "generation_type", VStr (lit "enhanced"));
                 (lit "failure_timestamp", VStr timestamp) ]) 500).

Definition POST (req : request) : M unit response :=
  try_catch (POST_try req) POST_catch.

(** [artifacts.readme?.substring(0, 200)]: only strings have the method. *)
Definition readme_preview (readme : value) : M unit unit :=
  match readme with
  | VUndefined | VNull | VStr _ => ret tt
  | _ => throw (lit "artifacts.readme?.substring is not a function")
  end.

(** [POST(request)] of the basic handler. *)
Definition POST_basic_try (req : request) : M unit response :=
    (let* body := request_json req in
     let* project_idea := lift (destructure body (lit "project_idea")) in
     let* special_instructions := lift (destructure body (lit "special_instructions")) in
     let* contributors := lift (destructure body (lit "contributors")) in
     let* no_idea := idea_missing project_idea in
     if no_idea then
       ret (Response_json (VObj [ (lit "error", VStr (lit "Project idea is required")) ]) 400)
     else
     let* no_contributors := contributors_missing contributors in
     if no_contributors then
       ret (Response_json
              (VObj [ (lit "error", VStr (lit "At least one contributor is required")) ]) 400)
     else
     (* Step 1 *)
     let* interpretation := interpretProject project_idea special_instructions in
     let* _ := lift (get interpretation (lit "title")) in
     (* Step 2 *)
     let* milestones := generateTasksAndMilestones interpretation in
     let* list := lift (get milestones (lit "milestones")) in
     let* _ := lift (get list (lit "length")) in
     (* Step 3 *)
     let* assignments :=
       assignTasksAndTimeline milestones contributors special_instructions in
     let* list := lift (get assignments (lit "assignments")) in
     let* _ := lift (get list (lit "length")) in
     (* Step 4 *)
     let* artifacts :=
       generateArtifacts interpretation milestones assignments project_idea in
     let* readme := lift (get artifacts (lit "readme")) in
     do* readme_preview readme in
     (* Step 5 *)
     let* notionUrl := attempt (createNotionPage interpretation milestones assignments) in
     (* Step 6 *)
     let* githubUrl := attempt (createGitHubRepo interpretation artifacts milestones) in
     ret (Response_json
            (success_data_basic interpretation milestones assignments artifacts
               notionUrl githubUrl) 200)).

Definition POST_basic_catch (message : jsstring) : M unit response :=
  ret (Response_json
         (VObj [ (lit "error",
                  js_or (VStr message) (VStr (lit "Failed to generate project"))) ])
         500).

Definition POST_basic (req : request) : M unit response :=
  try_catch (POST_basic_try req) POST_basic_catch.

End Handler.

(** A request body of the shape the interface declares,
    [{ project_idea?: string, special_instructions?: string,
       contributors?: [...] }]; [None] is a field that is not sent. *)
Definition field (k : jsstring) (v : option value) : list (jsstring * value) :=
  match v with
  | Some x => [(k, x)]
  | None => []
  end.

Definition body_of (project_idea special_instructions : option jsstring)
    (contributors : option (list value)) : value :=
  VObj (field (lit "project_idea") (VStr <$> project_idea)
        ++ field (lit "special_instructions") (VStr <$> special_instructions)
        ++ field (lit "contributors") (VArr <$> contributors)).

(** "absent, empty or whitespace-only" *)
Definition blank (project_idea : option jsstring) : bool :=
  match project_idea with
  | None => true
  | Some s => forallb is_whitespace s
  end.

(** "absent or empty" *)
Definition no_contributors (contributors : option (list value)) : bool :=
  match contributors with
  | None | Some [] => true
  | Some (_ :: _) => false
  end.

(** The two checks of the handlers, on the values of the fields:
    [!project_idea || !project_idea.trim()] holds for a falsy value and for a
    string of white space; on any other value that is not a string [trim] is
    not a function. [!contributors || contributors.length === 0]. *)
Definition idea_is_blank (project_idea : value) : bool :=
  negb (truthy project_idea)
  || match project_idea with
     | VStr s => forallb is_whitespace s
     | _ => false
     end.

Definition idea_is_text (project_idea : value) : bool :=
  match project_idea with
  | VStr _ => true
  | _ => false
  end.

Definition contributors_absent (contributors : value) : bool :=
  negb (truthy contributors) || strict_eq_num (get_opt contributors (lit "length")) 0.

(** "400 whenever [project_idea] is absent, empty or whitespace-only, or
    whenever the contributors list is absent or empty", read on the body as
    it is sent. *)
Definition idea_absent_or_blank (b : value) : bool :=
  match get_opt b (lit "project_idea") with
  | VUndefined => true
  | VStr s => forallb is_whitespace s
  | _ => false
  end.

Definition contributors_absent_or_empty (b : value) : bool :=
  match get_opt b (lit "contributors") with
  | VUndefined | VArr [] => true
  | _ => false
  end.

Definition invalid_requests_are_answered_400
    (handler : world -> request -> M unit response) : Prop :=
  forall (w : world) (b : value) (log : list event),
    idea_absent_or_blank b || contributors_absent_or_empty b = true ->
    exists resp log', handler w (Body b) tt log = (Ok resp, tt, log') /\ status resp = 400.

(** The response carries an [error] field holding a non-empty string. *)
Definition has_error (r : response) : Prop :=
  exists message, message <> [] /\ get (body r) (lit "error") = Ok (VStr message).

Definition is_publish (c : call) : bool :=
  match c with
  | CreateNotionPage _ _ _ | CreateGitHubRepo _ _ _ => true
  | _ => false
  end.

(** The four stages of a run answered from the [n]-th external call on, with
    the credential of the completion endpoint set. *)
Record generation (w : world) (n : nat)
    (project_idea special_instructions contributors
     interpretation milestones assignments artifacts : value) : Prop := {
  gen_key : truthy (OPENAI_API_KEY w) = true;
  gen_interpret :
    answer w n (Completion InterpretProject [project_idea; special_instructions])
    = Resolve interpretation;
  gen_plan :
    answer w (n + 1) (Completion GenerateTasksAndMilestones [interpretation])
    = Resolve milestones;
  gen_assign :
    answer w (n + 2)
      (Completion AssignTasksAndTimeline [milestones; contributors; special_instructions])
    = Resolve assignments;
  gen_artifacts :
    answer w (n + 3)
      (Completion GenerateArtifacts [interpretation; milestones; assignments; project_idea])
    = Resolve artifacts
}.

(** The external calls of a run that reaches its end: the four stages, then
    the two publish steps, each with the world's answer. *)
Definition generation_log (w : world) (n : nat)
    (project_idea special_instructions contributors
     interpretation milestones assignments artifacts : value) : list event :=
  [ (Completion InterpretProject [project_idea; special_instructions], Resolve interpretation);
    (Completion GenerateTasksAndMilestones [interpretation], Resolve milestones);
    (Completion AssignTasksAndTimeline [milestones; contributors; special_instructions],
     Resolve assignments);
    (Completion GenerateArtifacts [interpretation; milestones; assignments; project_idea],
     Resolve artifacts);
    (CreateNotionPage interpretation milestones assignments,
     answer w (n + 4) (CreateNotionPage interpretation milestones assignments));
    (CreateGitHubRepo interpretation artifacts milestones,
     answer w (n + 5) (CreateGitHubRepo interpretation artifacts milestones)) ].

(** Two worlds that differ at most in what the publish services answer. *)
Definition same_but_publish (w w' : world) : Prop :=
  (forall n c, is_publish c = false -> answer w n c = answer w' n c)
  /\ (forall n, clock w n = clock w' n)
  /\ OPENAI_API_KEY w = OPENAI_API_KEY w'
  /\ SERPER_API_KEY w = SERPER_API_KEY w'.

(** The value of an optional string field, and of an optional array field. *)
Definition idea_value (idea : option jsstring) : value :=
  match idea with Some s => VStr s | None => VUndefined end.

Definition list_value (l : option (list value)) : value :=
  match l with Some x => VArr x | None => VUndefined end.

(** The three ways the [try] block of a handler can end. *)
Definition rejected_request (req : request) (log : list event)
    (r : outcome response) (log' : list event) : Prop :=
  exists b pi co resp,
    req = Body b
    /\ destructure b (lit "project_idea") = Ok pi
    /\ destructure b (lit "contributors") = Ok co
    /\ (idea_missing pi tt log = (Ok true, tt, log)
        \/ contributors_missing co tt log = (Ok true, tt, log))
    /\ r = Ok resp /\ status resp = 400 /\ has_error resp /\ log' = log.

(** The request passes the two checks of the handler with these three
    fields. *)
Definition accepted (req : request) (log : list event) (pi si co : value) : Prop :=
  exists b,
    req = Body b
    /\ destructure b (lit "project_idea") = Ok pi
    /\ destructure b (lit "special_instructions") = Ok si
    /\ destructure b (lit "contributors") = Ok co
    /\ idea_missing pi tt log = (Ok false, tt, log)
    /\ contributors_missing co tt log = (Ok false, tt, log).

(** The four prompts can be built from the request and the answers of the
    stages before. *)
Definition buildable (pi si co i m : value) : Prop :=
  LLM.interpret_prompt pi si = Ok tt
  /\ LLM.plan_prompt i = Ok tt
  /\ LLM.assign_prompt m co si = Ok tt
  /\ LLM.artifacts_prompt i pi = Ok tt.

(** The response of a run that went through: the four stages were called in
    order with the fields of the request and with each other's answers, the
    two publish steps were attempted, and the body is built from these
    answers. *)
Definition aggregated
    (data : value -> value -> value -> value -> value -> value -> jsstring -> value)
    (w : world) (b : value) (log : list event) (resp : response) (log' : list event)
  : Prop :=
  let pi := get_opt b (lit "project_idea") in
  let si := get_opt b (lit "special_instructions") in
  let co := get_opt b (lit "contributors") in
  exists i m a art,
    generation w (length log) pi si co i m a art
    /\ buildable pi si co i m
    /\ log' = log ++ generation_log w (length log) pi si co i m a art
    /\ resp = Response_json
                (data i m a art
                   (url_of (answer w (length log + 4) (CreateNotionPage i m a)))
                   (url_of (answer w (length log + 5) (CreateGitHubRepo i art m)))
                   (clock w (length log + 6))) 200.

(** The [try] block ends with the answer on success, here and in every
    world that gives the four stages the same answers. *)
Definition completes (try_block : world -> request -> M unit response)
    (data : value -> value -> value -> value -> value -> value -> jsstring -> value)
    (w : world) (req : request) (log : list event)
    (r : outcome response) (log' : list event) : Prop :=
  exists pi si co i m a art,
    accepted req log pi si co
    /\ buildable pi si co i m
    /\ generation w (length log) pi si co i m a art
    /\ log' = log ++ generation_log w (length log) pi si co i m a art
    /\ forall w' : world,
         generation w' (length log) pi si co i m a art ->
         try_block w' req tt log
         = (Ok (Response_json
                  (data i m a art
                     (url_of (answer w' (length log + 4) (CreateNotionPage i m a)))
                     (url_of (answer w' (length log + 5) (CreateGitHubRepo i art m)))
                     (clock w' (length log + 6))) 200),
            tt, log ++ generation_log w' (length log) pi si co i m a art).

(** A world for the examples: every stage answers with a small plan that has
    the fields the next stages read; the two publish services answer as
    given. *)
Definition happy_world (notion github : reply) : world :=
  {| answer := fun _ c =>
       match c with
       | Completion InterpretProject _ =>
           Resolve (VObj [ (lit "title", VStr (lit "Todo app"));
                           (lit "objectives", VArr [VStr (lit "Track tasks")]);
                           (lit "scope_assumptions", VArr []);
                           (lit "technical_requirements",
                            VArr [VStr (lit "Runs in a browser")]);
                           (lit "success_criteria", VArr [VStr (lit "Tasks persist")]);
                           (lit "primary_technologies", VArr [VStr (lit "React")]) ])
       | Completion GenerateTasksAndMilestones _ =>
           Resolve (VObj [ (lit "milestones",
                            VArr [VObj [ (lit "name", VStr (lit "Setup"));
                                         (lit "dependencies", VArr []);
                                         (lit "tasks",
                                          VArr [VObj [ (lit "id", VStr (lit "T001"));
                                                       (lit "required_expertise",
                                                        VArr [VStr (lit "DevOps")]) ]]) ]]) ])
       | Completion AssignTasksAndTimeline _ =>
           Resolve (VObj [ (lit "assignments",
                            VArr [VObj [ (lit "task_id", VStr (lit "T001"));
                                         (lit "assigned_to", VStr (lit "A")) ]]) ])
       | Completion GenerateArtifacts _ =>
           Resolve (VObj [ (lit "readme", VStr (lit "# Todo app"));
                           (lit "paper_draft", VStr (lit "Abstract")) ])
       | CreateNotionPage _ _ _ => notion
       | CreateGitHubRepo _ _ _ => github
       | _ => Reject (lit "fetch failed")
       end;
     clock := fun _ => lit "2024-01-01T00:00:00.000Z";
     SERPER_API_KEY := VUndefined;
     OPENAI_API_KEY := VStr (lit "openai-key") |}.

(** A request whose idea is a number and whose list of contributors is
    empty. *)
Definition numeric_idea : value :=
  VObj [ (lit "project_idea", VNum 5); (lit "contributors", VArr []) ].

Definition todo_request : request :=
  Body (body_of (Some (lit "Build a todo app")) None
          (Some [VObj [ (lit "name", VStr (lit "A")); (lit "expertise", VArr []) ]])).

Definition published : world :=
  happy_world (Resolve (VStr (lit "https://notion.so/page")))
              (Resolve (VStr (lit "https://github.com/org/repo"))).

Definition unpublished : world :=
  happy_world (Reject (lit "NOTION_API_KEY or NOTION_PARENT_PAGE_ID not configured"))
              (Reject (lit "GITHUB_TOKEN not configured")).

End Route.

(** ** Orchestrator: execution log and confidence score
    ([orchestrator.js], [log] and [calculateConfidenceScore]) *)

Module Orchestrator.

(** [log(message)]: push the line "[<timestamp>] <message>". *)
Definition log (timestamp message : jsstring) (executionLog : list jsstring)
  : list jsstring :=
  executionLog ++ [lit "[" ++ timestamp ++ lit "] " ++ message].

Record factors := {
  researchDepth : Z;
  validationChecks : Z;
  enhancementSteps : Z
}.

Definition count_factors (executionLog : list jsstring) : factors :=
  {| researchDepth :=
       Z.of_nat (length (List.filter (fun log => includes log (lit "research")) executionLog));
     validationChecks :=
       Z.of_nat (length (List.filter (fun log => includes log (lit "validation")) executionLog));
     enhancementSteps :=
       Z.of_nat (length (List.filter (fun log => includes log (lit "enhancement")) executionLog)) |}.

Definition calculateConfidenceScore (executionLog : list jsstring) : Z :=
  let factors := count_factors executionLog in
  let score :=
    Z.min 100 (researchDepth factors * 20 + validationChecks factors * 25
               + enhancementSteps factors * 15) in
  score.

End Orchestrator.

(** An execution log for the examples: two of the orchestrator's lines. *)
Definition sample_log : list jsstring :=
  Orchestrator.log (lit "2024-01-01T00:00:01.000Z")
    (lit "Starting continuous improvement validation")
    (Orchestrator.log (lit "2024-01-01T00:00:00.000Z")
       (lit "Starting autonomous research phase") []).

(** Relational reading of "the number of log lines that contain [sub]". *)
Inductive counts_lines (sub : jsstring) : list jsstring -> nat -> Prop :=
| cl_nil : counts_lines sub [] 0
| cl_hit line rest n :
    contains sub line -> counts_lines sub rest n ->
    counts_lines sub (line :: rest) (S n)
| cl_miss line rest n :
    ~ contains sub line -> counts_lines sub rest n ->
    counts_lines sub (line :: rest) n.

(** ** Notions used in the statements *)

(** The computation never leaves the modelled fragment. *)
Definition settled {S A} (m : M S A) : Prop :=
  forall s log, (m s log).1.1 <> Beyond.

(** The computation leaves the state of its object as it found it. *)
Definition keeps_state {S A} (m : M S A) : Prop :=
  forall s log, (m s log).1.2 = s.

(** *** Web search agent *)

(** Caches an agent can have in a world: empty when the agent is created,
    then changed by its methods only. *)
Inductive reachable (w : world) : WebSearchAgent.cache -> Prop :=
| reachable_fresh : reachable w ∅
| reachable_search query options c log r c' log' :
    reachable w c ->
    WebSearchAgent.search w query options c log = (r, c', log') ->
    reachable w c'
| reachable_batch queries c log r c' log' :
    reachable w c ->
    WebSearchAgent.searchMultipleQueries w queries c log = (r, c', log') ->
    reachable w c'
| reachable_clear c : reachable w c -> reachable w ∅.

(** Every cached response is the "unavailable" record. *)
Definition degraded (c : WebSearchAgent.cache) : Prop :=
  forall key r, c !! key = Some r -> exists query, r = WebSearchAgent.unavailable query.

(** C7 as the specification words it: whatever a completed call returned is
    what the next call with the same arguments returns, with no further
    external call. *)
Definition every_completed_search_is_cached : Prop :=
  forall w query options c log r c1 log1,
    WebSearchAgent.search w query options c log = (Ok r, c1, log1) ->
    WebSearchAgent.search w query options c1 log1 = (Ok r, c1, log1).

(** The entry of one query in the result of a batch that started with the
    cache [c0]: the cached response, or what the [try] block of [search]
    returned, or the failure record for the exception it threw. *)
Inductive entry_of (w : world) (c0 : WebSearchAgent.cache) (query r : value) : Prop :=
| entry_cached key :
    WebSearchAgent.cacheKey query VUndefined = Ok key ->
    c0 !! key = Some r ->
    entry_of w c0 query r
| entry_normal key c log c' log' :
    WebSearchAgent.cacheKey query VUndefined = Ok key ->
    c0 !! key = None ->
    WebSearchAgent.search_body w key query (VObj []) c log = (Ok r, c', log') ->
    entry_of w c0 query r
| entry_failed key c log message c' log' :
    WebSearchAgent.cacheKey query VUndefined = Ok key ->
    c0 !! key = None ->
    WebSearchAgent.search_body w key query (VObj []) c log = (Throw message, c', log') ->
    r = WebSearchAgent.failed query message ->
    entry_of w c0 query r.

(** A world for the examples: the provider rejects the query "b" and answers
    every other query with one hit; analyses succeed; the synthesis call is
    answered as [synthesis] says. *)
Definition one_hit : value :=
  VObj [ (lit "organic",
          VArr [ VObj [ (lit "title", VStr (lit "A result"));
                        (lit "snippet", VStr (lit "text"));
                        (lit "link", VStr (lit "https://example.org")) ] ]) ].

Definition flaky_world (synthesis : reply) : world :=
  {| answer := fun _ c =>
       match c with
       | SerperSearch (VStr q) _ _ _ =>
           if jsstring_eqb q (lit "b") then Reject (lit "Serper API error: 500")
           else Resolve one_hit
       | Completion AnalyzeSearchResults _ =>
           Resolve (VObj [ (lit "summary", VStr (lit "ok")) ])
       | Completion SynthesizeMultipleSearches _ => synthesis
       | _ => Reject (lit "fetch failed")
       end;
     clock := fun _ => lit "2024-01-01T00:00:00.000Z";
     SERPER_API_KEY := VStr (lit "serper-key");
     OPENAI_API_KEY := VStr (lit "openai-key") |}.

(** A provider that always finds the same hit, and an analysis that differs
    from one request to the next. *)
Definition drifting_world : world :=
  {| answer := fun n c =>
       match c with
       | SerperSearch _ _ _ _ => Resolve one_hit
       | Completion AnalyzeSearchResults _ =>
           Resolve (VObj [ (lit "summary", VNum (Z.of_nat n)) ])
       | _ => Reject (lit "fetch failed")
       end;
     clock := fun _ => lit "2024-01-01T00:00:00.000Z";
     SERPER_API_KEY := VStr (lit "serper-key");
     OPENAI_API_KEY := VStr (lit "openai-key") |}.

Definition three_queries : value :=
  VArr [ VStr (lit "a"); VStr (lit "b"); VStr (lit "c") ].

(** The arithmetic mean of the scores, rounded to the nearest integer (halves
    up), computed in the rationals. *)
Definition total (scores : list Z) : Z := fold_right Z.add 0 scores.

Definition rounded_mean (scores : list Z) : Z :=
  Qfloor (inject_Z (total scores) / inject_Z (Z.of_nat (length scores)) + (1 # 2))%Q.

(** The checks of criteria among the events of a run, in order: the method
    that was asked, its arguments and the answer. *)
Definition is_check (c : call) : bool :=
  match c with
  | Completion (Validate _) _ => true
  | _ => false
  end.

Definition criterion_checks (log : list event)
  : list (validation_method * list value * reply) :=
  flat_map (fun ev : event =>
              match ev.1 with
              | Completion (Validate method) args => [(method, args, ev.2)]
              | _ => []
              end) log.

(** The result recorded under a criterion is what the check answered: the
    check is the method of that criterion, asked about the project. *)
Definition answers_criterion (project : value) (kv : jsstring * value)
    (check : validation_method * list value * reply) : Prop :=
  ValidationAgent.dispatch kv.1 = Some check.1.1
  /\ head check.1.2 = Some project
  /\ check.2 = Resolve kv.2.

(** Eight scores whose mean is 74.5 in decimals: 1.7 and seven times 84.9. *)
Definition near_threshold_scores : list Double.number :=
  map Double.tenths [17; 849; 849; 849; 849; 849; 849; 849].

(** Eight scores of 74.6. *)
Definition fractional_scores : list Double.number := repeat (Double.tenths 746) 8.

(** *** Agents

    The external calls [search] makes inside its [try] block. *)
Definition caught_by_search (c : call) : bool :=
  match c with
  | SerperSearch _ _ _ _ | Completion AnalyzeSearchResults _ => true
  | _ => false
  end.

(** Every rejected external call of the run, other than those of a search,
    is what the run itself rejects with. *)
Definition propagates {S A} (m : M S A) : Prop :=
  forall s log r s' log',
    m s log = (r, s', log') ->
    exists new,
      log' = log ++ new
      /\ forall c e, In (c, Reject e) new -> caught_by_search c = false -> r = Throw e.

(** The run makes no external call other than those of a search. *)
Definition contained {S A} (m : M S A) : Prop :=
  forall s log r s' log',
    m s log = (r, s', log') ->
    exists new,
      log' = log ++ new
      /\ forall c x, In (c, x) new -> caught_by_search c = true.

(** The completion calls the research agent makes for one topic. *)
Definition topic_tasks : list llm_task :=
  [ PlanResearchStrategy; PerformTechnicalAnalysis; PerformMarketAnalysis;
    PerformRiskAnalysis; SynthesizeTopicFindings ].

(** Eight per-criterion results that all report the same score. *)
Definition uniform_results (score : Z) : list (jsstring * value) :=
  map (fun criterion => (criterion, VObj [ (lit "score", VNum score) ]))
      ValidationAgent.validationCriteria.

(** Worlds for the examples: every criterion is scored [score], except that
    the completion call of [failing] (if any) is rejected. *)
Definition same_method (a b : validation_method) : bool :=
  match a, b with
  | TechnicalFeasibility, TechnicalFeasibility | MarketViability, MarketViability
  | ResourceAdequacy, ResourceAdequacy | TimelineRealism, TimelineRealism
  | RiskAssessment, RiskAssessment | CompletenessCheck, CompletenessCheck
  | QualityStandards, QualityStandards
  | BestPracticesCompliance, BestPracticesCompliance
  | GenericValidation, GenericValidation => true
  | _, _ => false
  end.

Definition scored_world (score : Z) (failing : option validation_method) : world :=
  {| answer := fun _ c =>
       match c with
       | Completion (Validate method) _ =>
           match failing with
           | Some bad =>
               if same_method method bad then Reject (lit "OpenAI API error: 429")
               else Resolve (VObj [ (lit "score", VNum score) ])
           | None => Resolve (VObj [ (lit "score", VNum score) ])
           end
       | Completion PlanResearchStrategy [VStr topic] =>
           if jsstring_eqb topic (lit "security")
           then Reject (lit "OpenAI API error: 429")
           else Resolve (VObj [ (lit "technicalAnalysisNeeded", VBool true) ])
       | Completion _ _ => Resolve (VObj [ (lit "summary", VStr (lit "ok")) ])
       | _ => Reject (lit "fetch failed")
       end;
     clock := fun _ => lit "2024-01-01T00:00:00.000Z";
     SERPER_API_KEY := VUndefined;
     OPENAI_API_KEY := VStr (lit "openai-key") |}.

(** Reading off the parts of a finished run. *)
Definition resolves {A} (o : outcome A) : bool :=
  match o with Ok _ => true | _ => false end.

Definition resolution (o : outcome value) : value :=
  match o with Ok v => v | _ => VUndefined end.

(** A rejected completion call whose task satisfies [p]. *)
Definition rejected_call (p : llm_task -> bool) (ev : event) : bool :=
  match ev with
  | (Completion task _, Reject _) => p task
  | _ => false
  end.

Definition is_market_viability (task : llm_task) : bool :=
  match task with Validate MarketViability => true | _ => false end.

Definition is_strategy (task : llm_task) : bool :=
  match task with PlanResearchStrategy => true | _ => false end.

Definition sample_project : value := VObj [ (lit "title", VStr (lit "Todo app")) ].

Definition sample_topics : value := VArr [ VStr (lit "market"); VStr (lit "security") ].

(** For the examples of the knowledge base the doubles are rationals. *)
Definition sample_pattern : value := VStr (lit "Ship small increments").

Definition sample_store : KnowledgeBase.store_call :=
  KnowledgeBase.StorePattern (lit "success") sample_pattern.

Definition sample_key : jsstring :=
  match KnowledgeBase.store_key sample_store with Ok key => key | _ => [] end.

(** The pattern stored twice, from an empty knowledge base. *)
Definition stored_twice : KnowledgeBase.knowledge (double:=Q) :=
  let store := KnowledgeBase.store (scored_world 80 None) sample_store in
  ((do* store in store) KnowledgeBase.empty_knowledge []).1.2.

(** Knowledge data that records the pattern as seen once. *)
Definition seen_once : KnowledgeBase.exported (double:=Q) :=
  {| KnowledgeBase.exported_patterns :=
       Some [ (sample_key,
               {| KnowledgeBase.pattern := sample_pattern;
                  KnowledgeBase.type := lit "success";
                  KnowledgeBase.occurrences := 1;
                  KnowledgeBase.projects := [];
                  KnowledgeBase.lastSeen := Some (lit "2024-01-01T00:00:00.000Z");
                  KnowledgeBase.pattern_confidence := None;
                  KnowledgeBase.pattern_lastValidated := None;
                  KnowledgeBase.evidence := None |}) ];
     KnowledgeBase.exported_insights := None;
     KnowledgeBase.exported_bestPractices := None;
     KnowledgeBase.exported_technologies := None |}.

(** ** Notions and examples for the further properties *)

(** The four fields [analyzeSearchResults] keeps of one provider result. *)
Definition kept_of (item result : value) : Prop :=
  exists title snippet link date,
    get item (lit "title") = Ok title
    /\ get item (lit "snippet") = Ok snippet
    /\ get item (lit "link") = Ok link
    /\ get item (lit "date") = Ok date
    /\ result = VObj [ (lit "title", title); (lit "snippet", snippet);
                       (lit "url", link); (lit "date", date) ].

(** A provider answer with seven hits, for the examples. *)
Definition seven_hits : value :=
  VObj [ (lit "organic",
          VArr (map (fun n => VObj [ (lit "title", VStr (lit "hit"));
                                     (lit "position", VNum n) ])
                    [1; 2; 3; 4; 5; 6; 7])) ].

(** Every external call the run makes is one of the [allowed] ones. *)
Definition calls_only {S A} (allowed : call -> bool) (m : M S A) : Prop :=
  forall s log r s' log',
    m s log = (r, s', log') ->
    exists new, log' = log ++ new /\ Forall (fun ev : event => allowed ev.1 = true) new.

(** The external calls of the validation agent: those of its searches, the
    eight specific validation prompts, the improvement suggestions and the
    report. *)
Definition validation_call (c : call) : bool :=
  match c with
  | SerperSearch _ _ _ _ => true
  | Completion AnalyzeSearchResults _ | Completion SynthesizeMultipleSearches _ => true
  | Completion (Validate GenericValidation) _ => false
  | Completion (Validate _) _ => true
  | Completion GenerateImprovementSuggestions _ => true
  | Completion GenerateValidationReport _ => true
  | _ => false
  end.

Definition is_suggestions (c : call) : bool :=
  match c with
  | Completion GenerateImprovementSuggestions _ => true
  | _ => false
  end.

(** The calls of the validation agent before the suggestions and the report. *)
Definition criterion_call (c : call) : bool :=
  validation_call c
  && match c with
     | Completion GenerateImprovementSuggestions _
     | Completion GenerateValidationReport _ => false
     | _ => true
     end.

(** The four optional analyses of [researchTopic], by the flag of the
    strategy that asks for each. *)
Definition analyses : list (jsstring * jsstring) :=
  [ (lit "webSearchNeeded", lit "webResearch");
    (lit "technicalAnalysisNeeded", lit "technicalAnalysis");
    (lit "marketAnalysisNeeded", lit "marketAnalysis");
    (lit "riskAnalysisNeeded", lit "riskAnalysis") ].

Definition analyses_asked (researchStrategy : value) : list jsstring :=
  flat_map (fun '(flag, name) =>
              if truthy (get_opt researchStrategy flag) then [name] else [])
           analyses.

(** A world whose research strategy asks for the technical and the risk
    analysis, for the examples. *)
Definition strategy_world : world :=
  {| answer := fun _ c =>
       match c with
       | Completion PlanResearchStrategy _ =>
           Resolve (VObj [ (lit "technicalAnalysisNeeded", VBool true);
                           (lit "riskAnalysisNeeded", VBool true) ])
       | Completion _ _ => Resolve (VObj [ (lit "summary", VStr (lit "ok")) ])
       | _ => Reject (lit "fetch failed")
       end;
     clock := fun _ => lit "2024-01-01T00:00:00.000Z";
     SERPER_API_KEY := VUndefined;
     OPENAI_API_KEY := VStr (lit "openai-key") |}.

(** A research result whose [findings] can be read, as [researchTopic]
    returns them. *)
Definition has_findings (results : value) : Prop :=
  exists findings,
    get results (lit "findings") = Ok findings
    /\ findings <> VUndefined /\ findings <> VNull.

(** Reading a base-36 numeral back, digits 0-9 and a-z. *)
Definition is_base36 (d : N) : bool :=
  (((48 <=? d) && (d <=? 57)) || ((97 <=? d) && (d <=? 122)))%N.

Definition digit36_value (d : N) : Z :=
  if (d <? 58)%N then Z.of_N d - 48 else Z.of_N d - 87.

Definition from_base36 (s : jsstring) : Z :=
  fold_left (fun acc d => 36 * acc + digit36_value d) s 0.

(** The strength a fresh entry has after the store that creates it. *)
Definition first_strength (sc : KnowledgeBase.store_call) : Z :=
  match sc with
  | KnowledgeBase.StorePattern _ _ => 1
  | _ => 2
  end.

(** [exportKnowledge()] lists the entries of each of the four maps, every
    entry once, in the order in which the keys were first set. The maps here
    do not record that order, so the export is given up to the order of the
    entries ([exportDate] is left out). *)
Definition exports {double : Type} (kb : KnowledgeBase.knowledge (double:=double))
    (data : KnowledgeBase.exported (double:=double)) : Prop :=
  (exists l, KnowledgeBase.exported_patterns data = Some l
             /\ l ≡ₚ map_to_list (KnowledgeBase.patterns kb))
  /\ (exists l, KnowledgeBase.exported_insights data = Some l
                /\ l ≡ₚ map_to_list (KnowledgeBase.insights kb))
  /\ (exists l, KnowledgeBase.exported_bestPractices data = Some l
                /\ l ≡ₚ map_to_list (KnowledgeBase.bestPractices kb))
  /\ (exists l, KnowledgeBase.exported_technologies data = Some l
                /\ l ≡ₚ map_to_list (KnowledgeBase.technologies kb)).

(** The key of a store call, for the examples. *)
Definition resolution_key (o : outcome jsstring) : jsstring :=
  match o with Ok key => key | _ => [] end.

(** Any call but the two publish calls. *)
Definition not_publish (c : call) : bool := negb (Route.is_publish c).

(** The run makes no publish call unless it ends in a result that is [complete]. *)
Definition publishes_only_when {S A} (complete : A -> Prop) (m : M S A) : Prop :=
  forall s log r s' log',
    m s log = (r, s', log') ->
    exists new,
      log' = log ++ new
      /\ ((exists a, r = Ok a /\ complete a)
          \/ Forall (fun ev : event => not_publish ev.1 = true) new).

(** A value whose properties can be read. *)
Definition readable (v : value) : Prop := v <> VUndefined /\ v <> VNull.

(** A plan whose milestones are not under [milestones], for the examples:
    the handler is answered with the list itself. *)
Definition bare_list_world : world :=
  {| answer := fun _ c =>
       match c with
       | Completion InterpretProject _ =>
           Resolve (VObj [ (lit "title", VStr (lit "Todo app")) ])
       | Completion GenerateTasksAndMilestones _ =>
           Resolve (VArr [ VObj [ (lit "name", VStr (lit "Setup")) ] ])
       | Completion AssignTasksAndTimeline _ =>
           Resolve (VObj [ (lit "assignments", VArr []) ])
       | Completion GenerateArtifacts _ =>
           Resolve (VObj [ (lit "readme", VStr (lit "# Todo app")) ])
       | _ => Reject (lit "not configured")
       end;
     clock := fun _ => lit "2024-01-01T00:00:00.000Z";
     SERPER_API_KEY := VUndefined;
     OPENAI_API_KEY := VStr (lit "openai-key") |}.

(** The same plan after an interpretation that has the lists the second
    prompt reads. *)
Definition listless_world : world :=
  {| answer := fun _ c =>
       match c with
       | Completion InterpretProject _ =>
           Resolve (VObj [ (lit "title", VStr (lit "Todo app"));
                           (lit "objectives", VArr [VStr (lit "Track tasks")]);
                           (lit "technical_requirements",
                            VArr [VStr (lit "Runs in a browser")]);
                           (lit "primary_technologies", VArr [VStr (lit "React")]) ])
       | Completion GenerateTasksAndMilestones _ =>
           Resolve (VArr [ VObj [ (lit "name", VStr (lit "Setup")) ] ])
       | Completion AssignTasksAndTimeline _ =>
           Resolve (VObj [ (lit "assignments", VArr []) ])
       | Completion GenerateArtifacts _ =>
           Resolve (VObj [ (lit "readme", VStr (lit "# Todo app")) ])
       | _ => Reject (lit "not configured")
       end;
     clock := fun _ => lit "2024-01-01T00:00:00.000Z";
     SERPER_API_KEY := VUndefined;
     OPENAI_API_KEY := VStr (lit "openai-key") |}.

(** The response of a handler run that resolved. *)
Definition answered (o : outcome Route.response) : Route.response :=
  match o with
  | Ok resp => resp
  | _ => {| Route.status := 0; Route.body := VUndefined |}
  end.

(** The characters of what [toISOString] returns: digits, "-", ":", ".", "T",
    "Z" and, for years beyond 9999, "+". *)
Definition iso_char (c : N) : bool :=
  (((0x30 <=? c) && (c <=? 0x39))
   || (c =? 0x2D) || (c =? 0x3A) || (c =? 0x2E) || (c =? 0x54) || (c =? 0x5A)
   || (c =? 0x2B))%N.

(** The three words the confidence score counts. *)
Definition counted_words : list jsstring :=
  [ lit "research"; lit "validation"; lit "enhancement" ].

(** ** Notion integration ([createNotionPage])

    The handlers above took [createNotionPage] as one external step. Here is
    the function itself. It makes two kinds of request: one that creates the
    page, then one per chunk of content blocks. What the service answers is
    read from an oracle; the requests made are recorded in order. *)

Module Notion.

(** What [fetch] and the reading of the response come to: the response is
    [ok] and its body parsed, it is not [ok] and its text read, or one of the
    two promises rejected. *)
Inductive reply :=
| Accepted (body : value)
| Refused (text : jsstring)
| Failed (message : jsstring).

(** The two requests: the one that creates the page, with the parent's id
    and the title of its body, and the one that appends [children] to the
    page whose id is in the address. The headers are the same in every
    request and are left out. *)
Inductive request :=
| CreatePage (parent title : value)
| AppendChildren (pageId : jsstring) (children : list value).

Record service := {
  NOTION_API_KEY : value;
  NOTION_PARENT_PAGE_ID : value;
  (** the answer to the [n]-th request of the run *)
  respond : nat -> request -> reply
}.

(** A block of the given type holding one piece of text. *)
Definition block (type_ : jsstring) (content : value) : value :=
  VObj [ (lit "object", VStr (lit "block"));
         (lit "type", VStr type_);
         (type_,
          VObj [ (lit "rich_text",
                  VArr [ VObj [ (lit "text", VObj [ (lit "content", content) ]) ] ]) ]) ].

Definition heading_2 (text : jsstring) : value := block (lit "heading_2") (VStr text).
Definition heading_3 (content : value) : value := block (lit "heading_3") content.
Definition bulleted_list_item (content : value) : value :=
  block (lit "bulleted_list_item") content.

(** [v.method(...)] for a method that arrays alone have; [text] is the source
    text of [v]. *)
Definition array_of (text method : jsstring) (v : value) : outcome (list value) :=
  match v with
  | VArr elems => Ok elems
  | VUndefined | VNull => Throw (type_error_reading v method)
  | _ => Throw (text ++ lit "." ++ method ++ lit " is not a function")
  end.

(** [a === b]. Two objects or two arrays are equal when they are the same
    object, which the values here do not tell: that case is not modelled. *)
Definition strict_eq (a b : value) : outcome bool :=
  match a, b with
  | VUndefined, VUndefined | VNull, VNull => Ok true
  | VBool x, VBool y => Ok (eqb x y)
  | VNum x, VNum y => Ok (x =? y)
  | VStr x, VStr y => Ok (jsstring_eqb x y)
  | VArr _, VArr _ | VArr _, VObj _ | VObj _, VArr _ | VObj _, VObj _ => Beyond
  | _, _ => Ok false
  end.

(** [list.find(a => a.task_id === id)]; [id] is read anew at every element. *)
Fixpoint find_assignment (entries : list value) (task : value) : outcome value :=
  match entries with
  | [] => Ok VUndefined
  | a :: rest =>
      match get a (lit "task_id") with
      | Ok task_id =>
          match get task (lit "id") with
          | Ok id =>
              match strict_eq task_id id with
              | Ok true => Ok a
              | Ok false => find_assignment rest task
              | Throw e => Throw e
              | Beyond => Beyond
              end
          | Throw e => Throw e
          | Beyond => Beyond
          end
      | Throw e => Throw e
      | Beyond => Beyond
      end
  end.

(** A small error monad for the part of the function that builds blocks. *)
Definition and_then {A B} (o : outcome A) (k : A -> outcome B) : outcome B :=
  match o with
  | Ok a => k a
  | Throw e => Throw e
  | Beyond => Beyond
  end.

(** The block of one task. *)
Definition task_block (assignments task : value) : outcome value :=
  and_then (get assignments (lit "assignments")) (fun entries =>
  and_then (array_of (lit "assignments.assignments") (lit "find") entries) (fun entries =>
  and_then (find_assignment entries task) (fun assignment =>
  and_then (if truthy assignment then get assignment (lit "assigned_to")
            else Ok (VStr (lit "Unassigned"))) (fun assignedTo =>
  and_then (if truthy assignment then get assignment (lit "timeframe")
            else Ok (VStr (lit "TBD"))) (fun timeframe =>
  and_then (get task (lit "description")) (fun description =>
  and_then (to_string description) (fun description =>
  and_then (to_string assignedTo) (fun assignedTo =>
  and_then (to_string timeframe) (fun timeframe =>
  Ok (bulleted_list_item
        (VStr (description ++ lit " | Assigned: " ++ assignedTo
               ++ lit " | " ++ timeframe)))))))))))).

(** [list.forEach(x => { ... blocks.push(...) ... })]: the blocks each element
    adds, in order; the first exception ends the loop. *)
Fixpoint each {A} (f : A -> outcome (list value)) (items : list A)
  : outcome (list value) :=
  match items with
  | [] => Ok []
  | x :: rest =>
      and_then (f x) (fun blocks =>
      and_then (each f rest) (fun more => Ok (blocks ++ more)))
  end.

(** The blocks of one milestone: its heading, then one block per task. *)
Definition milestone_blocks (assignments milestone : value) : outcome (list value) :=
  and_then (get milestone (lit "name")) (fun name =>
  and_then (get milestone (lit "tasks")) (fun tasks =>
  and_then (array_of (lit "milestone.tasks") (lit "forEach") tasks) (fun tasks =>
  and_then (each (fun task => and_then (task_block assignments task)
                                 (fun b => Ok [b])) tasks) (fun blocks =>
  Ok (heading_3 name :: blocks))))).

(** The content blocks of the page. *)
Definition content_blocks (interpretation milestones assignments : value)
  : outcome (list value) :=
  and_then (get interpretation (lit "objectives")) (fun objectives =>
  and_then (array_of (lit "interpretation.objectives") (lit "forEach") objectives)
    (fun objectives =>
  and_then (get interpretation (lit "scope_assumptions")) (fun assumptions =>
  and_then (array_of (lit "interpretation.scope_assumptions") (lit "forEach") assumptions)
    (fun assumptions =>
  and_then (get milestones (lit "milestones")) (fun planned =>
  and_then (array_of (lit "milestones.milestones") (lit "forEach") planned) (fun planned =>
  and_then (each (milestone_blocks assignments) planned) (fun planned =>
  Ok ([heading_2 (lit "Objectives")] ++ map bulleted_list_item objectives
      ++ [heading_2 (lit "Scope Assumptions")] ++ map bulleted_list_item assumptions
      ++ [heading_2 (lit "Milestones & Tasks")] ++ planned)))))))).

Definition chunkSize : nat := 100.

(** [for (let i = 0; i < blocks.length; i += chunkSize)
       { const chunk = blocks.slice(i, i + chunkSize); ... }]:
    the chunks, in order. The loop runs at most [blocks.length] times, which
    is the fuel given to it. *)
Fixpoint chunks_from (fuel i : nat) (blocks : list value) : option (list (list value)) :=
  if (i <? length blocks)%nat then
    match fuel with
    | O => None
    | S fuel' =>
        match chunks_from fuel' (i + chunkSize) blocks with
        | Some rest => Some (firstn chunkSize (skipn i blocks) :: rest)
        | None => None
        end
    end
  else Some [].

Definition chunks (blocks : list value) : option (list (list value)) :=
  chunks_from (length blocks) 0 blocks.

(** A run: how it ends, and the requests it made. *)
Definition run (A : Type) : Type := list request -> outcome A * list request.

Definition done {A} (o : outcome A) : run A := fun sent => (o, sent).

Definition send (s : service) (r : request) : run reply :=
  fun sent => (Ok (respond s (length sent) r), sent ++ [r]).

Definition next {A B} (m : run A) (k : A -> run B) : run B :=
  fun sent =>
    match m sent with
    | (Ok a, sent') => k a sent'
    | (Throw e, sent') => (Throw e, sent')
    | (Beyond, sent') => (Beyond, sent')
    end.

(** The loop that appends the chunks: a response that is not [ok] is logged
    and the loop goes on; a rejected request ends the function. *)
Fixpoint append_all (s : service) (pageId : value) (chunks : list (list value))
  : run unit :=
  match chunks with
  | [] => done (Ok tt)
  | chunk :: rest =>
      next (done (to_string pageId)) (fun id =>
      next (send s (AppendChildren id chunk)) (fun answer =>
      match answer with
      | Failed message => done (Throw message)
      | Accepted _ | Refused _ => append_all s pageId rest
      end))
  end.

(** [createNotionPage(interpretation, milestones, assignments)] *)
Definition createNotionPage (s : service) (interpretation milestones assignments : value)
  : run value :=
  let apiKey := NOTION_API_KEY s in
  let parentPageId := NOTION_PARENT_PAGE_ID s in
  if negb (truthy apiKey) || negb (truthy parentPageId) then
    done (Throw (lit "NOTION_API_KEY or NOTION_PARENT_PAGE_ID not configured"))
  else
    next (done (get interpretation (lit "title"))) (fun title =>
    next (send s (CreatePage parentPageId title)) (fun answer =>
    match answer with
    | Failed message => done (Throw message)
    | Refused error => done (Throw (lit "Notion API error creating page: " ++ error))
    | Accepted page =>
        next (done (get page (lit "id"))) (fun pageId =>
        next (done (content_blocks interpretation milestones assignments)) (fun blocks =>
        next (done (match chunks blocks with
                    | Some chunked => Ok chunked
                    | None => Beyond
                    end)) (fun chunked =>
        next (append_all s pageId chunked) (fun _ =>
        done (get page (lit "url"))))))
    end)).

End Notion.

(** The append requests of a run, and a service for the examples: it creates
    the page and refuses every append request. *)
Definition appended (r : Notion.request) : list value :=
  match r with
  | Notion.AppendChildren _ children => children
  | Notion.CreatePage _ _ => []
  end.

Definition is_append (r : Notion.request) : bool :=
  match r with
  | Notion.AppendChildren _ _ => true
  | Notion.CreatePage _ _ => false
  end.

Definition refusing_service : Notion.service :=
  {| Notion.NOTION_API_KEY := VStr (lit "secret");
     Notion.NOTION_PARENT_PAGE_ID := VStr (lit "parent");
     Notion.respond := fun _ r =>
       match r with
       | Notion.CreatePage _ _ =>
           Notion.Accepted (VObj [ (lit "id", VStr (lit "page-1"));
                                   (lit "url", VStr (lit "https://notion.so/page-1")) ])
       | Notion.AppendChildren _ _ => Notion.Refused (lit "rate limited")
       end |}.

(** The number of tasks of a milestone, as [milestone.tasks] has them. *)
Definition task_count (milestone : value) : nat :=
  match get milestone (lit "tasks") with
  | Ok (VArr tasks) => length tasks
  | _ => 0%nat
  end.

(** An assignment that is not the one of the task with the given [id]. *)
Definition other_task (id : value) (a : value) : Prop :=
  exists task_id, get a (lit "task_id") = Ok task_id
                  /\ Notion.strict_eq task_id id = Ok false.

Definition sample_interpretation : value :=
  VObj [ (lit "title", VStr (lit "Todo app"));
         (lit "objectives", VArr [ VStr (lit "Track tasks") ]);
         (lit "scope_assumptions", VArr []) ].

Definition sample_milestones : value :=
  VObj [ (lit "milestones",
          VArr [ VObj [ (lit "name", VStr (lit "Setup"));
                        (lit "tasks",
                         VArr [ VObj [ (lit "id", VStr (lit "T001"));
                                       (lit "description", VStr (lit "Create the repository")) ];
                                VObj [ (lit "id", VStr (lit "T002"));
                                       (lit "description", VStr (lit "Write the schema")) ] ]) ] ]) ].

Definition sample_assignments : value :=
  VObj [ (lit "assignments",
          VArr [ VObj [ (lit "task_id", VStr (lit "T001"));
                        (lit "assigned_to", VStr (lit "A")) ] ]) ].

(** Two assignments of the same task. *)
Definition doubly_assigned : value :=
  VObj [ (lit "assignments",
          VArr [ VObj [ (lit "task_id", VStr (lit "T002"));
                        (lit "assigned_to", VStr (lit "A"));
                        (lit "timeframe", VStr (lit "1 week")) ];
                 VObj [ (lit "task_id", VStr (lit "T001"));
                        (lit "assigned_to", VStr (lit "B"));
                        (lit "timeframe", VStr (lit "2 weeks")) ];
                 VObj [ (lit "task_id", VStr (lit "T001"));
                        (lit "assigned_to", VStr (lit "C"));
                        (lit "timeframe", VStr (lit "3 weeks")) ] ]) ].

Definition sample_task : value :=
  VObj [ (lit "id", VStr (lit "T001"));
         (lit "description", VStr (lit "Create the repository")) ].

(** * Properties *)

Import WebSearchAgent.

(** ** Substrings and the confidence score *)

Lemma starts_with_spec (sub s : jsstring) :
  starts_with sub s = true <-> exists post, s = sub ++ post.
Proof.
  revert s. induction sub as [|c sub IH]; intros s; simpl.
  - split; [intros _; now exists s | reflexivity].
  - destruct s as [|d s].
    + split; [discriminate | intros [post H]; discriminate].
    + rewrite andb_true_iff, N.eqb_eq, IH. split.
      * intros [-> [post ->]]. now exists post.
      * intros [post H]. injection H as -> ->. split; [reflexivity | now exists post].
Qed.

Lemma includes_spec (s sub : jsstring) :
  includes s sub = true <-> contains sub s.
Proof.
  unfold contains. induction s as [|d s IH]; simpl.
  - rewrite orb_false_r, starts_with_spec. split.
    + intros [post H]. exists [], post. exact H.
    + intros [pre [post H]]. destruct pre; simpl in H.
      * now exists post.
      * discriminate.
  - rewrite orb_true_iff, starts_with_spec, IH. split.
    + intros [[post H] | [pre [post H]]].
      * exists [], post. exact H.
      * exists (d :: pre), post. simpl. now rewrite H.
    + intros [pre [post H]]. destruct pre as [|p pre]; simpl in H.
      * left. now exists post.
      * right. injection H as _ H. now exists pre, post.
Qed.

Lemma counts_lines_filter (sub : jsstring) (l : list jsstring) (n : nat) :
  counts_lines sub l n ->
  length (List.filter (fun log => includes log sub) l) = n.
Proof.
  induction 1 as [|x l n Hx _ IH|x l n Hx _ IH]; simpl.
  - reflexivity.
  - apply includes_spec in Hx. rewrite Hx. simpl. now rewrite IH.
  - destruct (includes x sub) eqn:E; [|exact IH].
    exfalso. apply Hx. now apply includes_spec.
Qed.

Lemma counts_lines_total (sub : jsstring) (l : list jsstring) :
  counts_lines sub l (length (List.filter (fun log => includes log sub) l)).
Proof.
  induction l as [|x l IH]; simpl; [constructor|].
  destruct (includes x sub) eqn:E; simpl.
  - apply cl_hit; [now apply includes_spec | exact IH].
  - apply cl_miss; [|exact IH]. intros H. apply includes_spec in H. congruence.
Qed.

(** C9: the confidence score is [min(100, 20 r + 25 v + 15 e)], where [r], [v]
    and [e] are the numbers of log lines containing "research", "validation"
    and "enhancement"; it depends on the log through these three counts only
    and lies between 0 and 100. *)
Theorem confidence_score_from_counts (executionLog : list jsstring) (r v e : nat) :
  counts_lines (lit "research") executionLog r ->
  counts_lines (lit "validation") executionLog v ->
  counts_lines (lit "enhancement") executionLog e ->
  Orchestrator.calculateConfidenceScore executionLog
    = Z.min 100 (20 * Z.of_nat r + 25 * Z.of_nat v + 15 * Z.of_nat e)
  /\ 0 <= Orchestrator.calculateConfidenceScore executionLog <= 100.
Proof.
  intros Hr Hv He.
  apply counts_lines_filter in Hr, Hv, He.
  unfold Orchestrator.calculateConfidenceScore, Orchestrator.count_factors.
  cbn [Orchestrator.researchDepth Orchestrator.validationChecks
       Orchestrator.enhancementSteps].
  rewrite Hr, Hv, He. lia.
Qed.

Lemma confidence_score_from_counts_witness :
  counts_lines (lit "research") sample_log 1
  /\ counts_lines (lit "validation") sample_log 1
  /\ counts_lines (lit "enhancement") sample_log 0
  /\ Orchestrator.calculateConfidenceScore sample_log = 45
  /\ 0 <= Orchestrator.calculateConfidenceScore sample_log <= 100.
Proof.
  assert (counts_lines (lit "research") sample_log 1) as Hr
    by exact (counts_lines_total (lit "research") sample_log).
  assert (counts_lines (lit "validation") sample_log 1) as Hv
    by exact (counts_lines_total (lit "validation") sample_log).
  assert (counts_lines (lit "enhancement") sample_log 0) as He
    by exact (counts_lines_total (lit "enhancement") sample_log).
  split; [exact Hr|]. split; [exact Hv|]. split; [exact He|].
  exact (confidence_score_from_counts sample_log 1 1 0 Hr Hv He).
Defined.

(** ** Running computations *)

Lemma get_settled v k : get v k <> Beyond.
Proof. destruct v; simpl; try discriminate; destruct (jsstring_eqb _ _); discriminate. Qed.

Lemma settled_ret {S A} (a : A) : settled (@ret S A a).
Proof. intros s l. discriminate. Qed.

Lemma settled_throw {S A} e : settled (@throw S A e).
Proof. intros s l. discriminate. Qed.

Lemma settled_bind {S A B} (m : M S A) (k : A -> M S B) :
  settled m -> (forall a, settled (k a)) -> settled (bind m k).
Proof.
  intros Hm Hk s l. unfold bind. specialize (Hm s l).
  destruct (m s l) as [[[a|e|] s'] l']; simpl in *; [apply Hk | discriminate | congruence].
Qed.

Lemma settled_lift_get {S} v k : settled (@lift S _ (get v k)).
Proof. intros s l. apply get_settled. Qed.

Lemma settled_external {S} w c : settled (@external S w c).
Proof. intros s l. unfold external. simpl. destruct (answer _ _ _); discriminate. Qed.

Lemma settled_callLLM {S} w t a : settled (@callLLM S w t a).
Proof.
  unfold callLLM. destruct (truthy _); [apply settled_external | apply settled_throw].
Qed.

Lemma settled_now {S} w : settled (@now S w).
Proof. intros s l. discriminate. Qed.

Lemma settled_get_state {S} : settled (@get_state S).
Proof. intros s l. discriminate. Qed.

Lemma settled_put_state {S} (s0 : S) : settled (put_state s0).
Proof. intros s l. discriminate. Qed.

Lemma settled_map_m {S A B} (f : A -> M S B) (l : list A) :
  (forall a, settled (f a)) -> settled (map_m f l).
Proof.
  intros Hf. induction l as [|x l IH]; simpl.
  - apply settled_ret.
  - apply settled_bind; [apply Hf|]. intros y.
    apply settled_bind; [apply IH|]. intros ys. apply settled_ret.
Qed.

Create HintDb settled.
#[local] Hint Resolve settled_ret settled_throw settled_lift_get settled_external
  settled_callLLM settled_now settled_get_state settled_put_state : settled.
#[local] Hint Extern 2 (settled (bind _ _)) => apply settled_bind; [|intros ?] : settled.
#[local] Hint Extern 2 (settled (map_m _ _)) => apply settled_map_m; intros ? : settled.
#[local] Hint Extern 3 (settled (if ?b then _ else _)) => destruct b : settled.
#[local] Hint Extern 3 (settled (match ?v with _ => _ end)) => destruct v : settled.

Lemma settled_searchWithSerper w q o : settled (searchWithSerper w q o).
Proof. unfold searchWithSerper. auto 10 with settled. Qed.

Lemma settled_analyze w q r : settled (analyzeSearchResults w q r).
Proof. unfold analyzeSearchResults, relevant_result. auto 20 with settled. Qed.

Lemma settled_search_body w key q o : settled (search_body w key q o).
Proof.
  unfold search_body.
  apply settled_bind; [apply settled_searchWithSerper | intros ?].
  apply settled_bind; [apply settled_analyze | intros ?].
  auto 10 with settled.
Qed.

Lemma keeps_ret {S A} (a : A) : keeps_state (@ret S A a).
Proof. intros s l. reflexivity. Qed.
Lemma keeps_throw {S A} e : keeps_state (@throw S A e).
Proof. intros s l. reflexivity. Qed.
Lemma keeps_lift {S A} (o : outcome A) : keeps_state (@lift S A o).
Proof. intros s l. reflexivity. Qed.
Lemma keeps_external {S} w c : keeps_state (@external S w c).
Proof. intros s l. reflexivity. Qed.
Lemma keeps_now {S} w : keeps_state (@now S w).
Proof. intros s l. reflexivity. Qed.
Lemma keeps_callLLM {S} w t a : keeps_state (@callLLM S w t a).
Proof. unfold callLLM. destruct (truthy _); [apply keeps_external | apply keeps_throw]. Qed.
Lemma keeps_bind {S A B} (m : M S A) (k : A -> M S B) :
  keeps_state m -> (forall a, keeps_state (k a)) -> keeps_state (bind m k).
Proof.
  intros Hm Hk s l. unfold bind. specialize (Hm s l).
  destruct (m s l) as [[[a|e|] s'] l']; simpl in *; subst; [apply Hk | reflexivity | reflexivity].
Qed.
Lemma keeps_map_m {S A B} (f : A -> M S B) (l : list A) :
  (forall a, keeps_state (f a)) -> keeps_state (map_m f l).
Proof.
  intros Hf. induction l as [|x l IH]; simpl.
  - apply keeps_ret.
  - apply keeps_bind; [apply Hf|]. intros y.
    apply keeps_bind; [apply IH|]. intros ys. apply keeps_ret.
Qed.

Create HintDb keeps.
#[local] Hint Resolve keeps_ret keeps_throw keeps_lift keeps_external keeps_now
  keeps_callLLM : keeps.
#[local] Hint Extern 2 (keeps_state (bind _ _)) => apply keeps_bind; [|intros ?] : keeps.
#[local] Hint Extern 2 (keeps_state (map_m _ _)) => apply keeps_map_m; intros ? : keeps.
#[local] Hint Extern 3 (keeps_state (if ?b then _ else _)) => destruct b : keeps.
#[local] Hint Extern 3 (keeps_state (match ?v with _ => _ end)) => destruct v : keeps.

Lemma keeps_searchWithSerper w q o : keeps_state (searchWithSerper w q o).
Proof. unfold searchWithSerper. auto 10 with keeps. Qed.

Lemma keeps_analyze w q r : keeps_state (analyzeSearchResults w q r).
Proof. unfold analyzeSearchResults, relevant_result. auto 20 with keeps. Qed.

(** What the [try] block of [search] does to the cache. *)
Lemma search_body_cache w key q o c log r c' log' :
  search_body w key q o c log = (r, c', log') ->
  match r with
  | Ok v => c' = <[key := v]> c
  | _ => c' = c
  end.
Proof.
  unfold search_body, bind. intros H.
  pose proof (keeps_searchWithSerper w q o c log) as K1.
  destruct (searchWithSerper w q o c log) as [[[sr|e|] s1] l1]; simpl in K1; subst s1;
    try (injection H as <- <- <-; reflexivity).
  pose proof (keeps_analyze w q sr c l1) as K2.
  destruct (analyzeSearchResults w q sr c l1) as [[[ar|e|] s2] l2]; simpl in K2; subst s2;
    try (injection H as <- <- <-; reflexivity).
Qed.

Lemma search_miss_run w key q o c log :
  exists r c' log',
    search_miss w key q o c log = (Ok r, c', log')
    /\ ((c' = <[key := r]> c
         /\ search_body w key q (default_options o) c log = (Ok r, c', log'))
        \/ (exists e, c' = c /\ r = failed q e
            /\ search_body w key q (default_options o) c log = (Throw e, c', log'))).
Proof.
  unfold search_miss, try_catch.
  pose proof (search_body_cache w key q (default_options o) c log) as Hc.
  pose proof (settled_search_body w key q (default_options o) c log) as Hs.
  destruct (search_body w key q (default_options o) c log) as [[[r|e|] c'] log'];
    simpl in Hs; [| |congruence].
  - specialize (Hc _ _ _ eq_refl). simpl in Hc. exists r, c', log'. split; [reflexivity|].
    left. split; [exact Hc | reflexivity].
  - specialize (Hc _ _ _ eq_refl). simpl in Hc. subst c'.
    exists (failed q e), c, log'. split; [reflexivity|].
    right. exists e. repeat split.
Qed.

Lemma search_hit w q o key c log r :
  cacheKey q o = Ok key -> c !! key = Some r ->
  search w q o c log = (Ok r, c, log).
Proof.
  intros Hk Hc. unfold search, bind, lift, get_state. rewrite Hk, Hc. reflexivity.
Qed.

Lemma failed_has_error q e : get (failed q e) (lit "error") = Ok (VStr e).
Proof. reflexivity. Qed.

Lemma search_run w q o c log r c1 log1 :
  search w q o c log = (r, c1, log1) ->
  c ⊆ c1
  /\ forall v, r = Ok v -> get v (lit "error") = Ok VUndefined ->
       exists key, cacheKey q o = Ok key /\ c1 !! key = Some v.
Proof.
  unfold search, bind, lift, get_state.
  destruct (cacheKey q o) as [key|e|] eqn:Hk.
  - destruct (c !! key) as [cached|] eqn:Hc.
    + unfold ret. intros H. injection H as <- <- <-. split; [reflexivity|].
      intros v Hv _. injection Hv as <-. eauto.
    + destruct (search_miss_run w key q o c log) as (r' & c' & l' & Hrun & Hcase).
      rewrite Hrun. intros H. injection H as <- <- <-.
      destruct Hcase as [[-> _] | (e & -> & -> & _)].
      * split; [now apply insert_subseteq|].
        intros v Hv _. injection Hv as <-. exists key. split; [reflexivity|].
        apply lookup_insert_eq.
      * split; [reflexivity|].
        intros v Hv Herr. injection Hv as <-. rewrite failed_has_error in Herr. discriminate.
  - intros H. injection H as <- <- <-. split; [reflexivity | discriminate].
  - intros H. injection H as <- <- <-. split; [reflexivity | discriminate].
Qed.


(** ** Degraded mode *)

Lemma search_body_no_key w key q o c l :
  truthy (SERPER_API_KEY w) = false ->
  search_body w key q o c l = (Ok (unavailable q), <[key := unavailable q]> c, l).
Proof.
  intros H. unfold search_body, searchWithSerper. rewrite H. reflexivity.
Qed.

Lemma degraded_insert key q c : degraded c -> degraded (<[key := unavailable q]> c).
Proof.
  intros Hc k r. rewrite lookup_insert. case_decide.
  - intros [= <-]. now exists q.
  - apply Hc.
Qed.

Lemma degraded_empty : degraded ∅.
Proof. intros k r. rewrite lookup_empty. discriminate. Qed.

Lemma search_miss_no_key w key q o c l :
  truthy (SERPER_API_KEY w) = false ->
  search_miss w key q o c l = (Ok (unavailable q), <[key := unavailable q]> c, l).
Proof.
  intros H. unfold search_miss, try_catch. now rewrite search_body_no_key.
Qed.

Lemma search_no_key w q o c l r c' l' :
  truthy (SERPER_API_KEY w) = false ->
  degraded c ->
  search w q o c l = (r, c', l') ->
  degraded c' /\ l' = l.
Proof.
  intros Hw Hc. unfold search, bind, lift, get_state.
  destruct (cacheKey q o) as [key|e|].
  - destruct (c !! key) as [cached|] eqn:E.
    + intros [= <- <- <-]. auto.
    + rewrite search_miss_no_key by exact Hw. intros [= <- <- <-].
      split; [now apply degraded_insert | reflexivity].
  - intros [= <- <- <-]. auto.
  - intros [= <- <- <-]. auto.
Qed.

Lemma finish_all_no_key w (ss : list started) c l r c' l' :
  truthy (SERPER_API_KEY w) = false ->
  degraded c ->
  map_m (finish w) ss c l = (r, c', l') ->
  degraded c'.
Proof.
  intros Hw. revert c l r c' l'.
  induction ss as [|s ss IH]; intros c l r c' l' Hc; simpl.
  - intros [= <- <- <-]. exact Hc.
  - unfold bind.
    assert (exists y c1, finish w s c l = (Ok y, c1, l) /\ degraded c1) as (y & c1 & -> & Hc1).
    { destruct s as [q [[key [cached|]]|e|]]; simpl; unfold ret; eauto.
      unfold bind. rewrite search_miss_no_key by exact Hw.
      eauto using degraded_insert. }
    destruct (map_m (finish w) ss c1 l) as [[[rs|e|] c2] l2] eqn:E;
      intros [= <- <- <-]; eapply IH; eauto.
Qed.

Lemma batch_no_key w queries c l r c' l' :
  truthy (SERPER_API_KEY w) = false ->
  degraded c ->
  searchMultipleQueries w queries c l = (r, c', l') ->
  degraded c'.
Proof.
  intros Hw Hc. unfold searchMultipleQueries. unfold bind at 1. unfold lift at 1.
  destruct (get queries (lit "length")) as [n|e|].
  2,3: intros [= <- <- <-]; exact Hc.
  destruct queries; try (intros [= <- <- <-]; exact Hc).
  unfold bind at 1. unfold search_all. unfold bind at 1. unfold get_state at 1.
  unfold bind at 1.
  destruct (map_m (finish w) (map (start c) elems) c l) as [[[rs|e|] c1] l1] eqn:E1.
  2,3: intros [= <- <- <-]; eapply finish_all_no_key; eauto.
  apply finish_all_no_key in E1; [|assumption..].
  unfold lift. destruct (settle rs) as [vs|e|].
  2,3: intros [= <- <- <-]; exact E1.
  unfold bind. unfold synthesizeMultipleSearches.
  pose proof (keeps_callLLM (S:=cache) w SynthesizeMultipleSearches [VArr elems; VArr vs] c1 l1) as K.
  destruct (callLLM w SynthesizeMultipleSearches [VArr elems; VArr vs] c1 l1) as [[[sy|e|] c2] l2];
    simpl in K; subst c2; intros [= <- <- <-]; exact E1.
Qed.

Lemma reachable_degraded w c :
  truthy (SERPER_API_KEY w) = false -> reachable w c -> degraded c.
Proof.
  intros Hw. induction 1.
  - apply degraded_empty.
  - eapply search_no_key; eauto.
  - eapply batch_no_key; eauto.
  - apply degraded_empty.
Qed.

(** C3: without the search credential, [search] resolves for every query
    string, makes no external call, and returns [results = []] with a non-null
    [analysis] whose [summary] tells to configure SERPER_API_KEY. *)
Theorem search_without_credential
    (w : world) (query : jsstring) (options : value) (c : cache) (log : list event) :
  truthy (SERPER_API_KEY w) = false ->
  reachable w c ->
  exists r c',
    search w (VStr query) options c log = (Ok r, c', log)
    /\ get r (lit "results") = Ok (VArr [])
    /\ exists analysis summary,
         get r (lit "analysis") = Ok analysis
         /\ analysis <> VNull
         /\ get analysis (lit "summary") = Ok (VStr summary)
         /\ contains (lit "Configure SERPER_API_KEY") summary.
Proof.
  intros Hw Hc. apply (reachable_degraded w c Hw) in Hc.
  assert (forall q, get (unavailable q) (lit "results") = Ok (VArr [])
     /\ exists analysis summary,
         get (unavailable q) (lit "analysis") = Ok analysis
         /\ analysis <> VNull
         /\ get analysis (lit "summary") = Ok (VStr summary)
         /\ contains (lit "Configure SERPER_API_KEY") summary) as Hshape.
  { intros q. split; [reflexivity|].
    exists unavailable_analysis, disabled_summary.
    split; [reflexivity|]. split; [discriminate|]. split; [reflexivity|].
    apply includes_spec. vm_compute. reflexivity. }
  assert (exists key, cacheKey (VStr query) options = Ok key) as [key Hk]
    by (unfold cacheKey; simpl; eauto).
  unfold search, bind, lift, get_state. rewrite Hk.
  destruct (c !! key) as [cached|] eqn:E.
  - destruct (Hc _ _ E) as [q ->]. eexists _, _. split; [reflexivity|]. apply Hshape.
  - rewrite search_miss_no_key by exact Hw. eexists _, _. split; [reflexivity|]. apply Hshape.
Qed.

Lemma search_without_credential_witness :
  let w := {| answer := fun _ _ => Reject (lit "unreachable");
              clock := fun _ => lit "2024-01-01T00:00:00.000Z";
              SERPER_API_KEY := VUndefined;
              OPENAI_API_KEY := VUndefined |} in
  exists r c',
    search w (VStr (lit "x")) VUndefined ∅ [] = (Ok r, c', [])
    /\ get r (lit "results") = Ok (VArr [])
    /\ exists analysis summary,
         get r (lit "analysis") = Ok analysis
         /\ analysis <> VNull
         /\ get analysis (lit "summary") = Ok (VStr summary)
         /\ contains (lit "Configure SERPER_API_KEY") summary.
Proof.
  intros w. apply (search_without_credential w (lit "x") VUndefined ∅ []).
  - reflexivity.
  - apply reachable_fresh.
Defined.

(** ** Batches *)

Lemma cacheKey_string q o :
  cacheKey (VStr q) o
  = Ok (q ++ lit "-" ++ default (lit "undefined") (JSON_stringify (default_options o))).
Proof. reflexivity. Qed.

Lemma settle_all_ok (rs : list value) : settle (map Ok rs) = Ok rs.
Proof. induction rs as [|r rs IH]; simpl; [reflexivity | now rewrite IH]. Qed.

Lemma finish_all_run (w : world) (c0 : cache) (qs : list jsstring) (c : cache) (log : list event) :
  exists rs c' log',
    map_m (finish w) (map (start c0) (map VStr qs)) c log = (Ok (map Ok rs), c', log')
    /\ Forall2 (entry_of w c0) (map VStr qs) rs.
Proof.
  revert c log. induction qs as [|q qs IH]; intros c log; cbn [map map_m].
  - exists [], c, log. split; [reflexivity | constructor].
  - unfold bind.
    assert (exists r c1 log1,
               finish w (start c0 (VStr q)) c log = (Ok (Ok r), c1, log1)
               /\ entry_of w c0 (VStr q) r) as (r & c1 & log1 & -> & Hr).
    { unfold start. rewrite cacheKey_string.
      set (key := q ++ _).
      destruct (c0 !! key) as [cached|] eqn:E; simpl.
      - exists cached, c, log. split; [reflexivity|].
        eapply entry_cached; [apply cacheKey_string | exact E].
      - unfold bind.
        destruct (search_miss_run w key (VStr q) VUndefined c log)
          as (r & c1 & log1 & -> & [[_ Hb] | (e & _ & -> & Hb)]).
        + exists r, c1, log1. split; [reflexivity|].
          eapply entry_normal; [apply cacheKey_string | exact E | exact Hb].
        + eexists _, c1, log1. split; [reflexivity|].
          eapply entry_failed; [apply cacheKey_string | exact E | exact Hb | reflexivity]. }
    destruct (IH c1 log1) as (rs & c2 & log2 & -> & Hrs).
    exists (r :: rs), c2, log2. split; [reflexivity | now constructor].
Qed.

Lemma failed_shape (query : value) (message : jsstring) :
  get (failed query message) (lit "error") = Ok (VStr message)
  /\ get (failed query message) (lit "results") = Ok (VArr [])
  /\ get (failed query message) (lit "analysis") = Ok VNull
  /\ get (failed query message) (lit "query") = Ok query.
Proof. repeat split. Qed.

(** C4 (amended): when the synthesis completion call succeeds, a batch of
    three queries resolves with exactly three entries in the order of the
    queries; the entry of a query whose search threw is the failure record
    (non-null [error], [results = []], [analysis = null], see [failed_shape]),
    the other entries are what their searches returned. *)
Theorem batch_resolves_with_one_entry_per_query
    (w : world) (q1 q2 q3 : jsstring) (c : cache) (log : list event) :
  truthy (OPENAI_API_KEY w) = true ->
  (forall n args, exists v,
      answer w n (Completion SynthesizeMultipleSearches args) = Resolve v) ->
  exists r1 r2 r3 synthesis c' log',
    searchMultipleQueries w (VArr [VStr q1; VStr q2; VStr q3]) c log
    = (Ok (VObj [ (lit "individualResults", VArr [r1; r2; r3]);
                  (lit "synthesis", synthesis) ]), c', log')
    /\ entry_of w c (VStr q1) r1
    /\ entry_of w c (VStr q2) r2
    /\ entry_of w c (VStr q3) r3.
Proof.
  intros Hkey Hsyn.
  destruct (finish_all_run w c [q1; q2; q3] c log) as (rs & c1 & log1 & Hrun & Hrs).
  apply Forall2_cons_inv_l in Hrs as (r1 & rs1 & H1 & Hrs & ->).
  apply Forall2_cons_inv_l in Hrs as (r2 & rs2 & H2 & Hrs & ->).
  apply Forall2_cons_inv_l in Hrs as (r3 & rs3 & H3 & Hrs & ->).
  apply Forall2_nil_inv_l in Hrs as ->.
  destruct (Hsyn (length log1) [VArr [VStr q1; VStr q2; VStr q3]; VArr [r1; r2; r3]])
    as [synthesis Hs].
  exists r1, r2, r3, synthesis, c1, (log1 ++ [(Completion SynthesizeMultipleSearches
     [VArr [VStr q1; VStr q2; VStr q3]; VArr [r1; r2; r3]], Resolve synthesis)]).
  split; [|auto].
  unfold searchMultipleQueries, search_all, bind, lift, get_state.
  cbn [get]. cbn [map] in Hrun |- *. rewrite Hrun. cbn [settle].
  unfold synthesizeMultipleSearches, callLLM. rewrite Hkey.
  unfold external. rewrite Hs. reflexivity.
Qed.

Lemma batch_resolves_with_one_entry_per_query_witness :
  let w := flaky_world (Resolve (VObj [ (lit "confidence_level", VStr (lit "low")) ])) in
  exists r1 r2 r3 synthesis c' log',
    searchMultipleQueries w three_queries ∅ []
    = (Ok (VObj [ (lit "individualResults", VArr [r1; r2; r3]);
                  (lit "synthesis", synthesis) ]), c', log')
    /\ entry_of w ∅ (VStr (lit "a")) r1
    /\ entry_of w ∅ (VStr (lit "b")) r2
    /\ entry_of w ∅ (VStr (lit "c")) r3.
Proof.
  intros w.
  apply (batch_resolves_with_one_entry_per_query w (lit "a") (lit "b") (lit "c") ∅ []).
  - reflexivity.
  - intros n args. eexists. reflexivity.
Defined.

(** C4, counterexample: the provider rejects exactly the query "b" of the
    three, the searches for "a" and "c" succeed, and the synthesis call is
    rejected: the batch rejects. *)
Lemma batch_rejects_with_its_synthesis :
  let w := flaky_world (Reject (lit "OpenAI API error: rate limit exceeded")) in
  (exists ra ca la,
      search_body w (lit "a-{}") (VStr (lit "a")) (VObj []) ∅ [] = (Ok ra, ca, la))
  /\ (exists cb lb,
      search_body w (lit "b-{}") (VStr (lit "b")) (VObj []) ∅ []
      = (Throw (lit "Serper API error: 500"), cb, lb))
  /\ (exists rc cc lc,
      search_body w (lit "c-{}") (VStr (lit "c")) (VObj []) ∅ [] = (Ok rc, cc, lc))
  /\ exists c' log',
      searchMultipleQueries w three_queries ∅ []
      = (Throw (lit "OpenAI API error: rate limit exceeded"), c', log').
Proof.
  intros w. repeat split.
  - eexists _, _, _. vm_compute. reflexivity.
  - eexists _, _. vm_compute. reflexivity.
  - eexists _, _, _. vm_compute. reflexivity.
  - eexists _, _. vm_compute. reflexivity.
Qed.

(** ** The HTTP handlers *)

Import Route.

Lemma settled_lift {S A} (o : outcome A) : o <> Beyond -> settled (@lift S A o).
Proof. intros H s l. exact H. Qed.

Lemma settled_try_catch {S A} (m : M S A) h :
  settled m -> (forall e, settled (h e)) -> settled (try_catch m h).
Proof.
  intros Hm Hh s l. unfold try_catch. specialize (Hm s l).
  destruct (m s l) as [[[a|e|] s'] l']; simpl in *; [discriminate | apply Hh | congruence].
Qed.

Lemma destructure_settled v k : destructure v k <> Beyond.
Proof. destruct v; try discriminate; apply get_settled. Qed.

Lemma call_trim_settled n v : call_trim n v <> Beyond.
Proof. destruct v; discriminate. Qed.

#[local] Hint Resolve destructure_settled call_trim_settled get_settled : settled.

#[local] Hint Extern 2 (settled (lift _)) => apply settled_lift : settled.

#[local] Hint Extern 2 (settled (try_catch _ _)) => apply settled_try_catch; [|intros ?] : settled.

Lemma trim_start_all s : forallb is_whitespace s = true -> trim_start s = [].
Proof.
  induction s as [|c s IH]; simpl; [reflexivity|].
  destruct (is_whitespace c); simpl; [exact IH | discriminate].
Qed.

Lemma trim_start_nil s : trim_start s = [] -> forallb is_whitespace s = true.
Proof.
  induction s as [|c s IH]; simpl; [reflexivity|].
  destruct (is_whitespace c); simpl; [exact IH | discriminate].
Qed.

Lemma trim_start_sub s : forallb is_whitespace (trim_start s) = true -> forallb is_whitespace s = true.
Proof.
  induction s as [|c s IH]; simpl; [reflexivity|].
  destruct (is_whitespace c) eqn:E; simpl; [exact IH | now rewrite E].
Qed.

Lemma forallb_reverse {A} (f : A -> bool) (l : list A) :
  forallb f (rev l) = forallb f l.
Proof.
  apply eq_true_iff_eq. rewrite !forallb_forall. split; intros H x Hx; apply H.
  - now apply in_rev in Hx.
  - now apply in_rev.
Qed.

Lemma trim_blank s : trim s = [] <-> forallb is_whitespace s = true.
Proof.
  unfold trim. split.
  - intros H. apply (f_equal (@rev N)) in H. rewrite rev_involutive in H. simpl in H.
    apply trim_start_nil in H. rewrite forallb_reverse in H. now apply trim_start_sub.
  - intros H. now rewrite (trim_start_all s H).
Qed.

Lemma external_run {S} (w : world) (c : call) (s : S) (log : list event) :
  external w c s log
  = (match answer w (length log) c with Resolve v => Ok v | Reject e => Throw e end,
     s, log ++ [(c, answer w (length log) c)]).
Proof. reflexivity. Qed.

Lemma attempt_run (w : world) (c : call) (log : list event) :
  attempt (external w c) tt log
  = (Ok (url_of (answer w (length log) c)), tt, log ++ [(c, answer w (length log) c)]).
Proof.
  unfold attempt, try_catch. rewrite external_run.
  destruct (answer w (length log) c); reflexivity.
Qed.

Lemma destructure_body_of idea instr contribs :
  destructure (body_of idea instr contribs) (lit "project_idea") = Ok (idea_value idea)
  /\ destructure (body_of idea instr contribs) (lit "special_instructions") = Ok (idea_value instr)
  /\ destructure (body_of idea instr contribs) (lit "contributors") = Ok (list_value contribs).
Proof. destruct idea, instr, contribs; repeat split. Qed.

Lemma idea_missing_typed idea log :
  idea_missing (idea_value idea) tt log = (Ok (blank idea), tt, log).
Proof.
  destruct idea as [s|]; [|reflexivity].
  destruct s as [|c s]; [reflexivity|].
  unfold idea_missing. cbn [idea_value truthy negb bind lift call_trim ret].
  unfold blank. pose proof (trim_blank (c :: s)) as H.
  destruct (trim (c :: s)) as [|d t]; destruct (forallb is_whitespace (c :: s)); try reflexivity.
  - destruct H as [H _]. discriminate (H eq_refl).
  - destruct H as [_ H]. discriminate (H eq_refl).
Qed.

Lemma contributors_missing_typed contribs log :
  contributors_missing (list_value contribs) tt log = (Ok (no_contributors contribs), tt, log).
Proof. destruct contribs as [[|x l]|]; reflexivity. Qed.

Lemma bind_run {S A B} (m : M S A) (k : A -> M S B) (s : S) (log : list event) :
  bind m k s log
  = match m s log with
    | (Ok a, s', log') => k a s' log'
    | (Throw e, s', log') => (Throw e, s', log')
    | (Beyond, s', log') => (Beyond, s', log')
    end.
Proof. reflexivity. Qed.

(** *** The stages never leave the model *)

Lemma value_ind' (P : value -> Prop) :
  P VUndefined -> P VNull -> (forall b, P (VBool b)) -> (forall z, P (VNum z)) ->
  (forall s, P (VStr s)) ->
  (forall elems, Forall P elems -> P (VArr elems)) ->
  (forall fields, Forall (fun kv => P (snd kv)) fields -> P (VObj fields)) ->
  forall v, P v.
Proof.
  intros Hu Hn Hb Hz Hs Ha Ho. fix go 1.
  intros [| | b | z | s | elems | fields];
    [exact Hu | exact Hn | apply Hb | apply Hz | apply Hs | | ].
  - apply Ha. induction elems as [|x rest IH]; constructor; [apply go | exact IH].
  - apply Ho. induction fields as [|[k x] rest IH]; constructor; [apply go | exact IH].
Qed.

Lemma to_string_settled (v : value) : to_string v <> Beyond.
Proof.
  induction v as [| | b | z | s | elems IH | fields _] using value_ind';
    cbn [to_string]; try discriminate.
  - destruct b; discriminate.
  - match goal with
    | |- ?join true elems <> Beyond =>
        enough (forall first, join first elems <> Beyond) as G by apply G
    end.
    induction IH as [|x rest Hx _ IH]; intros first; [discriminate|].
    assert (match x with
            | VUndefined | VNull => Ok []
            | _ => to_string x
            end <> Beyond) as Hx' by (destruct x; first [discriminate | exact Hx]).
    destruct (match x with VUndefined | VNull => Ok [] | _ => to_string x end)
      as [t|e|] eqn:E; [|discriminate|now elim Hx'].
    specialize (IH false).
    match goal with
    | |- context [match ?j false rest with _ => _ end] =>
        destruct (j false rest) eqn:Ej; [discriminate | discriminate | now elim IH]
    end.
  - destruct (assoc (lit "toString") fields); discriminate.
Qed.

Lemma and_then_settled {A B} (o : outcome A) (k : A -> outcome B) :
  o <> Beyond -> (forall a, k a <> Beyond) -> LLM.and_then o k <> Beyond.
Proof. intros Ho Hk. destruct o; [apply Hk | discriminate | congruence]. Qed.

Lemma array_for_settled text method v : LLM.array_for text method v <> Beyond.
Proof. destruct v; discriminate. Qed.

Lemma each_settled (f : value -> outcome unit) (items : list value) :
  (forall x, f x <> Beyond) -> LLM.each f items <> Beyond.
Proof.
  intros Hf. induction items as [|x rest IH]; [discriminate|].
  cbn [LLM.each]. apply and_then_settled; auto.
Qed.

Lemma greater_than_zero_settled v : LLM.greater_than_zero v <> Beyond.
Proof.
  destruct v; try discriminate; cbn [LLM.greater_than_zero];
    (apply and_then_settled; [apply to_string_settled | discriminate]).
Qed.

Ltac settle_prompt :=
  repeat first
    [ discriminate
    | apply to_string_settled | apply get_settled | apply array_for_settled
    | apply greater_than_zero_settled
    | apply and_then_settled; [|intros ?]
    | apply each_settled; intros ?
    | match goal with
      | |- (if ?b then _ else _) <> Beyond => destruct b
      end ].

Lemma interpret_prompt_settled pi si : LLM.interpret_prompt pi si <> Beyond.
Proof. unfold LLM.interpret_prompt, LLM.special_text. settle_prompt. Qed.

Lemma plan_prompt_settled i : LLM.plan_prompt i <> Beyond.
Proof.
  unfold LLM.plan_prompt, LLM.shown, LLM.numbered, LLM.listed, LLM.joined. settle_prompt.
Qed.

Lemma assign_prompt_settled m co si : LLM.assign_prompt m co si <> Beyond.
Proof.
  unfold LLM.assign_prompt, LLM.special_text. settle_prompt.
Qed.

Lemma artifacts_prompt_settled i pi : LLM.artifacts_prompt i pi <> Beyond.
Proof.
  unfold LLM.artifacts_prompt, LLM.shown, LLM.numbered, LLM.listed, LLM.joined.
  settle_prompt.
Qed.

Lemma stage_run {S} (w : world) (prompt : outcome unit) (task : llm_task)
    (args : list value) (s : S) (log : list event) :
  LLM.stage w prompt task args s log
  = match prompt with
    | Ok _ =>
        if truthy (OPENAI_API_KEY w) then external w (Completion task args) s log
        else (Throw (lit "OPENAI_API_KEY not configured"), s, log)
    | Throw e => (Throw e, s, log)
    | Beyond => (Beyond, s, log)
    end.
Proof.
  unfold LLM.stage, bind, lift, callLLM. destruct prompt; try reflexivity.
  now destruct (truthy (OPENAI_API_KEY w)).
Qed.

Ltac stages :=
  unfold interpretProject, generateTasksAndMilestones, assignTasksAndTimeline,
    generateArtifacts, LLM.interpretProject, LLM.generateTasksAndMilestones,
    LLM.assignTasksAndTimeline, LLM.generateArtifacts.

Ltac run :=
  cbn [bind ret lift throw request_json try_catch POST_catch POST_basic_catch now
       createNotionPage createGitHubRepo readme_preview].

Lemma POST_try_typed (w : world) idea instr contribs log :
  POST_try w (Body (body_of idea instr contribs)) tt log
  = if blank idea then
      (Ok (Response_json (VObj [ (lit "error", VStr (lit "Project idea is required")) ]) 400),
       tt, log)
    else if no_contributors contribs then
      (Ok (Response_json
             (VObj [ (lit "error", VStr (lit "At least one contributor is required")) ]) 400),
       tt, log)
    else POST_try w (Body (body_of idea instr contribs)) tt log.
Proof.
  destruct (blank idea) eqn:Eb; [| destruct (no_contributors contribs) eqn:Ec; [|reflexivity]].
  - unfold POST_try. run.
    destruct (destructure_body_of idea instr contribs) as (-> & -> & ->). run.
    rewrite bind_run, idea_missing_typed, Eb. reflexivity.
  - unfold POST_try. run.
    destruct (destructure_body_of idea instr contribs) as (-> & -> & ->). run.
    rewrite bind_run, idea_missing_typed, Eb.
    rewrite bind_run, contributors_missing_typed, Ec. reflexivity.
Qed.

Lemma POST_basic_try_typed (w : world) idea instr contribs log :
  POST_basic_try w (Body (body_of idea instr contribs)) tt log
  = if blank idea then
      (Ok (Response_json (VObj [ (lit "error", VStr (lit "Project idea is required")) ]) 400),
       tt, log)
    else if no_contributors contribs then
      (Ok (Response_json
             (VObj [ (lit "error", VStr (lit "At least one contributor is required")) ]) 400),
       tt, log)
    else POST_basic_try w (Body (body_of idea instr contribs)) tt log.
Proof.
  destruct (blank idea) eqn:Eb; [| destruct (no_contributors contribs) eqn:Ec; [|reflexivity]].
  - unfold POST_basic_try. run.
    destruct (destructure_body_of idea instr contribs) as (-> & -> & ->). run.
    rewrite bind_run, idea_missing_typed, Eb. reflexivity.
  - unfold POST_basic_try. run.
    destruct (destructure_body_of idea instr contribs) as (-> & -> & ->). run.
    rewrite bind_run, idea_missing_typed, Eb.
    rewrite bind_run, contributors_missing_typed, Ec. reflexivity.
Qed.

Lemma idea_missing_run (project_idea : value) (log : list event) :
  (exists b, idea_missing project_idea tt log = (Ok b, tt, log))
  \/ (exists e, idea_missing project_idea tt log = (Throw e, tt, log)).
Proof.
  unfold idea_missing. destruct (truthy project_idea); [|left; eexists; reflexivity].
  cbn [negb]. rewrite bind_run. unfold lift.
  destruct project_idea; cbn [call_trim]; eauto.
Qed.

Lemma contributors_missing_run (contributors : value) (log : list event) :
  exists b, contributors_missing contributors tt log = (Ok b, tt, log).
Proof.
  unfold contributors_missing. destruct (truthy contributors) eqn:E; [|eexists; reflexivity].
  cbn [negb]. rewrite bind_run. unfold lift.
  destruct contributors; try discriminate E; cbn [get];
    try destruct (jsstring_eqb _ _); eexists; reflexivity.
Qed.

Ltac thrown :=
  eexists _, _; split; [reflexivity | right; left; eexists; reflexivity].

Ltac step_get :=
  rewrite bind_run; unfold lift at 1;
  match goal with
  | |- context [match get ?v ?k with _ => _ end] =>
      let E := fresh "E" in
      destruct (get v k) as [?|?|] eqn:E;
      [ | thrown | now apply get_settled in E ]
  end.

Ltac settle_tick n :=
  tryif (lazymatch n with
         | length ?l => is_var l
         | (length ?l + _)%nat => is_var l
         end)
  then fail
  else
    (let solve := (rewrite ?length_app; cbn [length]; lia) in
     match n with
     | context [?l ++ _] =>
         is_var l;
         first [ replace n with (length l + 1)%nat by solve
               | replace n with (length l + 2)%nat by solve
               | replace n with (length l + 3)%nat by solve
               | replace n with (length l + 4)%nat by solve
               | replace n with (length l + 5)%nat by solve
               | replace n with (length l + 6)%nat by solve ]
     end).

Ltac tick :=
  repeat match goal with
  | |- context [answer _ ?n _] => settle_tick n
  | |- context [clock _ ?n] => settle_tick n
  end.

Ltac step_prompt :=
  match goal with
  | |- context [match ?p with Ok _ => _ | Throw _ => _ | Beyond => _ end] =>
      lazymatch p with
      | LLM.interpret_prompt _ _ =>
          let P := fresh "P" in
          destruct p as [[]|?|] eqn:P;
          [ | thrown | now apply interpret_prompt_settled in P ]
      | LLM.plan_prompt _ =>
          let P := fresh "P" in
          destruct p as [[]|?|] eqn:P;
          [ | thrown | now apply plan_prompt_settled in P ]
      | LLM.assign_prompt _ _ _ =>
          let P := fresh "P" in
          destruct p as [[]|?|] eqn:P;
          [ | thrown | now apply assign_prompt_settled in P ]
      | LLM.artifacts_prompt _ _ =>
          let P := fresh "P" in
          destruct p as [[]|?|] eqn:P;
          [ | thrown | now apply artifacts_prompt_settled in P ]
      end
  end.

Ltac step_key :=
  match goal with
  | H : truthy (OPENAI_API_KEY ?w) = true |- context [truthy (OPENAI_API_KEY ?w)] =>
      rewrite H
  | |- context [truthy (OPENAI_API_KEY ?w)] =>
      let K := fresh "K" in
      destruct (truthy (OPENAI_API_KEY w)) eqn:K; [ | thrown ]
  end.

Ltac step_stage x E :=
  rewrite bind_run; stages; rewrite stage_run; step_prompt; step_key;
  rewrite external_run; tick;
  match goal with
  | |- context [match answer ?w ?n ?c with _ => _ end] =>
      destruct (answer w n c) as [x|?] eqn:E; [ | thrown ]
  end.

Ltac rejected b pi co :=
  eexists _, _; split; [reflexivity|]; left; exists b, pi, co; eexists;
  split; [reflexivity|];
  split; [eassumption|];
  split; [eassumption|];
  split; [first [left; eassumption | right; eassumption]|];
  split; [reflexivity|];
  split; [reflexivity|];
  split; [eexists; split; [|reflexivity]; discriminate | reflexivity].

Ltac prologue req log b pi si co :=
  rewrite bind_run; destruct req as [b|?]; cbn [request_json ret throw]; [|thrown];
  rewrite bind_run; unfold lift at 1;
  let Epi := fresh "Epi" in
  destruct (destructure b (lit "project_idea")) as [pi|?|] eqn:Epi;
    [| thrown | now apply destructure_settled in Epi];
  rewrite bind_run; unfold lift at 1;
  let Esi := fresh "Esi" in
  destruct (destructure b (lit "special_instructions")) as [si|?|] eqn:Esi;
    [| thrown | now apply destructure_settled in Esi];
  rewrite bind_run; unfold lift at 1;
  let Eco := fresh "Eco" in
  destruct (destructure b (lit "contributors")) as [co|?|] eqn:Eco;
    [| thrown | now apply destructure_settled in Eco];
  rewrite bind_run;
  let Hi := fresh "Hi" in
  destruct (idea_missing_run pi log) as [[[|] Hi] | [? Hi]]; rewrite Hi;
    [rejected b pi co | | thrown];
  rewrite bind_run;
  let Hc := fresh "Hc" in
  destruct (contributors_missing_run co log) as [[|] Hc]; rewrite Hc;
    [rejected b pi co | ].

Ltac replay :=
  repeat first
    [ rewrite bind_run
    | progress cbn [request_json ret lift throw readme_preview]
    | progress unfold createNotionPage, createGitHubRepo, now
    | progress stages
    | rewrite stage_run
    | rewrite external_run
    | rewrite attempt_run
    | progress tick
    | match goal with
      | H : _ = Ok _ |- _ => rewrite H
      | H : truthy _ = true |- _ => rewrite H
      | H : _ = Resolve _ |- _ => rewrite H
      | H : _ = (Ok _, _, _) |- _ => rewrite H
      end ].

Ltac completed w pi si co xi xm xa xart :=
  eexists _, _; split; [reflexivity|]; right; right;
  exists pi, si, co, xi, xm, xa, xart;
  split; [eexists; repeat split; eassumption|];
  split; [repeat split; assumption|];
  split; [constructor; assumption|];
  split;
  [ tick; unfold generation_log; rewrite <- ?app_assoc; cbn [app];
    repeat match goal with H : answer w _ _ = Resolve _ |- _ => rewrite <- H; clear H end;
    reflexivity
  | let w' := fresh "w'" in
    intros w' [? ? ? ? ?]; unfold POST_try, POST_basic_try; replay;
    unfold generation_log; rewrite <- ?app_assoc; cbn [app]; reflexivity ].

Lemma POST_try_cases (w : world) (req : request) (log : list event) :
  exists r log',
    POST_try w req tt log = (r, tt, log')
    /\ (rejected_request req log r log'
        \/ (exists e, r = Throw e)
        \/ completes POST_try success_data w req log r log').
Proof.
  unfold POST_try at 1, rejected_request, completes.
  prologue req log b pi si co.
  step_stage xi Ei. step_get.
  step_stage xm Em. step_get.
  step_stage xa Ea. step_get.
  step_stage xart Eart.
  rewrite bind_run. unfold createNotionPage. rewrite attempt_run.
  rewrite bind_run. unfold createGitHubRepo. rewrite attempt_run.
  rewrite bind_run. unfold now, ret.
  completed w pi si co xi xm xa xart.
Qed.

Lemma caught_has_error (message : jsstring) (rest : list (jsstring * value)) (code : Z) :
  has_error (Response_json
               (VObj ((lit "error",
                       js_or (VStr message) (VStr (lit "Failed to generate project")))
                      :: rest)) code).
Proof.
  destruct message as [|c message].
  - eexists. split; [|reflexivity]. discriminate.
  - exists (c :: message). split; [discriminate | reflexivity].
Qed.

Lemma POST_basic_try_cases (w : world) (req : request) (log : list event) :
  exists r log',
    POST_basic_try w req tt log = (r, tt, log')
    /\ (rejected_request req log r log'
        \/ (exists e, r = Throw e)
        \/ completes POST_basic_try
             (fun i m a art notion github _ => success_data_basic i m a art notion github)
             w req log r log').
Proof.
  unfold POST_basic_try at 1, rejected_request, completes.
  prologue req log b pi si co.
  step_stage xi Ei. step_get.
  step_stage xm Em. step_get. step_get.
  step_stage xa Ea. step_get. step_get.
  step_stage xart Eart. step_get.
  rewrite bind_run.
  match goal with
  | H : get xart _ = Ok ?v |- _ =>
      destruct v; cbn [readme_preview ret throw]; try thrown
  end.
  all: rewrite bind_run; unfold createNotionPage; rewrite attempt_run;
    rewrite bind_run; unfold createGitHubRepo; rewrite attempt_run;
    unfold ret; completed w pi si co xi xm xa xart.
Qed.

(** ** What a handler answers *)

Lemma assoc_flat_none (k : jsstring) (fields : list (jsstring * value)) :
  assoc k fields = None ->
  assoc k (flat_map (fun kx => match jsonify (snd kx) with
                               | VUndefined => []
                               | y => [(fst kx, y)]
                               end) fields) = None.
Proof.
  induction fields as [|[k' x] fields IH]; [reflexivity|].
  cbn [assoc flat_map fst snd]. destruct (jsstring_eqb k k') eqn:E; [discriminate|].
  intros H. destruct (jsonify x); cbn [app assoc]; rewrite ?E; auto.
Qed.

Lemma assoc_none_notin (k : jsstring) (fields : list (jsstring * value)) :
  k ∉ map fst fields -> assoc k fields = None.
Proof.
  induction fields as [|[k' x] fields IH]; [reflexivity|].
  cbn [assoc map fst]. intros H. apply not_elem_of_cons in H as [Hk H].
  unfold jsstring_eqb. rewrite bool_decide_eq_false_2 by exact Hk. auto.
Qed.

Lemma get_jsonify_obj (k : jsstring) (fields : list (jsstring * value)) :
  NoDup (map fst fields) ->
  get (jsonify (VObj fields)) k
  = Ok (match assoc k fields with
        | Some x => jsonify x
        | None => VUndefined
        end).
Proof.
  cbn [jsonify get]. intros Hnd. f_equal.
  induction fields as [|[k' x] fields IH]; [reflexivity|].
  cbn [map fst] in Hnd. apply NoDup_cons in Hnd as [Hk Hnd].
  cbn [assoc flat_map fst snd]. destruct (jsstring_eqb k k') eqn:E.
  - apply bool_decide_eq_true in E. subst k'.
    assert (jsstring_eqb k k = true) as Ek by now apply bool_decide_eq_true_2.
    destruct (jsonify x) eqn:Ex; cbn [app assoc]; rewrite ?Ek; try reflexivity.
    rewrite assoc_flat_none; [reflexivity | now apply assoc_none_notin].
  - destruct (jsonify x); cbn [app assoc]; rewrite ?E; auto.
Qed.

Lemma success_data_keys i m a art nu gu ts :
  NoDup (map fst (match success_data i m a art nu gu ts with
                  | VObj fields => fields
                  | _ => []
                  end)).
Proof. refine (bool_decide_eq_true_1 _ _). vm_compute. reflexivity. Qed.

Lemma completes_result try_block data w req log r log' :
  try_block w req tt log = (r, tt, log') ->
  completes try_block data w req log r log' ->
  exists i m a art notion github ts,
    r = Ok (Response_json (data i m a art notion github ts) 200).
Proof.
  intros Hrun (pi & si & co & i & m & a & art & _ & _ & Hgen & _ & Hany).
  rewrite (Hany w Hgen) in Hrun. injection Hrun as <- _. eauto 10.
Qed.

Lemma rejected_typed idea instr contribs log r log' :
  rejected_request (Body (body_of idea instr contribs)) log r log' ->
  blank idea || no_contributors contribs = true.
Proof.
  intros (b & pi & co & resp & [= <-] & Hpi & Hco & H & _).
  destruct (destructure_body_of idea instr contribs) as (Hpi' & _ & Hco').
  rewrite Hpi' in Hpi. rewrite Hco' in Hco. injection Hpi as <-. injection Hco as <-.
  rewrite idea_missing_typed, contributors_missing_typed in H.
  destruct H as [[= ->] | [= ->]]; [reflexivity | apply orb_true_r].
Qed.

Lemma POST_cases (w : world) (req : request) (log : list event) :
  exists resp log',
    POST w req tt log = (Ok resp, tt, log')
    /\ (rejected_request req log (Ok resp) log'
        \/ (status resp = 500 /\ has_error resp)
        \/ (status resp = 200
            /\ completes POST_try success_data w req log (Ok resp) log')).
Proof.
  unfold POST, try_catch.
  destruct (POST_try_cases w req log) as (r & log' & Hrun & [H | [[e ->] | H]]).
  - pose proof H as (b & pi & co & resp & _ & _ & _ & _ & -> & _).
    rewrite Hrun. exists resp, log'. split; [reflexivity | now left].
  - rewrite Hrun. eexists _, _. split; [reflexivity|]. right. left.
    split; [reflexivity | apply caught_has_error].
  - destruct (completes_result _ _ _ _ _ _ _ Hrun H) as (i & m & a & art & nu & gu & ts & ->).
    rewrite Hrun. eexists _, _. split; [reflexivity|]. right. right.
    split; [reflexivity | exact H].
Qed.

Lemma POST_basic_cases (w : world) (req : request) (log : list event) :
  exists resp log',
    POST_basic w req tt log = (Ok resp, tt, log')
    /\ (rejected_request req log (Ok resp) log'
        \/ (status resp = 500 /\ has_error resp)
        \/ (status resp = 200
            /\ completes POST_basic_try
                 (fun i m a art notion github _ => success_data_basic i m a art notion github)
                 w req log (Ok resp) log')).
Proof.
  unfold POST_basic, try_catch.
  destruct (POST_basic_try_cases w req log) as (r & log' & Hrun & [H | [[e ->] | H]]).
  - pose proof H as (b & pi & co & resp & _ & _ & _ & _ & -> & _).
    rewrite Hrun. exists resp, log'. split; [reflexivity | now left].
  - rewrite Hrun. eexists _, _. split; [reflexivity|]. right. left.
    split; [reflexivity | apply caught_has_error].
  - destruct (completes_result _ _ _ _ _ _ _ Hrun H) as (i & m & a & art & nu & gu & ts & ->).
    rewrite Hrun. eexists _, _. split; [reflexivity|]. right. right.
    split; [reflexivity | exact H].
Qed.

Lemma get_readable (b : value) (k : jsstring) :
  b <> VUndefined -> b <> VNull -> destructure b k = Ok (get_opt b k).
Proof.
  intros Hu Hn. unfold get_opt.
  destruct b; try congruence; cbn [destructure get]; try destruct (jsstring_eqb _ _);
    reflexivity.
Qed.

Lemma idea_missing_value (project_idea : value) (log : list event) :
  idea_missing project_idea tt log
  = if idea_is_blank project_idea then (Ok true, tt, log)
    else if idea_is_text project_idea then (Ok false, tt, log)
    else (Throw (lit "project_idea.trim is not a function"), tt, log).
Proof.
  unfold idea_missing, idea_is_blank, idea_is_text.
  destruct project_idea as [| | [] | z | s | l | fields]; try reflexivity.
  - cbn [truthy]. destruct (z =? 0); reflexivity.
  - destruct s as [|c s]; [reflexivity|].
    cbn [truthy negb orb]. rewrite bind_run. cbn [lift call_trim ret truthy].
    pose proof (trim_blank (c :: s)) as H.
    destruct (trim (c :: s)) as [|d t]; destruct (forallb is_whitespace (c :: s));
      try reflexivity.
    + destruct H as [H _]. discriminate (H eq_refl).
    + destruct H as [_ H]. discriminate (H eq_refl).
Qed.

Lemma contributors_missing_value (contributors : value) (log : list event) :
  contributors_missing contributors tt log = (Ok (contributors_absent contributors), tt, log).
Proof.
  unfold contributors_missing, contributors_absent, get_opt.
  destruct contributors; try reflexivity; cbn [truthy negb orb].
  - destruct b; reflexivity.
  - destruct (z =? 0); reflexivity.
  - destruct s; reflexivity.
Qed.

Ltac checked Hu Hn :=
  run;
  rewrite !(get_readable _ _ Hu Hn); run;
  rewrite bind_run, idea_missing_value;
  repeat match goal with
         | H : _ = _ :> bool |- _ => rewrite H
         end;
  try reflexivity;
  rewrite bind_run, contributors_missing_value;
  repeat match goal with
         | H : _ = _ :> bool |- _ => rewrite H
         end;
  reflexivity.

Lemma POST_try_checked (w : world) (b : value) (log : list event) :
  b <> VUndefined -> b <> VNull ->
  POST_try w (Body b) tt log
  = if idea_is_blank (get_opt b (lit "project_idea")) then
      (Ok (Response_json (VObj [ (lit "error", VStr (lit "Project idea is required")) ]) 400),
       tt, log)
    else if negb (idea_is_text (get_opt b (lit "project_idea"))) then
      (Throw (lit "project_idea.trim is not a function"), tt, log)
    else if contributors_absent (get_opt b (lit "contributors")) then
      (Ok (Response_json
             (VObj [ (lit "error", VStr (lit "At least one contributor is required")) ]) 400),
       tt, log)
    else POST_try w (Body b) tt log.
Proof.
  intros Hu Hn.
  destruct (idea_is_blank _) eqn:Eblank; [unfold POST_try; checked Hu Hn|].
  destruct (idea_is_text _) eqn:Etext; cbn [negb]; [|unfold POST_try; checked Hu Hn].
  destruct (contributors_absent _) eqn:Eabsent; [unfold POST_try; checked Hu Hn|].
  reflexivity.
Qed.

Lemma POST_basic_try_checked (w : world) (b : value) (log : list event) :
  b <> VUndefined -> b <> VNull ->
  POST_basic_try w (Body b) tt log
  = if idea_is_blank (get_opt b (lit "project_idea")) then
      (Ok (Response_json (VObj [ (lit "error", VStr (lit "Project idea is required")) ]) 400),
       tt, log)
    else if negb (idea_is_text (get_opt b (lit "project_idea"))) then
      (Throw (lit "project_idea.trim is not a function"), tt, log)
    else if contributors_absent (get_opt b (lit "contributors")) then
      (Ok (Response_json
             (VObj [ (lit "error", VStr (lit "At least one contributor is required")) ]) 400),
       tt, log)
    else POST_basic_try w (Body b) tt log.
Proof.
  intros Hu Hn.
  destruct (idea_is_blank _) eqn:Eblank; [unfold POST_basic_try; checked Hu Hn|].
  destruct (idea_is_text _) eqn:Etext; cbn [negb]; [|unfold POST_basic_try; checked Hu Hn].
  destruct (contributors_absent _) eqn:Eabsent; [unfold POST_basic_try; checked Hu Hn|].
  reflexivity.
Qed.

Lemma accepted_fields (b : value) (log : list event) (pi si co : value) :
  accepted (Body b) log pi si co ->
  pi = get_opt b (lit "project_idea")
  /\ si = get_opt b (lit "special_instructions")
  /\ co = get_opt b (lit "contributors")
  /\ idea_is_blank pi = false /\ idea_is_text pi = true /\ contributors_absent co = false.
Proof.
  intros (b' & [= <-] & Hpi & Hsi & Hco & Hidea & Hcontributors).
  assert (b <> VUndefined /\ b <> VNull) as [Hu Hn]
    by (split; intros ->; discriminate Hpi).
  rewrite (get_readable _ _ Hu Hn) in Hpi. rewrite (get_readable _ _ Hu Hn) in Hsi.
  rewrite (get_readable _ _ Hu Hn) in Hco.
  injection Hpi as <-. injection Hsi as <-. injection Hco as <-.
  rewrite idea_missing_value in Hidea. rewrite contributors_missing_value in Hcontributors.
  repeat split.
  - destruct (idea_is_blank _); [discriminate Hidea | reflexivity].
  - destruct (idea_is_blank _); [discriminate Hidea|].
    destruct (idea_is_text _); [reflexivity | discriminate Hidea].
  - now injection Hcontributors.
Qed.

Lemma rejected_fields (b : value) (log : list event) (r : outcome response)
    (log' : list event) :
  rejected_request (Body b) log r log' ->
  idea_is_blank (get_opt b (lit "project_idea")) = true
  \/ contributors_absent (get_opt b (lit "contributors")) = true.
Proof.
  intros (b' & pi & co & resp & [= <-] & Hpi & Hco & H & _).
  assert (b <> VUndefined /\ b <> VNull) as [Hu Hn]
    by (split; intros ->; discriminate Hpi).
  rewrite (get_readable _ _ Hu Hn) in Hpi. rewrite (get_readable _ _ Hu Hn) in Hco.
  injection Hpi as <-. injection Hco as <-.
  rewrite idea_missing_value, contributors_missing_value in H.
  destruct H as [H | H].
  - left. destruct (idea_is_blank _); [reflexivity|].
    destruct (idea_is_text _); discriminate H.
  - right. now injection H.
Qed.

Lemma completes_aggregated try_block data w b log resp log' :
  try_block w (Body b) tt log = (Ok resp, tt, log') ->
  completes try_block data w (Body b) log (Ok resp) log' ->
  aggregated data w b log resp log'.
Proof.
  intros Hrun (pi & si & co & i & m & a & art & Hacc & Hbuild & Hgen & Hlog & Hany).
  apply accepted_fields in Hacc as (-> & -> & -> & _).
  rewrite (Hany w Hgen) in Hrun. injection Hrun as <- _.
  exists i, m, a, art.
  split; [exact Hgen | split; [exact Hbuild | split; [exact Hlog | reflexivity]]].
Qed.



Lemma agent_insights_fields :
  get agent_insights (lit "confidence_score") = Ok (VNum 85)
  /\ get agent_insights (lit "web_search_performed") = Ok (VBool false)
  /\ get agent_insights (lit "technical_research_conducted") = Ok (VBool true)
  /\ get agent_insights (lit "market_analysis_performed") = Ok (VBool false)
  /\ get agent_insights (lit "enhancement_applied") = Ok (VBool true).
Proof. repeat split. Qed.

Lemma success_body_insights i m a art nu gu ts :
  get (jsonify (success_data i m a art nu gu ts)) (lit "agent_insights") = Ok agent_insights.
Proof.
  unfold success_data. rewrite get_jsonify_obj by apply success_data_keys.
  reflexivity.
Qed.

Lemma POST_success_body (w : world) (req : request) (log : list event)
    (resp : response) (log' : list event) :
  POST w req tt log = (Ok resp, tt, log') ->
  status resp = 200 ->
  completes POST_try success_data w req log (Ok resp) log'.
Proof.
  intros Hrun Hs.
  destruct (POST_cases w req log) as (resp0 & log0 & Hrun0 & H).
  rewrite Hrun in Hrun0. injection Hrun0 as <- <-.
  destruct H as [H | [[H _] | [_ H]]].
  - destruct H as (_ & _ & _ & resp0 & _ & _ & _ & _ & [= <-] & H & _). congruence.
  - congruence.
  - exact H.
Qed.

(** C10: every 200 answer of the enhanced handler carries the same
    [agent_insights], with [confidence_score = 85] and the four fixed flags,
    whatever the request and whatever the world answered. *)
Theorem agent_insights_is_constant
    (w1 w2 : world) (req1 req2 : request) (log1 log2 : list event)
    (resp1 resp2 : response) (log1' log2' : list event) :
  POST w1 req1 tt log1 = (Ok resp1, tt, log1') -> status resp1 = 200 ->
  POST w2 req2 tt log2 = (Ok resp2, tt, log2') -> status resp2 = 200 ->
  exists insights,
    get (body resp1) (lit "agent_insights") = Ok insights
    /\ get (body resp2) (lit "agent_insights") = Ok insights
    /\ get insights (lit "confidence_score") = Ok (VNum 85)
    /\ get insights (lit "web_search_performed") = Ok (VBool false)
    /\ get insights (lit "technical_research_conducted") = Ok (VBool true)
    /\ get insights (lit "market_analysis_performed") = Ok (VBool false)
    /\ get insights (lit "enhancement_applied") = Ok (VBool true).
Proof.
  intros H1 S1 H2 S2.
  assert (forall w req log resp log',
             POST w req tt log = (Ok resp, tt, log') -> status resp = 200 ->
             get (body resp) (lit "agent_insights") = Ok agent_insights) as Hone.
  { intros w req log resp log' Hrun Hs.
    pose proof (POST_success_body w req log resp log' Hrun Hs) as H.
    assert (POST_try w req tt log = (Ok resp, tt, log')) as Htry.
    { unfold POST, try_catch in Hrun.
      destruct (POST_try w req tt log) as [[[r|e|] []] l] eqn:E; try exact Hrun.
      unfold POST_catch in Hrun. rewrite bind_run in Hrun. cbn in Hrun.
      injection Hrun as <- _. discriminate Hs. }
    destruct (completes_result _ _ _ _ _ _ _ Htry H) as (i & m & a & art & nu & gu & ts & [= ->]).
    apply success_body_insights. }
  exists agent_insights.
  split; [eapply Hone; eassumption|].
  split; [eapply Hone; eassumption|].
  apply agent_insights_fields.
Qed.

Lemma success_data_basic_keys i m a art nu gu :
  NoDup (map fst (match success_data_basic i m a art nu gu with
                  | VObj fields => fields
                  | _ => []
                  end)).
Proof. refine (bool_decide_eq_true_1 _ _). vm_compute. reflexivity. Qed.

Lemma generation_same_but_publish w w' n pi si co i m a art :
  same_but_publish w w' ->
  generation w n pi si co i m a art -> generation w' n pi si co i m a art.
Proof.
  intros (Hsame & _ & Hkey & _) [H0 H1 H2 H3 H4].
  constructor; [rewrite <- Hkey; exact H0|..];
    rewrite <- Hsame by reflexivity; assumption.
Qed.

Lemma try_catch_ok {S A} (m : M S A) h s log a s' log' :
  m s log = (Ok a, s', log') -> try_catch m h s log = (Ok a, s', log').
Proof. intros H. unfold try_catch. now rewrite H. Qed.

Lemma try_catch_ok_inv (w : world) (req : request) (log : list event) resp log' :
  POST w req tt log = (Ok resp, tt, log') -> status resp = 200 ->
  POST_try w req tt log = (Ok resp, tt, log').
Proof.
  unfold POST, try_catch. intros Hrun Hs.
  destruct (POST_try w req tt log) as [[[r|e|] []] l] eqn:E; try exact Hrun.
  unfold POST_catch in Hrun. rewrite bind_run in Hrun. cbn in Hrun.
  injection Hrun as <- _. discriminate Hs.
Qed.

Lemma try_catch_ok_inv_basic (w : world) (req : request) (log : list event) resp log' :
  POST_basic w req tt log = (Ok resp, tt, log') -> status resp = 200 ->
  POST_basic_try w req tt log = (Ok resp, tt, log').
Proof.
  unfold POST_basic, try_catch. intros Hrun Hs.
  destruct (POST_basic_try w req tt log) as [[[r|e|] []] l] eqn:E; try exact Hrun.
  unfold POST_basic_catch in Hrun. cbn in Hrun.
  injection Hrun as <- _. discriminate Hs.
Qed.

Lemma POST_basic_success_body (w : world) (req : request) (log : list event)
    (resp : response) (log' : list event) :
  POST_basic w req tt log = (Ok resp, tt, log') ->
  status resp = 200 ->
  completes POST_basic_try
    (fun i m a art notion github _ => success_data_basic i m a art notion github)
    w req log (Ok resp) log'.
Proof.
  intros Hrun Hs.
  destruct (POST_basic_cases w req log) as (resp0 & log0 & Hrun0 & H).
  rewrite Hrun in Hrun0. injection Hrun0 as <- <-.
  destruct H as [H | [[H _] | [_ H]]].
  - destruct H as (_ & _ & _ & resp0 & _ & _ & _ & _ & [= <-] & H & _). congruence.
  - congruence.
  - exact H.
Qed.

Ltac field_eqb :=
  repeat match goal with
  | H : ?k <> ?l |- context [jsstring_eqb ?k ?l] =>
      replace (jsstring_eqb k l) with false
        by (symmetry; apply bool_decide_eq_false_2; exact H)
  end.

(** C5: when a run answers 200, it also does in every world that differs only
    in what the two publish services answer: with the same status, with
    [notion_url] (or [github_url]) null when that step is rejected, with both
    publish steps attempted in order, and with every other field of the
    answer unchanged. Both handlers. *)
Theorem publish_failures_are_contained
    (w w' : world) (req : request) (log : list event) :
  same_but_publish w w' ->
  (forall resp log1,
      POST w req tt log = (Ok resp, tt, log1) -> status resp = 200 ->
      exists pi si co i m a art resp',
        POST w' req tt log
        = (Ok resp', tt, log ++ generation_log w' (length log) pi si co i m a art)
        /\ status resp' = 200
        /\ (forall e, answer w' (length log + 4) (CreateNotionPage i m a) = Reject e ->
            get (body resp') (lit "notion_url") = Ok VNull)
        /\ (forall e, answer w' (length log + 5) (CreateGitHubRepo i art m) = Reject e ->
            get (body resp') (lit "github_url") = Ok VNull)
        /\ (forall k, k <> lit "notion_url" -> k <> lit "github_url" ->
            get (body resp') k = get (body resp) k))
  /\ (forall resp log1,
      POST_basic w req tt log = (Ok resp, tt, log1) -> status resp = 200 ->
      exists pi si co i m a art resp',
        POST_basic w' req tt log
        = (Ok resp', tt, log ++ generation_log w' (length log) pi si co i m a art)
        /\ status resp' = 200
        /\ (forall e, answer w' (length log + 4) (CreateNotionPage i m a) = Reject e ->
            get (body resp') (lit "notion_url") = Ok VNull)
        /\ (forall e, answer w' (length log + 5) (CreateGitHubRepo i art m) = Reject e ->
            get (body resp') (lit "github_url") = Ok VNull)
        /\ (forall k, k <> lit "notion_url" -> k <> lit "github_url" ->
            get (body resp') k = get (body resp) k)).
Proof.
  intros Hsame. split; intros resp log1 Hrun Hs.
  - pose proof (POST_success_body w req log resp log1 Hrun Hs)
      as (pi & si & co & i & m & a & art & _ & _ & Hgen & _ & Hany).
    apply try_catch_ok_inv in Hrun; [|exact Hs].
    rewrite (Hany w Hgen) in Hrun. injection Hrun as <- _.
    pose proof (Hany w' (generation_same_but_publish _ _ _ _ _ _ _ _ _ _ Hsame Hgen)) as Hrun'.
    exists pi, si, co, i, m, a, art. eexists.
    split; [apply try_catch_ok; exact Hrun'|].
    split; [reflexivity|].
    cbn [body Response_json]. unfold success_data.
    split; [|split].
    + intros e ->. rewrite get_jsonify_obj by apply success_data_keys. reflexivity.
    + intros e ->. rewrite get_jsonify_obj by apply success_data_keys. reflexivity.
    + intros k Hn Hg.
      rewrite !get_jsonify_obj by apply success_data_keys.
      destruct Hsame as (_ & <- & _).
      cbn [assoc]. field_eqb. reflexivity.
  - pose proof (POST_basic_success_body w req log resp log1 Hrun Hs)
      as (pi & si & co & i & m & a & art & _ & _ & Hgen & _ & Hany).
    apply try_catch_ok_inv_basic in Hrun; [|exact Hs].
    rewrite (Hany w Hgen) in Hrun. injection Hrun as <- _.
    pose proof (Hany w' (generation_same_but_publish _ _ _ _ _ _ _ _ _ _ Hsame Hgen)) as Hrun'.
    exists pi, si, co, i, m, a, art. eexists.
    split; [apply try_catch_ok; exact Hrun'|].
    split; [reflexivity|].
    cbn [body Response_json]. unfold success_data_basic.
    split; [|split].
    + intros e ->. rewrite get_jsonify_obj by apply success_data_basic_keys. reflexivity.
    + intros e ->. rewrite get_jsonify_obj by apply success_data_basic_keys. reflexivity.
    + intros k Hn Hg.
      rewrite !get_jsonify_obj by apply success_data_basic_keys.
      cbn [assoc]. field_eqb. reflexivity.
Qed.

Lemma same_but_publish_happy n g n' g' :
  same_but_publish (happy_world n g) (happy_world n' g').
Proof.
  split; [|repeat split]. intros k c Hc. destruct c; try discriminate Hc; reflexivity.
Defined.

Lemma agent_insights_is_constant_witness :
  exists resp1 log1 resp2 log2,
    POST published todo_request tt [] = (Ok resp1, tt, log1) /\ status resp1 = 200
    /\ POST unpublished todo_request tt [] = (Ok resp2, tt, log2) /\ status resp2 = 200
    /\ exists insights,
         get (body resp1) (lit "agent_insights") = Ok insights
         /\ get (body resp2) (lit "agent_insights") = Ok insights
         /\ get insights (lit "confidence_score") = Ok (VNum 85)
         /\ get insights (lit "web_search_performed") = Ok (VBool false)
         /\ get insights (lit "technical_research_conducted") = Ok (VBool true)
         /\ get insights (lit "market_analysis_performed") = Ok (VBool false)
         /\ get insights (lit "enhancement_applied") = Ok (VBool true).
Proof.
  eexists _, _, _, _.
  split; [vm_compute; reflexivity|]. split; [reflexivity|].
  split; [vm_compute; reflexivity|]. split; [reflexivity|].
  eapply (agent_insights_is_constant published unpublished todo_request todo_request [] []);
    first [reflexivity | vm_compute; reflexivity].
Defined.

Lemma publish_failures_are_contained_witness :
  same_but_publish published unpublished
  /\ exists resp log1,
       POST published todo_request tt [] = (Ok resp, tt, log1) /\ status resp = 200
       /\ exists resp' log1',
            POST unpublished todo_request tt [] = (Ok resp', tt, log1')
            /\ status resp' = 200
            /\ get (body resp') (lit "notion_url") = Ok VNull
            /\ get (body resp') (lit "github_url") = Ok VNull
            /\ get (body resp') (lit "title") = get (body resp) (lit "title").
Proof.
  split; [apply same_but_publish_happy|].
  destruct (publish_failures_are_contained published unpublished todo_request []
              (same_but_publish_happy _ _ _ _)) as [H _].
  eexists _, _. split; [vm_compute; reflexivity|]. split; [reflexivity|].
  edestruct H as (pi & si & co & i & m & a & art & resp' & Hrun & Hs & Hn & Hg & Hk);
    [vm_compute; reflexivity | reflexivity |].
  exists resp'. eexists. split; [exact Hrun|]. split; [exact Hs|].
  split; [eapply Hn; reflexivity|].
  split; [eapply Hg; reflexivity|].
  apply Hk; discriminate.
Defined.

(** ** The validation and research agents *)

Import ValidationAgent ResearchAgent.
Local Open Scope Z_scope.

Lemma round_div_spec (s n : Z) :
  0 < n -> round_div s n = Qfloor (inject_Z s / inject_Z n + (1 # 2))%Q.
Proof.
  intros Hn. destruct n as [|p|p]; try lia.
  assert (inject_Z s / inject_Z (Zpos p) + (1 # 2) == (2 * s + Zpos p) # (2 * p))%Q as ->.
  { unfold Qeq, Qdiv, Qmult, Qplus, Qinv, inject_Z. cbn [Qnum Qden].
    rewrite !Pos2Z.inj_mul. ring. }
  reflexivity.
Qed.

Lemma sum_scores_spec (scores : list value) (acc sum : Z) :
  sum_scores acc scores = Some sum ->
  exists zs, scores = map VNum zs /\ sum = acc + total zs.
Proof.
  revert acc. induction scores as [|v scores IH]; intros acc; cbn [sum_scores].
  - intros [= <-]. exists []. split; [reflexivity | unfold total; cbn [fold_right]; lia].
  - destruct v; try discriminate. destruct (exactly_representable (acc + z)); [|discriminate].
    intros H. apply IH in H as (zs & -> & ->). exists (z :: zs).
    split; [reflexivity | unfold total; cbn [fold_right]; fold (total zs); lia].
Qed.

Lemma scores_of_spec (results : list (jsstring * value)) (scores : list value) :
  scores_of results = Ok scores ->
  Forall2 (fun kv s => score_of (snd kv) = Ok s) results scores.
Proof.
  revert scores. induction results as [|[k r] results IH]; intros scores; cbn [scores_of].
  - intros [= <-]. constructor.
  - destruct (score_of r) as [s|e|] eqn:Es; try discriminate.
    destruct (scores_of results) as [ss|e|]; try discriminate.
    intros [= <-]. constructor; [exact Es | now apply IH].
Qed.

Lemma calculateOverallScore_spec (results : list (jsstring * value)) (z : Z) :
  results <> [] ->
  calculateOverallScore results = Ok z ->
  exists scores,
    Forall2 (fun kv s => score_of (snd kv) = Ok (VNum s)) results scores
    /\ z = rounded_mean scores.
Proof.
  intros Hne. unfold calculateOverallScore.
  destruct (scores_of results) as [vs|e|] eqn:Ev; try discriminate.
  apply scores_of_spec in Ev.
  assert (length vs = length results) as Hlen by (symmetry; eapply Forall2_length; eauto).
  destruct (0 <? length vs)%nat eqn:El.
  2:{ apply Nat.ltb_ge in El. destruct results; [congruence | simpl in Hlen; lia]. }
  destruct (sum_scores 0 vs) as [sum|] eqn:Es; [|discriminate].
  intros [= <-]. apply sum_scores_spec in Es as (zs & -> & ->).
  exists zs. split.
  - clear -Ev. revert zs Ev. induction results; intros [|z zs] H; inversion H; subst;
      constructor; auto.
  - unfold rounded_mean. rewrite length_map. rewrite Z.add_0_l.
    apply round_div_spec. apply Nat.ltb_lt in El. rewrite length_map in El. lia.
Qed.

Lemma contained_propagates {S A} (m : M S A) : contained m -> propagates m.
Proof.
  intros H s log r s' log' Hrun. destruct (H _ _ _ _ _ Hrun) as (new & -> & Hnew).
  exists new. split; [reflexivity|]. intros c e Hin Hc. apply Hnew in Hin. congruence.
Qed.

Lemma contained_silent {S A} (m : M S A) :
  (forall s log, (m s log).2 = log) -> contained m.
Proof.
  intros H s log r s' log' Hrun. exists []. rewrite app_nil_r.
  specialize (H s log). rewrite Hrun in H. split; [exact H | intros ? ? []].
Qed.

Lemma contained_ret {S A} (a : A) : contained (@ret S A a).
Proof. now apply contained_silent. Qed.

Lemma contained_throw {S A} e : contained (@throw S A e).
Proof. now apply contained_silent. Qed.

Lemma contained_lift {S A} (o : outcome A) : contained (@lift S A o).
Proof. now apply contained_silent. Qed.

Lemma contained_get_state {S} : contained (@get_state S).
Proof. now apply contained_silent. Qed.

Lemma contained_put_state {S} (s : S) : contained (put_state s).
Proof. now apply contained_silent. Qed.

Lemma contained_now {S} w : contained (@now S w).
Proof. now apply contained_silent. Qed.

Lemma contained_external {S} w c : caught_by_search c = true -> contained (@external S w c).
Proof.
  intros Hc s log r s' log' [= <- <- <-]. eexists. split; [reflexivity|].
  intros c' x [[= <- <-]|[]]. exact Hc.
Qed.

Lemma propagates_external {S} w c : propagates (@external S w c).
Proof.
  intros s log r s' log' [= <- <- <-]. eexists. split; [reflexivity|].
  intros c' e [[= <- He]|[]] _. now rewrite He.
Qed.

Lemma contained_bind {S A B} (m : M S A) (k : A -> M S B) :
  contained m -> (forall a, contained (k a)) -> contained (bind m k).
Proof.
  intros Hm Hk s log r s' log'. unfold bind.
  destruct (m s log) as [[[a|e|] s1] log1] eqn:E; destruct (Hm _ _ _ _ _ E) as (n1 & -> & H1).
  - intros Hrun. destruct (Hk a _ _ _ _ _ Hrun) as (n2 & -> & H2).
    exists (n1 ++ n2). split; [now rewrite app_assoc|].
    intros c x Hin. apply in_app_or in Hin as [Hin|Hin];
      [exact (H1 _ _ Hin) | exact (H2 _ _ Hin)].
  - intros [= <- <- <-]. exists n1. split; [reflexivity | exact H1].
  - intros [= <- <- <-]. exists n1. split; [reflexivity | exact H1].
Qed.

Lemma propagates_bind {S A B} (m : M S A) (k : A -> M S B) :
  propagates m -> (forall a, propagates (k a)) -> propagates (bind m k).
Proof.
  intros Hm Hk s log r s' log'. unfold bind.
  destruct (m s log) as [[[a|e|] s1] log1] eqn:E; destruct (Hm _ _ _ _ _ E) as (n1 & -> & H1).
  - intros Hrun. destruct (Hk a _ _ _ _ _ Hrun) as (n2 & -> & H2).
    exists (n1 ++ n2). split; [now rewrite app_assoc|].
    intros c x Hin Hc. apply in_app_or in Hin as [Hin|Hin]; [|exact (H2 _ _ Hin Hc)].
    specialize (H1 _ _ Hin Hc). discriminate.
  - intros [= <- <- <-]. exists n1. split; [reflexivity|].
    intros c x Hin Hc. specialize (H1 _ _ Hin Hc). now injection H1 as ->.
  - intros [= <- <- <-]. exists n1. split; [reflexivity|].
    intros c x Hin Hc. specialize (H1 _ _ Hin Hc). discriminate.
Qed.

Lemma contained_try_catch {S A} (m : M S A) h :
  contained m -> (forall e, contained (h e)) -> contained (try_catch m h).
Proof.
  intros Hm Hh s log r s' log'. unfold try_catch.
  destruct (m s log) as [[[a|e|] s1] log1] eqn:E; destruct (Hm _ _ _ _ _ E) as (n1 & -> & H1).
  - intros [= <- <- <-]. exists n1. split; [reflexivity | exact H1].
  - intros Hrun. destruct (Hh e _ _ _ _ _ Hrun) as (n2 & -> & H2).
    exists (n1 ++ n2). split; [now rewrite app_assoc|].
    intros c x Hin. apply in_app_or in Hin as [Hin|Hin];
      [exact (H1 _ _ Hin) | exact (H2 _ _ Hin)].
  - intros [= <- <- <-]. exists n1. split; [reflexivity | exact H1].
Qed.

Lemma contained_map_m {S A B} (f : A -> M S B) (l : list A) :
  (forall a, contained (f a)) -> contained (map_m f l).
Proof.
  intros Hf. induction l as [|x l IH]; cbn [map_m].
  - apply contained_ret.
  - apply contained_bind; [apply Hf|]. intros y.
    apply contained_bind; [apply IH|]. intros ys. apply contained_ret.
Qed.

Lemma propagates_callLLM {S} w t a : propagates (@callLLM S w t a).
Proof.
  unfold callLLM. destruct (truthy _);
    [apply propagates_external | apply contained_propagates, contained_throw].
Qed.

Create HintDb flow.

#[local] Hint Resolve contained_ret contained_throw contained_lift contained_get_state
  contained_put_state contained_now propagates_external propagates_callLLM : flow.

#[local] Hint Extern 1 (contained (external _ _)) =>
  apply contained_external; reflexivity : flow.

#[local] Hint Extern 2 (contained (bind _ _)) => apply contained_bind; [|intros ?] : flow.

#[local] Hint Extern 2 (contained (map_m _ _)) => apply contained_map_m; intros ? : flow.

#[local] Hint Extern 2 (contained (try_catch _ _)) =>
  apply contained_try_catch; [|intros ?] : flow.

#[local] Hint Extern 2 (propagates (bind _ _)) => apply propagates_bind; [|intros ?] : flow.

#[local] Hint Extern 3 (contained (if ?b then _ else _)) => destruct b : flow.

#[local] Hint Extern 3 (contained (match ?v with _ => _ end)) => destruct v : flow.

#[local] Hint Extern 3 (propagates (if ?b then _ else _)) => destruct b : flow.

#[local] Hint Extern 3 (propagates (match ?v with _ => _ end)) => destruct v : flow.

#[local] Hint Extern 9 (propagates _) => apply contained_propagates : flow.

Lemma contained_searchWithSerper w q o : contained (searchWithSerper w q o).
Proof. unfold searchWithSerper. auto 10 with flow. Qed.

Lemma contained_analyze w q r : contained (analyzeSearchResults w q r).
Proof.
  unfold analyzeSearchResults, relevant_result, callLLM.
  auto 20 with flow.
Qed.

Lemma contained_search_miss w key q o : contained (search_miss w key q o).
Proof.
  unfold search_miss, search_body.
  apply contained_try_catch; [|intros; apply contained_ret].
  apply contained_bind; [apply contained_searchWithSerper | intros ?].
  apply contained_bind; [apply contained_analyze | intros ?].
  auto 10 with flow.
Qed.

Lemma contained_search_all w qs : contained (search_all w qs).
Proof.
  unfold search_all.
  apply contained_bind; [apply contained_get_state | intros c0].
  apply contained_bind; [|intros; apply contained_lift].
  apply contained_map_m. intros [q [[key [cached|]]|e|]]; cbn [finish]; auto with flow.
  apply contained_bind; [apply contained_search_miss | intros; apply contained_ret].
Qed.

Lemma propagates_searchMultipleQueries w queries :
  propagates (searchMultipleQueries w queries).
Proof.
  unfold searchMultipleQueries, synthesizeMultipleSearches.
  apply propagates_bind; [auto with flow | intros _].
  destruct queries; auto with flow.
  apply propagates_bind; [apply contained_propagates, contained_search_all | intros ?].
  auto 10 with flow.
Qed.

Lemma propagates_validateCriterion w project criterion :
  propagates (validateCriterion w project criterion).
Proof.
  unfold validateCriterion, validateMarketViability, validateBestPracticesCompliance,
    searchBestPractices.
  destruct (dispatch criterion) as [[]|]; auto with flow.
  - do 4 (apply propagates_bind; [auto with flow | intros ?]).
    apply propagates_bind; [apply propagates_searchMultipleQueries | intros ?].
    auto with flow.
  - do 2 (apply propagates_bind; [auto with flow | intros ?]).
    apply propagates_bind; [apply propagates_searchMultipleQueries | intros ?].
    auto with flow.
Qed.

Lemma propagates_validate_each w project criteria results :
  propagates (validate_each w project criteria results).
Proof.
  revert results. induction criteria as [|c criteria IH]; intros results; cbn [validate_each].
  - auto with flow.
  - apply propagates_bind; [apply propagates_validateCriterion | intros ?]. apply IH.
Qed.

Lemma propagates_validateProject w project : propagates (validateProject w project).
Proof.
  unfold validateProject.
  apply propagates_bind; [auto with flow | intros ?].
  apply propagates_bind; [apply propagates_validate_each | intros ?].
  apply propagates_bind; [auto with flow | intros ?].
  apply propagates_bind; [destruct (_ <? _)%Z; auto with flow | intros ?].
  auto with flow.
Qed.

Lemma propagates_when_needed strategy flag name analysis findings :
  propagates analysis ->
  propagates (when_needed strategy flag name analysis findings).
Proof.
  intros H. unfold when_needed.
  apply propagates_bind; [auto with flow | intros ?].
  destruct (truthy _); auto with flow.
Qed.

Lemma propagates_researchTopic w topic text : propagates (researchTopic w topic text).
Proof.
  unfold researchTopic, performMarketAnalysis.
  apply propagates_bind; [auto with flow | intros strategy].
  apply propagates_bind; [apply propagates_when_needed | intros ?].
  { apply propagates_bind; [auto with flow | intros ?].
    apply propagates_searchMultipleQueries. }
  apply propagates_bind; [apply propagates_when_needed; auto with flow | intros ?].
  apply propagates_bind; [apply propagates_when_needed | intros ?].
  { apply propagates_bind; [apply propagates_searchMultipleQueries | intros ?].
    auto with flow. }
  apply propagates_bind; [apply propagates_when_needed; auto with flow | intros ?].
  auto with flow.
Qed.

Lemma propagates_research_each w topics results :
  propagates (research_each w topics results).
Proof.
  revert results. induction topics as [|t topics IH]; intros results; cbn [research_each].
  - auto with flow.
  - apply propagates_bind; [auto with flow | intros text].
    destruct (special_key text); [auto with flow|].
    apply propagates_bind; [apply propagates_researchTopic | intros ?]. apply IH.
Qed.

Lemma propagates_conductResearch w topics : propagates (conductResearch w topics).
Proof.
  unfold conductResearch.
  apply propagates_bind; [auto with flow | intros ?].
  destruct topics; auto with flow.
  apply propagates_bind; [apply propagates_research_each | intros ?].
  auto 10 with flow.
Qed.

Lemma propagates_new {S A} (m : M S A) s log r s' log' c e :
  propagates m ->
  m s log = (r, s', log') ->
  In (c, Reject e) (drop (length log) log') ->
  caught_by_search c = false ->
  r = Throw e.
Proof.
  intros Hm Hrun Hin Hc. destruct (Hm _ _ _ _ _ Hrun) as (new & -> & Hnew).
  rewrite drop_app_length in Hin. eauto.
Qed.


Lemma finished_run {A S} (run : outcome A * S * list event) :
  run = (run.1.1, run.1.2, run.2).
Proof. destruct run as [[r c] l]. reflexivity. Qed.

Lemma resolved_run {S} (run : outcome value * S * list event) :
  resolves run.1.1 = true -> run = (Ok (resolution run.1.1), run.1.2, run.2).
Proof.
  destruct run as [[[v|e|] c] l]; cbn; intros H; first [reflexivity | discriminate H].
Qed.

Lemma rejected_call_in (p : llm_task -> bool) (log : list event) :
  existsb (rejected_call p) log = true ->
  exists task args e, p task = true /\ In (Completion task args, Reject e) log.
Proof.
  intros H. apply existsb_exists in H as ([c r] & Hin & Hp).
  destruct c as [| task args | |]; try discriminate Hp.
  destruct r as [v|e]; try discriminate Hp.
  exists task, args, e. split; [exact Hp | exact Hin].
Qed.

Lemma is_market_viability_true (task : llm_task) :
  is_market_viability task = true -> task = Validate MarketViability.
Proof.
  intros H. destruct task; try discriminate H.
  match goal with m : validation_method |- _ => destruct m end;
    first [reflexivity | discriminate H].
Qed.

Lemma is_strategy_true (task : llm_task) :
  is_strategy task = true -> task = PlanResearchStrategy.
Proof. destruct task; first [reflexivity | discriminate]. Qed.

Lemma set_field_keys_fresh (key : jsstring) (v : value) (fields : list (jsstring * value)) :
  key ∉ map fst fields ->
  map fst (set_field key v fields) = map fst fields ++ [key].
Proof.
  induction fields as [|[k x] fields IH]; [reflexivity|].
  cbn [map fst set_field]. intros H. apply not_elem_of_cons in H as [Hk H].
  unfold jsstring_eqb. rewrite bool_decide_eq_false_2 by exact Hk.
  cbn [map fst app]. now rewrite IH.
Qed.

Lemma validate_each_keys w project criteria results0 c log results c' log' :
  NoDup (map fst results0 ++ criteria) ->
  validate_each w project criteria results0 c log = (Ok results, c', log') ->
  map fst results = map fst results0 ++ criteria.
Proof.
  revert results0 c log. induction criteria as [|k criteria IH]; intros results0 c log Hnd;
    cbn [validate_each].
  - intros [= <- _ _]. now rewrite app_nil_r.
  - unfold bind.
    destruct (validateCriterion w project k c log) as [[[x|e|] c1] l1]; try discriminate.
    intros Hrun. apply IH in Hrun.
    + rewrite Hrun, set_field_keys_fresh, <- app_assoc; [reflexivity|].
      apply NoDup_app in Hnd as (_ & Hnd & _). intros Hin. apply (Hnd _ Hin). left.
    + rewrite set_field_keys_fresh, <- app_assoc; [exact Hnd|].
      apply NoDup_app in Hnd as (_ & Hnd & _). intros Hin. apply (Hnd _ Hin). left.
Qed.

Lemma validationCriteria_distinct : NoDup validationCriteria.
Proof. refine (bool_decide_eq_true_1 _ _). vm_compute. reflexivity. Qed.


(** ** The knowledge base *)

Import KnowledgeBase.

Section Knowledge.
Context {double : Type}.
Variable one : double.
Variable falsy : double -> bool.
Variable times_1_1 : double -> double.
Variable times_0_9 : double -> double.
Variable w : world.

Local Abbreviation knowledge := (@KnowledgeBase.knowledge double).
Local Abbreviation store := (KnowledgeBase.store (double:=double) w).
Local Abbreviation learn := (KnowledgeBase.learn (double:=double) one falsy times_1_1 times_0_9 w).
Local Abbreviation categorizeAndStore := (KnowledgeBase.categorizeAndStore (double:=double) w).
Local Abbreviation update_strength :=
  (KnowledgeBase.update_strength (double:=double) one falsy times_1_1 times_0_9 w).
Local Abbreviation updatePatternStrengths :=
  (KnowledgeBase.updatePatternStrengths (double:=double) one falsy times_1_1 times_0_9 w).
Local Abbreviation updatePatterns :=
  (KnowledgeBase.updatePatterns (double:=double) one falsy times_1_1 times_0_9 w).
Local Abbreviation storeProjectLearnings :=
  (KnowledgeBase.storeProjectLearnings (double:=double) one falsy times_1_1 times_0_9 w).

Lemma no_weaker_refl (m : gmap jsstring Z) : no_weaker m m.
Proof. intros key n H. exists n. split; [exact H | lia]. Qed.

Lemma no_weaker_trans (m1 m2 m3 : gmap jsstring Z) : no_weaker m1 m2 -> no_weaker m2 m3 -> no_weaker m1 m3.
Proof.
  intros H1 H2 key n H. destruct (H1 _ _ H) as (n' & H' & Hle).
  destruct (H2 _ _ H') as (n'' & H'' & Hle'). exists n''. split; [exact H'' | lia].
Qed.

Lemma not_weakened_refl (kb : knowledge) : not_weakened kb kb.
Proof. repeat split; apply no_weaker_refl. Qed.

Lemma not_weakened_trans (kb1 kb2 kb3 : knowledge) :
  not_weakened kb1 kb2 -> not_weakened kb2 kb3 -> not_weakened kb1 kb3.
Proof.
  intros (A1 & B1 & C1 & D1) (A2 & B2 & C2 & D2).
  repeat split; eapply no_weaker_trans; eauto.
Qed.

Lemma no_weaker_insert {V} (f : V -> Z) (m : gmap jsstring V) key (new : V) :
  (forall old, m !! key = Some old -> f old <= f new) ->
  no_weaker (f <$> m) (f <$> <[key := new]> m).
Proof.
  intros Hle k n. rewrite !lookup_fmap, lookup_insert. case_decide as Hk.
  - subst k. destruct (m !! key) as [old|] eqn:E; [|discriminate].
    cbn. intros [= <-]. eexists. split; [reflexivity | now apply Hle].
  - intros H. exists n. split; [exact H | lia].
Qed.

Lemma monotone_ret {A} (a : A) : monotone (@ret knowledge A a).
Proof. intros kb log. apply not_weakened_refl. Qed.
Lemma monotone_throw {A} e : monotone (@throw knowledge A e).
Proof. intros kb log. apply not_weakened_refl. Qed.
Lemma monotone_lift {A} (o : outcome A) : monotone (@lift knowledge A o).
Proof. intros kb log. apply not_weakened_refl. Qed.
Lemma monotone_now : monotone (@now knowledge w).
Proof. intros kb log. apply not_weakened_refl. Qed.
Lemma monotone_get_state : monotone (@get_state knowledge).
Proof. intros kb log. apply not_weakened_refl. Qed.
Lemma monotone_callLLM t a : monotone (@callLLM knowledge w t a).
Proof.
  intros kb log. unfold callLLM. destruct (truthy _); apply not_weakened_refl.
Qed.

Lemma monotone_bind {A B} (m : M knowledge A) (k : A -> M knowledge B) :
  monotone m -> (forall a, monotone (k a)) -> monotone (bind m k).
Proof.
  intros Hm Hk kb log. unfold bind. specialize (Hm kb log).
  destruct (m kb log) as [[[a|e|] kb1] log1]; cbn [fst snd] in *; try exact Hm.
  eapply not_weakened_trans; [exact Hm | apply Hk].
Qed.

Lemma monotone_for_each {A} (l : list A) (f : A -> M knowledge unit) :
  (forall a, monotone (f a)) -> monotone (for_each l f).
Proof.
  intros Hf. induction l as [|x l IH]; cbn [for_each].
  - apply monotone_ret.
  - apply monotone_bind; [apply Hf | intros _; exact IH].
Qed.

Lemma increment_safe (n : Z) : Z.abs n < 2 ^ 53 -> increment n = Ok (n + 1).
Proof. intros H. unfold increment. now rewrite (proj2 (Z.ltb_lt _ _) H). Qed.

Lemma increment_grows (n n' : Z) : increment n = Ok n' -> n' = n + 1.
Proof. unfold increment. destruct (_ <? _); [now intros [= <-] | discriminate]. Qed.

Lemma monotone_store sc : monotone (store sc).
Proof.
  intros kb log.
  destruct sc; cbn [KnowledgeBase.store];
    unfold storePattern, storeInsight, storeBestPractice, storeTechnologyLearning,
      generatePatternKey, generateInsightKey, generateBestPracticeKey,
      generateTechnologyKey, bind, lift, get_state, now, put_state;
    match goal with |- context [generateKey ?p ?i] => destruct (generateKey p i) end;
    cbn [fst snd]; try apply not_weakened_refl.
  all: match goal with
       | |- context [increment ?n] => destruct (increment n) as [n'|e|] eqn:En
       end; cbn [fst snd]; try apply not_weakened_refl.
  all: apply increment_grows in En.
  all: repeat split; try apply no_weaker_refl.
  all: unfold pattern_strengths, insight_strengths, practice_strengths,
         technology_strengths; cbn [patterns insights bestPractices technologies].
  all: apply no_weaker_insert; intros old Hold; rewrite Hold in En; cbn in En |- *; lia.
Qed.

Lemma monotone_store_all what learnings (storing : value -> M knowledge unit) :
  (forall item, monotone (storing item)) -> monotone (store_all what learnings storing).
Proof.
  intros H. unfold store_all.
  apply monotone_bind; [apply monotone_lift | intros ?].
  apply monotone_bind; [apply monotone_lift | intros ?].
  now apply monotone_for_each.
Qed.

Lemma monotone_categorizeAndStore learnings : monotone (categorizeAndStore learnings).
Proof.
  unfold KnowledgeBase.categorizeAndStore.
  apply monotone_bind; [|intros _].
  { apply monotone_store_all. intros item.
    apply (monotone_store (StorePattern (lit "success") item)). }
  apply monotone_bind; [|intros _].
  { apply monotone_store_all. intros item.
    apply (monotone_store (StorePattern (lit "failure") item)). }
  apply monotone_bind; [|intros _].
  { apply monotone_store_all. intros item.
    apply (monotone_store (StoreInsight (lit "technical") item)). }
  apply monotone_bind; [|intros _].
  { apply monotone_store_all. intros item.
    apply (monotone_store (StoreInsight (lit "market") item)). }
  apply monotone_bind; [|intros _].
  { apply monotone_store_all. intros item.
    apply (monotone_store (StoreBestPractice item)). }
  apply monotone_store_all. intros item.
  apply (monotone_store (StoreTechnologyLearning item)).
Qed.

Lemma same_strengths_refl (kb : knowledge) : same_strengths kb kb.
Proof. repeat split. Qed.

Lemma same_strengths_trans (kb1 kb2 kb3 : knowledge) :
  same_strengths kb1 kb2 -> same_strengths kb2 kb3 -> same_strengths kb1 kb3.
Proof.
  intros (A1 & B1 & C1 & D1) (A2 & B2 & C2 & D2). repeat split; congruence.
Qed.

Lemma same_strengths_not_weakened (kb kb' : knowledge) : same_strengths kb kb' -> not_weakened kb kb'.
Proof.
  intros (A & B & C & D). unfold not_weakened. rewrite A, B, C, D.
  repeat split; apply no_weaker_refl.
Qed.

Lemma preserving_silent {A} (m : M knowledge A) :
  (forall kb log, (m kb log).1.2 = kb) -> preserving m.
Proof. intros H kb log. rewrite H. apply same_strengths_refl. Qed.

Lemma preserving_bind {A B} (m : M knowledge A) (k : A -> M knowledge B) :
  preserving m -> (forall a, preserving (k a)) -> preserving (bind m k).
Proof.
  intros Hm Hk kb log. unfold bind. specialize (Hm kb log).
  destruct (m kb log) as [[[a|e|] kb1] log1]; cbn [fst snd] in *; try exact Hm.
  eapply same_strengths_trans; [exact Hm | apply Hk].
Qed.

Lemma preserving_for_each {A} (l : list A) (f : A -> M knowledge unit) :
  (forall a, preserving (f a)) -> preserving (for_each l f).
Proof.
  intros Hf. induction l as [|x l IH]; cbn [for_each].
  - now apply preserving_silent.
  - apply preserving_bind; [apply Hf | intros _; exact IH].
Qed.

Lemma fmap_insert_same {V} (f : V -> Z) (m : gmap jsstring V) key (old new : V) :
  m !! key = Some old -> f new = f old -> f <$> <[key := new]> m = f <$> m.
Proof.
  intros Hold Hf. apply map_eq. intros k. rewrite !lookup_fmap, lookup_insert.
  case_decide as Hk; [|reflexivity]. subst k. rewrite Hold. cbn. now rewrite Hf.
Qed.

Lemma preserving_update_strength update :
  preserving (update_strength update).
Proof.
  intros kb log. unfold KnowledgeBase.update_strength, bind, lift, get_state, now, put_state.
  destruct (get update (lit "pattern")) as [described|e|]; try apply same_strengths_refl.
  destruct (generatePatternKey described) as [key|e|]; try apply same_strengths_refl.
  destruct (patterns kb !! key) as [existing|] eqn:E; [|apply same_strengths_refl].
  destruct (get update (lit "strength_change")) as [change|e|]; try apply same_strengths_refl.
  destruct (get update (lit "evidence")) as [proof|e|]; try apply same_strengths_refl.
  cbn [fst snd]. repeat split.
  unfold pattern_strengths. cbn [patterns].
  eapply fmap_insert_same; [exact E | reflexivity].
Qed.

Lemma preserving_updatePatternStrengths analysis :
  preserving (updatePatternStrengths analysis).
Proof.
  unfold KnowledgeBase.updatePatternStrengths.
  apply preserving_bind; [now apply preserving_silent | intros ?].
  apply preserving_bind; [now apply preserving_silent | intros ?].
  apply preserving_for_each, preserving_update_strength.
Qed.

Lemma preserving_monotone {A} (m : M knowledge A) : preserving m -> monotone m.
Proof. intros H kb log. apply same_strengths_not_weakened, H. Qed.

Lemma monotone_learn op : monotone (learn op).
Proof.
  destruct op; cbn [KnowledgeBase.learn].
  - apply monotone_store.
  - apply monotone_categorizeAndStore.
  - apply preserving_monotone, preserving_updatePatternStrengths.
  - unfold KnowledgeBase.updatePatterns. apply monotone_bind; [apply monotone_callLLM | intros ?].
    apply preserving_monotone, preserving_updatePatternStrengths.
  - unfold KnowledgeBase.storeProjectLearnings.
    apply monotone_bind; [apply monotone_get_state | intros kb0].
    destruct (negb _); [apply monotone_ret|].
    apply monotone_bind; [apply monotone_callLLM | intros ?].
    apply monotone_bind; [apply monotone_categorizeAndStore | intros ?].
    unfold KnowledgeBase.updatePatterns. apply monotone_bind; [apply monotone_callLLM | intros ?].
    apply preserving_monotone, preserving_updatePatternStrengths.
Qed.

Lemma dom_insert_twice {A B} (f : A -> B) (m : gmap jsstring A) (key : jsstring) (x y : A) :
  dom (f <$> <[key := y]> (<[key := x]> m)) = dom (f <$> <[key := x]> m).
Proof.
  rewrite !dom_fmap_L, !dom_insert_L.
  now rewrite union_assoc_L, union_idemp_L.
Qed.

Lemma store_again (sc : store_call) (key : jsstring) (kb : knowledge) (log : list event) :
  store_key sc = Ok key ->
  (forall n, strengths_for sc kb !! key = Some n -> Z.abs n < 2 ^ 53 - 1) ->
  exists kb1 kb2 n,
    store sc kb log = (Ok tt, kb1, log)
    /\ store sc kb1 log = (Ok tt, kb2, log)
    /\ strengths_for sc kb1 !! key = Some n
    /\ strengths_for sc kb2 !! key = Some (n + 1)
    /\ dom (strengths_for sc kb2) = dom (strengths_for sc kb1)
    /\ size (strengths_for sc kb2) = size (strengths_for sc kb1).
Proof.
  intros Hkey Hsafe.
  destruct sc; cbn [KnowledgeBase.store store_key strengths_for] in *;
    unfold pattern_strengths, insight_strengths, practice_strengths,
      technology_strengths in Hsafe; rewrite lookup_fmap in Hsafe;
    unfold storePattern, storeInsight, storeBestPractice, storeTechnologyLearning,
      bind, lift, get_state, now, put_state; rewrite Hkey;
    match goal with
    | |- context [increment ?n] =>
        assert (Z.abs n < 2 ^ 53 - 1) as Hn
          by (match goal with
              | |- context [default _ ?o] =>
                  destruct o as [old|]; cbn in *; [now apply Hsafe | lia]
              end);
        rewrite (increment_safe n) by lia; set (counter := n) in *
    end;
    eexists _, _, _; (split; [reflexivity|]);
    cbn [patterns insights bestPractices technologies];
    rewrite lookup_insert_eq; cbn [default from_option id];
    cbn [occurrences confidence effectiveness reliability];
    match goal with
    | |- context [increment ?n] => rewrite (increment_safe n) by lia
    end;
    (split; [reflexivity|]);
    unfold pattern_strengths, insight_strengths, practice_strengths,
      technology_strengths; cbn [patterns insights bestPractices technologies];
    rewrite !lookup_fmap, !lookup_insert_eq; cbn;
    (split; [reflexivity|]); (split; [reflexivity|]);
    (split; [apply dom_insert_twice|]);
    rewrite <- !size_dom; now rewrite dom_insert_twice.
Qed.

Lemma decreased_rescales_confidence
    (update described proof : value) (key : jsstring) (existing : pattern_entry)
    (kb : knowledge) (log : list event) :
  get update (lit "pattern") = Ok described ->
  generatePatternKey described = Ok key ->
  patterns kb !! key = Some existing ->
  get update (lit "strength_change") = Ok (VStr (lit "decreased")) ->
  get update (lit "evidence") = Ok proof ->
  exists kb' updated,
    update_strength update kb log = (Ok tt, kb', log)
    /\ patterns kb' !! key = Some updated
    /\ pattern_confidence updated
       = Some (times_0_9 (confidence_or_one one falsy (pattern_confidence existing)))
    /\ occurrences updated = occurrences existing.
Proof.
  intros Hp Hk He Hc Hv.
  unfold KnowledgeBase.update_strength, bind, lift, get_state, now, put_state.
  rewrite Hp, Hk, He, Hc, Hv.
  eexists _, _. split; [reflexivity|]. cbn [patterns].
  rewrite lookup_insert_eq. split; [reflexivity|]. split; reflexivity.
Qed.

(** C8 (amended): storing the same item twice, through any of the four
    store calls, adds exactly one to the entry's strength counter at the
    second store and leaves the number of entries and their keys as they
    were after the first (the counter being a safe integer); none of the
    learning operations (the four store calls, [categorizeAndStore],
    [updatePatternStrengths], [updatePatterns], [storeProjectLearnings])
    removes an entry or lowers a strength counter; [updatePatternStrengths]
    leaves every strength counter as it was, whatever the updates say; and
    an update whose [strength_change] is 'decreased' multiplies the separate
    [confidence] field of an existing pattern by 0.9, its counter unchanged. *)
Theorem stores_only_strengthen :
  (forall (sc : store_call) (key : jsstring) (kb : knowledge) (log : list event),
      store_key sc = Ok key ->
      (forall n, strengths_for sc kb !! key = Some n -> Z.abs n < 2 ^ 53 - 1) ->
      exists kb1 kb2 n,
        store sc kb log = (Ok tt, kb1, log)
        /\ store sc kb1 log = (Ok tt, kb2, log)
        /\ strengths_for sc kb1 !! key = Some n
        /\ strengths_for sc kb2 !! key = Some (n + 1)
        /\ dom (strengths_for sc kb2) = dom (strengths_for sc kb1)
        /\ size (strengths_for sc kb2) = size (strengths_for sc kb1))
  /\ (forall (op : learning_step) (kb : knowledge) (log : list event),
        not_weakened kb (learn op kb log).1.2)
  /\ (forall (analysis : value) (kb : knowledge) (log : list event),
        same_strengths kb (updatePatternStrengths analysis kb log).1.2)
  /\ (forall (update described proof : value) (key : jsstring)
             (existing : pattern_entry) (kb : knowledge) (log : list event),
        get update (lit "pattern") = Ok described ->
        generatePatternKey described = Ok key ->
        patterns kb !! key = Some existing ->
        get update (lit "strength_change") = Ok (VStr (lit "decreased")) ->
        get update (lit "evidence") = Ok proof ->
        exists kb' updated,
          update_strength update kb log = (Ok tt, kb', log)
          /\ patterns kb' !! key = Some updated
          /\ pattern_confidence updated
             = Some (times_0_9 (confidence_or_one one falsy (pattern_confidence existing)))
          /\ occurrences updated = occurrences existing).
Proof.
  split; [|split; [|split]].
  - intros sc key kb log. apply store_again.
  - intros op. apply monotone_learn.
  - intros analysis. apply preserving_updatePatternStrengths.
  - intros update described proof key existing kb log.
    apply decreased_rescales_confidence.
Qed.

End Knowledge.

Lemma stores_only_strengthen_witness :
  let w := scored_world 80 None in
  store_key sample_store = Ok sample_key
  /\ (forall n, strengths_for sample_store (empty_knowledge (double:=Q)) !! sample_key = Some n ->
       Z.abs n < 2 ^ 53 - 1)
  /\ exists (kb1 kb2 : knowledge (double:=Q)) (n : Z),
       store w sample_store empty_knowledge [] = (Ok tt, kb1, [])
       /\ store w sample_store kb1 [] = (Ok tt, kb2, [])
       /\ strengths_for sample_store kb1 !! sample_key = Some n
       /\ strengths_for sample_store kb2 !! sample_key = Some (n + 1)
       /\ dom (strengths_for sample_store kb2) = dom (strengths_for sample_store kb1)
       /\ size (strengths_for sample_store kb2) = size (strengths_for sample_store kb1).
Proof.
  intros w.
  assert (store_key sample_store = Ok sample_key) as Hkey by (vm_compute; reflexivity).
  assert (forall n, strengths_for sample_store (empty_knowledge (double:=Q)) !! sample_key = Some n ->
                    Z.abs n < 2 ^ 53 - 1) as Hsafe
    by (intros n H; vm_compute in H; discriminate H).
  split; [exact Hkey|]. split; [exact Hsafe|].
  exact (proj1 (stores_only_strengthen 1%Q (Qeq_bool 0) (Qmult (11 # 10)) (Qmult (9 # 10)) w)
           sample_store sample_key empty_knowledge [] Hkey Hsafe).
Defined.

(** C8 as stated fails for [importKnowledge] and [clearKnowledge]: after the
    pattern has been stored twice its counter is 2; importing knowledge data
    that records it once sets the counter to 1, and clearing the knowledge
    removes the entry. Neither goes through [updatePatternStrengths]. *)
Lemma import_and_clear_weaken :
  pattern_strengths stored_twice !! sample_key = Some 2
  /\ pattern_strengths (importKnowledge seen_once stored_twice []).1.2 !! sample_key = Some 1
  /\ pattern_strengths (clearKnowledge stored_twice []).1.2 !! sample_key = None
  /\ ~ not_weakened stored_twice (importKnowledge seen_once stored_twice []).1.2
  /\ ~ not_weakened stored_twice (clearKnowledge stored_twice []).1.2.
Proof.
  assert (pattern_strengths stored_twice !! sample_key = Some 2) as H2
    by (vm_compute; reflexivity).
  assert (pattern_strengths (importKnowledge seen_once stored_twice []).1.2 !! sample_key
          = Some 1) as H1 by (vm_compute; reflexivity).
  assert (pattern_strengths (clearKnowledge stored_twice []).1.2 !! sample_key = None) as H0
    by (vm_compute; reflexivity).
  repeat split; try assumption.
  - intros (Hw & _). destruct (Hw _ _ H2) as (n & Hn & Hle).
    rewrite H1 in Hn. injection Hn as <-. lia.
  - intros (Hw & _). destruct (Hw _ _ H2) as (n & Hn & Hle).
    rewrite H0 in Hn. discriminate Hn.
Qed.

(** ** Further properties of the web search agent *)

Lemma search_never_rejects_run
    (w : world) (query : jsstring) (options : value) (c : cache) (log : list event) :
  exists key r c' log',
    cacheKey (VStr query) options = Ok key
    /\ search w (VStr query) options c log = (Ok r, c', log')
    /\ ((c !! key = Some r /\ c' = c /\ log' = log)
        \/ (c !! key = None /\ c' = <[key := r]> c
            /\ get r (lit "query") = Ok (VStr query))
        \/ (c !! key = None /\ c' = c
            /\ exists message,
                 search_body w key (VStr query) (default_options options) c log
                 = (Throw message, c, log')
                 /\ r = failed (VStr query) message)).
Proof.
  exists (query ++ lit "-"
            ++ default (lit "undefined") (JSON_stringify (default_options options))).
  unfold search, bind, lift, get_state. rewrite cacheKey_string.
  set (key := query ++ _).
  destruct (c !! key) as [cached|] eqn:E.
  - exists cached, c, log. split; [reflexivity|]. split; [reflexivity|].
    left. auto.
  - destruct (search_miss_run w key (VStr query) options c log)
      as (r & c' & log' & Hrun & [[-> Hb] | (e & -> & -> & Hb)]).
    + exists r, (<[key := r]> c), log'.
      split; [reflexivity|]. split; [exact Hrun|]. right. left.
      split; [first [exact E | reflexivity]|]. split; [reflexivity|].
      revert Hb. unfold search_body, bind.
      destruct (searchWithSerper w (VStr query) (default_options options) c log)
        as [[[sr|e|] c1] l1]; try discriminate.
      unfold analyzeSearchResults, bind, lift.
      destruct (get sr (lit "organic")) as [organic|e|]; try discriminate.
      destruct (negb (truthy organic) || _).
      { cbn. intros [= <- _ _]. reflexivity. }
      destruct organic; try discriminate.
      destruct (map_m relevant_result (firstn 5 elems) c1 l1) as [[[rr|e|] c2] l2];
        try discriminate.
      destruct (callLLM w AnalyzeSearchResults _ c2 l2) as [[[an|e|] c3] l3];
        try discriminate.
      cbn. intros [= <- _ _]. reflexivity.
    + exists (failed (VStr query) e), c, log'.
      split; [reflexivity|]. split; [exact Hrun|]. right. right.
      split; [first [exact E | reflexivity]|]. split; [reflexivity|].
      exists e. split; [exact Hb | reflexivity].
Qed.

(** [search] never rejects for a query string: it returns the cached
    response and does nothing else, or a fresh response that is now cached,
    or, when its [try] block threw, the failure record for that exception
    with the cache as it was. *)
Theorem search_never_rejects
    (w : world) (query : jsstring) (options : value) (c : cache) (log : list event) :
  exists key r c' log',
    cacheKey (VStr query) options = Ok key
    /\ search w (VStr query) options c log = (Ok r, c', log')
    /\ ((c !! key = Some r /\ c' = c /\ log' = log)
        \/ (c !! key = None /\ c' = <[key := r]> c
            /\ get r (lit "query") = Ok (VStr query))
        \/ (c !! key = None /\ c' = c
            /\ exists message,
                 search_body w key (VStr query) (default_options options) c log
                 = (Throw message, c, log')
                 /\ r = failed (VStr query) message)).
Proof. apply search_never_rejects_run. Qed.


Lemma relevant_results_run (w : world) (items : list value) (c : cache) (log : list event)
    (kept : list value) (c' : cache) (log' : list event) :
  map_m relevant_result items c log = (Ok kept, c', log') ->
  Forall2 kept_of items kept /\ c' = c /\ log' = log.
Proof.
  revert kept. induction items as [|item items IH]; intros kept; cbn [map_m].
  - intros [= <- <- <-]. repeat split. constructor.
  - unfold bind at 1. unfold relevant_result at 1. unfold bind, lift, ret.
    destruct (get item (lit "title")) as [title|e|] eqn:E1; try discriminate.
    destruct (get item (lit "snippet")) as [snippet|e|] eqn:E2; try discriminate.
    destruct (get item (lit "link")) as [link|e|] eqn:E3; try discriminate.
    destruct (get item (lit "date")) as [date|e|] eqn:E4; try discriminate.
    destruct (map_m relevant_result items c log) as [[[rest|e|] c1] l1] eqn:E;
      try discriminate.
    intros [= <- <- <-]. destruct (IH rest eq_refl) as (H & -> & ->).
    repeat split. constructor; [|exact H].
    exists title, snippet, link, date. auto.
Qed.

(** Of the hits the provider returns, none of them a string,
    [analyzeSearchResults] keeps the first five at most, each reduced to its
    [title], [snippet], [url] (the hit's [link]) and [date]; they are what
    the analysis call is given. (A hit that is a string has the method
    [link] of strings, which is not among the values here.) *)
Theorem analysis_keeps_five_results
    (w : world) (query searchResults : value) (hits : list value)
    (c : cache) (log : list event) (r : value) (c' : cache) (log' : list event) :
  get searchResults (lit "organic") = Ok (VArr hits) ->
  hits <> [] ->
  Forall (fun hit => match hit with VStr _ => False | _ => True end) hits ->
  analyzeSearchResults w query searchResults c log = (Ok r, c', log') ->
  exists results analysis,
    get r (lit "results") = Ok (VArr results)
    /\ length results = Nat.min 5 (length hits)
    /\ Forall2 kept_of (firstn 5 hits) results
    /\ get r (lit "analysis") = Ok analysis
    /\ log' = log ++ [ (Completion AnalyzeSearchResults [query; VArr results],
                        Resolve analysis) ].
Proof.
  intros Horganic Hhits _. unfold analyzeSearchResults. unfold bind at 1, lift at 1.
  rewrite Horganic.
  assert (negb (truthy (VArr hits)) || strict_eq_num (get_opt (VArr hits) (lit "length")) 0
          = false) as ->.
  { unfold get_opt, get.
    replace (jsstring_eqb (lit "length") (lit "length")) with true by reflexivity.
    destruct hits; [congruence | reflexivity]. }
  unfold bind.
  destruct (map_m relevant_result (firstn 5 hits) c log)
    as [[[kept|e|] c1] l1] eqn:E; try discriminate.
  apply (relevant_results_run w) in E as (Hkept & -> & ->).
  unfold callLLM.
  destruct (truthy (OPENAI_API_KEY w)); [|discriminate].
  unfold external.
  destruct (answer w (length log) _) as [analysis|e] eqn:Ea; [|discriminate].
  cbn. intros [= <- <- <-].
  exists kept, analysis. split; [reflexivity|].
  split; [rewrite <- (Forall2_length _ _ _ Hkept); apply length_firstn|].
  split; [exact Hkept|]. split; reflexivity.
Qed.

Lemma analysis_keeps_five_results_witness :
  let w := flaky_world (Resolve VNull) in
  get seven_hits (lit "organic") <> Ok (VArr [])
  /\ exists r results log',
       analyzeSearchResults w (VStr (lit "a")) seven_hits ∅ [] = (Ok r, ∅, log')
       /\ get r (lit "results") = Ok (VArr results)
       /\ length results = 5%nat.
Proof.
  intros w. split; [discriminate|].
  destruct (analysis_keeps_five_results w (VStr (lit "a")) seven_hits
              (match get seven_hits (lit "organic") with Ok (VArr l) => l | _ => [] end)
              ∅ [] (resolution (analyzeSearchResults w (VStr (lit "a")) seven_hits ∅ []).1.1)
              ∅ (analyzeSearchResults w (VStr (lit "a")) seven_hits ∅ []).2)
    as (results & analysis & Hr & Hn & _).
  - reflexivity.
  - discriminate.
  - repeat constructor.
  - vm_compute. reflexivity.
  - eexists _, results, _. split; [vm_compute; reflexivity|]. split; [exact Hr | exact Hn].
Defined.

(** With the credential set, a search whose provider answer has no hits (no
    [organic] field, or an empty one) returns the same "web search is
    disabled" response as a search without credential, and caches it. *)
Theorem empty_answer_reads_as_disabled
    (w : world) (query : jsstring) (c : cache) (log : list event)
    (found organic : value) :
  let request := SerperSearch (VStr query) (VNum 10) (VStr (lit "en")) (VStr (lit "us")) in
  let key := query ++ lit "-{}" in
  truthy (SERPER_API_KEY w) = true ->
  c !! key = None ->
  answer w (length log) request = Resolve found ->
  get found (lit "organic") = Ok organic ->
  truthy organic = false \/ organic = VArr [] ->
  search w (VStr query) VUndefined c log
  = (Ok (unavailable (VStr query)), <[key := unavailable (VStr query)]> c,
     log ++ [(request, Resolve found)]).
Proof.
  intros request key Hkey Hc Hfound Horganic Hempty.
  unfold search, bind, lift, get_state. rewrite cacheKey_string.
  change (query ++ lit "-" ++ default (lit "undefined")
                                (JSON_stringify (default_options VUndefined))) with key.
  rewrite Hc. unfold search_miss, try_catch, search_body, bind.
  unfold searchWithSerper. rewrite Hkey. cbn [negb default_options].
  unfold bind, lift. cbn [get assoc default]. cbn [js_or truthy].
  unfold external. fold request. rewrite Hfound.
  unfold analyzeSearchResults, bind, lift. rewrite Horganic.
  assert (negb (truthy organic) || strict_eq_num (get_opt organic (lit "length")) 0 = true)
    as ->.
  { destruct Hempty as [-> | ->]; reflexivity. }
  reflexivity.
Qed.

Lemma empty_answer_reads_as_disabled_witness :
  let w := {| answer := fun _ _ => Resolve (VObj [ (lit "organic", VArr []) ]);
              clock := fun _ => lit "2024-01-01T00:00:00.000Z";
              SERPER_API_KEY := VStr (lit "serper-key");
              OPENAI_API_KEY := VStr (lit "openai-key") |} in
  exists c' log',
    search w (VStr (lit "a")) VUndefined ∅ []
    = (Ok (unavailable (VStr (lit "a"))), c', log')
    /\ length log' = 1%nat.
Proof.
  intros w. eexists _, _. split.
  - apply (empty_answer_reads_as_disabled w (lit "a") ∅ []
             (VObj [ (lit "organic", VArr []) ]) (VArr []));
      first [reflexivity | right; reflexivity].
  - reflexivity.
Defined.

Lemma finish_keeps (w : world) (c0 : cache) (query : value)
    (c : cache) (log : list event) r c' log' :
  c0 ⊆ c -> finish w (start c0 query) c log = (r, c', log') -> c0 ⊆ c'.
Proof.
  intros Hsub. unfold start.
  destruct (cacheKey query VUndefined) as [key|e|]; cbn [finish].
  - destruct (c0 !! key) as [cached|] eqn:E.
    + intros [= _ <- _]. exact Hsub.
    + unfold bind.
      destruct (search_miss_run w key query VUndefined c log)
        as (x & c1 & l1 & -> & [[-> _] | (e & -> & _)]); intros [= _ <- _].
      * apply map_subseteq_spec. intros k v Hk.
        destruct (decide (k = key)) as [->|Hne]; [congruence|].
        rewrite lookup_insert_ne by congruence.
        eapply lookup_weaken; eauto.
      * exact Hsub.
  - intros [= _ <- _]. exact Hsub.
  - intros [= _ <- _]. exact Hsub.
Qed.

Lemma finish_all_keeps (w : world) (c0 : cache) (queries : list value)
    (c : cache) (log : list event) r c' log' :
  c0 ⊆ c -> map_m (finish w) (map (start c0) queries) c log = (r, c', log') -> c0 ⊆ c'.
Proof.
  revert c log r c' log'. induction queries as [|q queries IH];
    intros c log r c' log' Hsub; cbn [map map_m].
  - intros [= _ <- _]. exact Hsub.
  - unfold bind at 1.
    destruct (finish w (start c0 q) c log) as [[[x|e|] c1] l1] eqn:E;
      apply finish_keeps in E; try exact Hsub; try (intros [= _ <- _]; exact E).
    unfold bind.
    destruct (map_m (finish w) (map (start c0) queries) c1 l1) as [[[xs|e|] c2] l2] eqn:E2;
      apply IH in E2; try exact E; intros [= _ <- _]; exact E2.
Qed.

Lemma searchMultipleQueries_grows (w : world) (queries : value) (c : cache)
    (log : list event) r c' log' :
  searchMultipleQueries w queries c log = (r, c', log') -> c ⊆ c'.
Proof.
  unfold searchMultipleQueries.
  unfold bind at 1, lift at 1.
  destruct (get queries (lit "length")) as [n|e|]; try (intros [= _ <- _]; reflexivity).
  destruct queries as [| | | | |qs|]; try (intros [= _ <- _]; reflexivity).
  unfold bind at 1. unfold search_all. unfold bind at 1, get_state at 1. unfold bind at 1.
  destruct (map_m (finish w) (map (start c) qs) c log) as [[[rs|e|] c1] l1] eqn:E;
    apply finish_all_keeps in E; try reflexivity; try (intros [= _ <- _]; exact E).
  unfold lift. destruct (settle rs) as [vs|e|]; try (intros [= _ <- _]; exact E).
  unfold synthesizeMultipleSearches, bind.
  pose proof (keeps_callLLM (S:=cache) w SynthesizeMultipleSearches
                [VArr qs; VArr vs] c1 l1) as K.
  destruct (callLLM w SynthesizeMultipleSearches [VArr qs; VArr vs] c1 l1)
    as [[[sy|e|] c2] l2]; cbn in K; subst c2; intros [= _ <- _]; exact E.
Qed.

(** Neither [search] nor [searchMultipleQueries] ever removes or replaces an
    entry of the cache they start with, however they end. *)
Theorem cache_only_grows (w : world) :
  (forall (query options : value) (c : cache) (log : list event) r c' log',
      search w query options c log = (r, c', log') -> c ⊆ c')
  /\ (forall (queries : value) (c : cache) (log : list event) r c' log',
      searchMultipleQueries w queries c log = (r, c', log') -> c ⊆ c').
Proof.
  split.
  - intros query options c log r c' log' Hrun. now apply search_run in Hrun.
  - apply searchMultipleQueries_grows.
Qed.

Lemma cache_only_grows_witness :
  let w := flaky_world (Resolve VNull) in
  let c : cache := {[ lit "a-{}" := VStr (lit "stale") ]} in
  c ⊆ (searchMultipleQueries w three_queries c []).1.2.
Proof.
  intros w c.
  destruct (searchMultipleQueries w three_queries c []) as [[r c'] log'] eqn:Hrun.
  exact (proj2 (cache_only_grows w) three_queries c [] r c' log' Hrun).
Defined.

(** ** Cached responses *)

Lemma operations_keep_entries w ops c log r c' log' :
  operations w ops c log = (r, c', log') -> c ⊆ c'.
Proof.
  revert c log. induction ops as [|op ops IH]; intros c log; cbn [operations].
  - intros [= _ <- _]. reflexivity.
  - rewrite bind_run. unfold operate.
    destruct op as [query options | queries].
    + destruct (search w query options c log) as [[r1 c1] l1] eqn:E.
      apply search_run in E as [E _]. intros H. apply IH in H. etrans; eauto.
    + destruct (searchMultipleQueries w queries c log) as [[r1 c1] l1] eqn:E.
      apply searchMultipleQueries_grows in E. intros H. apply IH in H. etrans; eauto.
Qed.

Lemma operations_run w ops c log :
  exists c' log', operations w ops c log = (Ok tt, c', log').
Proof.
  revert c log. induction ops as [|op ops IH]; intros c log; cbn [operations].
  - eexists _, _. reflexivity.
  - rewrite bind_run. unfold operate.
    destruct op as [query options | queries].
    + destruct (search w query options c log) as [[r1 c1] l1]. apply IH.
    + destruct (searchMultipleQueries w queries c log) as [[r1 c1] l1]. apply IH.
Qed.

Lemma analyzed_succeeded w q found c log r c' log' :
  analyzeSearchResults w q found c log = (Ok r, c', log') -> succeeded r = true.
Proof.
  unfold analyzeSearchResults. rewrite bind_run. unfold lift at 1.
  destruct (get found (lit "organic")) as [organic|e|]; try discriminate.
  destruct (negb (truthy organic) || _).
  { intros [= <- _ _]. reflexivity. }
  destruct organic; try discriminate.
  rewrite bind_run.
  destruct (map_m relevant_result _ c log) as [[[kept|e|] c1] l1]; try discriminate.
  rewrite bind_run.
  destruct (callLLM w AnalyzeSearchResults _ c1 l1) as [[[analysis|e|] c2] l2];
    try discriminate.
  rewrite bind_run. cbn [now ret]. intros [= <- _ _]. reflexivity.
Qed.

Lemma search_body_succeeded w key q o c log r c' log' :
  search_body w key q o c log = (Ok r, c', log') -> succeeded r = true.
Proof.
  unfold search_body. rewrite bind_run.
  destruct (searchWithSerper w q o c log) as [[[found|e|] c1] l1]; try discriminate.
  rewrite bind_run.
  destruct (analyzeSearchResults w q found c1 l1) as [[[analyzed|e|] c2] l2] eqn:E;
    try discriminate.
  apply analyzed_succeeded in E. unfold bind, get_state, put_state, ret.
  now intros [= <- _ _].
Qed.

Lemma settle_cons (x : outcome value) (rs : list (outcome value)) (vs : list value) :
  settle (x :: rs) = Ok vs ->
  exists v rest, x = Ok v /\ settle rs = Ok rest /\ vs = v :: rest.
Proof.
  destruct x as [v|e|]; cbn [settle]; try discriminate.
  destruct (settle rs) as [rest|e|]; try discriminate.
  intros [= <-]. eauto.
Qed.

Lemma finish_all_cons w c0 q queries c log rs c' log' :
  map_m (finish w) (map (start c0) (q :: queries)) c log = (Ok rs, c', log') ->
  exists x xs c1 l1,
    finish w (start c0 q) c log = (Ok x, c1, l1)
    /\ map_m (finish w) (map (start c0) queries) c1 l1 = (Ok xs, c', log')
    /\ rs = x :: xs.
Proof.
  cbn [map map_m]. rewrite bind_run.
  destruct (finish w (start c0 q) c log) as [[[x|e|] c1] l1]; try discriminate.
  rewrite bind_run.
  destruct (map_m (finish w) (map (start c0) queries) c1 l1) as [[[xs|e|] c2] l2] eqn:E;
    try discriminate.
  intros [= <- <- <-]. eexists _, _, _, _. repeat split. exact E.
Qed.

(** A query that is cached when the batch starts is answered from the
    cache. *)
Lemma finish_all_hit w c0 queries c log rs c' log' vs (i : nat) q key r :
  map_m (finish w) (map (start c0) queries) c log = (Ok rs, c', log') ->
  settle rs = Ok vs ->
  queries !! i = Some q -> cacheKey q VUndefined = Ok key -> c0 !! key = Some r ->
  vs !! i = Some r.
Proof.
  revert i c log rs vs. induction queries as [|q0 queries IH]; intros i c log rs vs Hrun Hs Hq;
    [discriminate Hq|].
  intros Hk Hc.
  apply finish_all_cons in Hrun as (x & xs & c1 & l1 & Hx & Hxs & ->).
  apply settle_cons in Hs as (v & rest & -> & Hrest & ->).
  destruct i as [|i]; cbn [lookup list_lookup] in Hq |- *.
  - injection Hq as ->. unfold start in Hx. rewrite Hk, Hc in Hx. cbn [finish] in Hx.
    now injection Hx as <- _ _.
  - eapply IH; eauto.
Qed.

(** What a batch leaves in the cache. *)
Lemma finish_all_sets w c0 queries c log rs c' log' vs :
  map_m (finish w) (map (start c0) queries) c log = (Ok rs, c', log') ->
  settle rs = Ok vs ->
  c' = batch_sets c0 c (zip queries vs).
Proof.
  revert c log rs vs. induction queries as [|q queries IH]; intros c log rs vs Hrun Hs.
  - injection Hrun as <- <- _. injection Hs as <-. reflexivity.
  - apply finish_all_cons in Hrun as (x & xs & c1 & l1 & Hx & Hxs & ->).
    apply settle_cons in Hs as (v & rest & -> & Hrest & ->).
    rewrite (IH _ _ _ _ Hxs Hrest). unfold batch_sets. cbn [zip zip_with fold_left fst snd].
    f_equal. unfold start in Hx.
    destruct (cacheKey q VUndefined) as [key|e|]; cbn [finish] in Hx; try discriminate Hx.
    destruct (c0 !! key) as [cached|].
    + now injection Hx as _ <- _.
    + rewrite bind_run in Hx.
      destruct (search_miss_run w key q VUndefined c log)
        as (r & c2 & l2 & Hmiss & [[-> Hbody] | (e & -> & -> & _)]);
        rewrite Hmiss in Hx; injection Hx as <- <- _.
      * apply search_body_succeeded in Hbody. now rewrite Hbody.
      * reflexivity.
Qed.

Lemma search_all_run w queries c log vs c' log' :
  search_all w queries c log = (Ok vs, c', log') ->
  exists rs,
    map_m (finish w) (map (start c) queries) c log = (Ok rs, c', log')
    /\ settle rs = Ok vs.
Proof.
  unfold search_all. rewrite bind_run. cbn [get_state]. rewrite bind_run.
  destruct (map_m (finish w) (map (start c) queries) c log) as [[[rs|e|] c1] l1];
    try discriminate.
  unfold lift. destruct (settle rs) as [xs|e|] eqn:E; try discriminate.
  intros [= <- <- <-]. exists rs. split; [reflexivity | exact E].
Qed.



Lemma relevant_results_silent (items : list value) (c : cache) (log : list event) :
  (map_m relevant_result items c log).2 = log.
Proof.
  induction items as [|item items IH]; cbn [map_m]; [reflexivity|].
  unfold bind at 1. unfold relevant_result at 1. unfold bind, lift, ret.
  destruct (get item (lit "title")) as [title|e|]; try reflexivity.
  destruct (get item (lit "snippet")) as [snippet|e|]; try reflexivity.
  destruct (get item (lit "link")) as [link|e|]; try reflexivity.
  destruct (get item (lit "date")) as [date|e|]; try reflexivity.
  destruct (map_m relevant_result items c log) as [[[rest|e|] c1] l1]; exact IH.
Qed.

Lemma analyze_log (w : world) (query found : value) (c : cache) (log : list event) :
  exists rest, (analyzeSearchResults w query found c log).2 = log ++ rest.
Proof.
  unfold analyzeSearchResults, bind, lift.
  destruct (get found (lit "organic")) as [organic|e|]; try (exists []; now rewrite app_nil_r).
  destruct (negb (truthy organic) || _); [exists []; now rewrite app_nil_r|].
  destruct organic; try (exists []; now rewrite app_nil_r).
  pose proof (relevant_results_silent (firstn 5 elems) c log) as Hs.
  destruct (map_m relevant_result (firstn 5 elems) c log) as [[[kept|e|] c1] l1];
    cbn [snd] in Hs; subst l1; try (exists []; now rewrite app_nil_r).
  unfold callLLM. destruct (truthy (OPENAI_API_KEY w)).
  - unfold external. destruct (answer w (length log) _); eexists; reflexivity.
  - exists []. now rewrite app_nil_r.
Qed.

(** [clearCache] forgets every response: with the credential set, the next
    [search] asks the provider again, whatever the cache held, and the cache
    then holds at most the response to that search. *)
Theorem cleared_cache_asks_again
    (w : world) (query : jsstring) (options : value) (fields : list (jsstring * value))
    (c : cache) (log : list event) :
  truthy (SERPER_API_KEY w) = true ->
  default_options options = VObj fields ->
  exists key r c' num hl gl answered rest,
    cacheKey (VStr query) options = Ok key
    /\ (do* clearCache in search w (VStr query) options) c log
       = (Ok r, c', log ++ (SerperSearch (VStr query) num hl gl, answered) :: rest)
    /\ (c' = ∅ \/ c' = {[ key := r ]}).
Proof.
  intros Hkey Hoptions.
  destruct (search_never_rejects_run w query options ∅ log)
    as (key & r & c' & log' & Hk & Hrun & Hcase).
  exists key, r, c'.
  assert (exists num hl gl answered rest x c1,
             search_body w key (VStr query) (VObj fields) ∅ log
             = (x, c1, log ++ (SerperSearch (VStr query) num hl gl, answered) :: rest))
    as (num & hl & gl & answered & rest & x & c1 & Hbody).
  { unfold search_body, bind. unfold searchWithSerper. rewrite Hkey. cbn [negb].
    unfold bind, lift. cbn [get]. unfold external.
    set (request := SerperSearch _ _ _ _).
    exists (js_or (default VUndefined (assoc (lit "numResults") fields)) (VNum 10)),
      (js_or (default VUndefined (assoc (lit "language") fields)) (VStr (lit "en"))),
      (js_or (default VUndefined (assoc (lit "country") fields)) (VStr (lit "us"))),
      (answer w (length log) request).
    destruct (answer w (length log) request) as [found|e].
    - pose proof (analyze_log w (VStr query) found ∅ (log ++ [(request, Resolve found)]))
        as Hlog.
      destruct (analyzeSearchResults w (VStr query) found ∅ (log ++ [(request, Resolve found)]))
        as [[[a|e|] c2] l2]; cbn [snd] in Hlog; destruct Hlog as [rest ->];
        rewrite <- app_assoc; eexists rest, _, _; reflexivity.
    - eexists [], _, _. reflexivity. }
  exists num, hl, gl, answered, rest.
  split; [exact Hk|].
  unfold bind at 1. unfold clearCache, put_state.
  rewrite Hrun.
  destruct Hcase as [(Hhit & _) | [(_ & -> & _) | (_ & -> & e & Hb & _)]].
  - rewrite lookup_empty in Hhit. discriminate.
  - split; [|right; apply insert_empty].
    f_equal.
    unfold search, bind, lift, get_state in Hrun. rewrite Hk, lookup_empty in Hrun.
    unfold search_miss, try_catch in Hrun. rewrite Hoptions, Hbody in Hrun.
    destruct x; injection Hrun as _ _ <-; reflexivity.
  - split; [|left; reflexivity].
    rewrite Hoptions, Hbody in Hb. now injection Hb as _ _ <-.
Qed.

Lemma cleared_cache_asks_again_witness :
  let w := flaky_world (Resolve VNull) in
  let c : cache := {[ lit "a-{}" := VStr (lit "stale") ]} in
  exists r c' answered rest,
    (do* clearCache in search w (VStr (lit "a")) VUndefined) c []
    = (Ok r, c', (SerperSearch (VStr (lit "a")) (VNum 10) (VStr (lit "en")) (VStr (lit "us")),
                  answered) :: rest)
    /\ r <> VStr (lit "stale").
Proof.
  intros w c.
  destruct (cleared_cache_asks_again w (lit "a") VUndefined [] c [] eq_refl eq_refl)
    as (key & r & c' & num & hl & gl & answered & rest & Hk & Hrun & _).
  assert (r = resolution ((do* clearCache in search w (VStr (lit "a")) VUndefined) c []).1.1)
    as Hr by (rewrite Hrun; reflexivity).
  assert ((num, hl, gl) = (VNum 10, VStr (lit "en"), VStr (lit "us"))) as [= -> -> ->].
  { apply (f_equal (fun x => hd_error x.2)) in Hrun. vm_compute in Hrun.
    now injection Hrun as <- <- <-. }
  exists r, c', answered, rest. split; [exact Hrun|].
  rewrite Hr. vm_compute. discriminate.
Defined.

Lemma finish_all_length (w : world) (ss : list started) (c : cache) (log : list event)
    rs c' log' :
  map_m (finish w) ss c log = (Ok rs, c', log') -> length rs = length ss.
Proof.
  revert c log rs c' log'. induction ss as [|s ss IH]; intros c log rs c' log'; cbn [map_m].
  - now intros [= <- _ _].
  - unfold bind.
    destruct (finish w s c log) as [[[x|e|] c1] l1]; try discriminate.
    destruct (map_m (finish w) ss c1 l1) as [[[xs|e|] c2] l2] eqn:E; try discriminate.
    intros [= <- _ _]. cbn [length]. f_equal. eapply IH, E.
Qed.

Lemma settle_length (rs : list (outcome value)) (vs : list value) :
  settle rs = Ok vs -> length vs = length rs.
Proof.
  revert vs. induction rs as [|[v|e|] rs IH]; intros vs; cbn [settle]; try discriminate.
  - now intros [= <-].
  - destruct (settle rs) as [xs|e|]; try discriminate.
    intros [= <-]. cbn [length]. f_equal. now apply IH.
Qed.

(** A batch that resolves has one individual result per query, whatever the
    queries, and its last external call is the synthesis call, which is given
    the queries and the individual results; for anything that is not an
    array the batch rejects at once, with no external call and the cache as it
    was. *)
Theorem batch_has_one_result_per_query (w : world) (c : cache) (log : list event) :
  (forall (queries : list value) r c' log',
      searchMultipleQueries w (VArr queries) c log = (Ok r, c', log') ->
      exists results synthesis before,
        r = VObj [ (lit "individualResults", VArr results); (lit "synthesis", synthesis) ]
        /\ length results = length queries
        /\ log' = before ++ [ (Completion SynthesizeMultipleSearches
                                 [VArr queries; VArr results], Resolve synthesis) ])
  /\ (forall (queries : value),
      (forall l, queries <> VArr l) ->
      exists message, searchMultipleQueries w queries c log = (Throw message, c, log)).
Proof.
  split.
  - intros queries r c' log'. unfold searchMultipleQueries.
    unfold bind at 1, lift at 1. cbn [get].
    destruct (jsstring_eqb (lit "length") (lit "length")).
    all: unfold bind at 1; unfold search_all; unfold bind at 1, get_state at 1;
      unfold bind at 1;
      destruct (map_m (finish w) (map (start c) queries) c log) as [[[rs|e|] c1] l1] eqn:E;
      try discriminate;
      apply finish_all_length in E; rewrite length_map in E;
      unfold lift; destruct (settle rs) as [vs|e|] eqn:Es; try discriminate;
      apply settle_length in Es;
      unfold synthesizeMultipleSearches, bind, callLLM;
      (destruct (truthy (OPENAI_API_KEY w)); [|discriminate]);
      unfold external;
      destruct (answer w (length l1) _) as [synthesis|e] eqn:Ea; try discriminate;
      intros [= <- <- <-]; exists vs, synthesis, l1;
      (split; [reflexivity|]); (split; [congruence | reflexivity]).
  - intros queries Hq. unfold searchMultipleQueries, bind, lift.
    destruct queries as [| | | | |l|]; cbn [get];
      try (destruct (jsstring_eqb _ _)); try (eexists; reflexivity);
      now destruct (Hq l).
Qed.

Lemma batch_has_one_result_per_query_witness :
  let w := flaky_world (Resolve VNull) in
  (exists message,
      searchMultipleQueries w (VStr (lit "a, b")) ∅ [] = (Throw message, ∅, []))
  /\ (exists results synthesis c' log',
      searchMultipleQueries w three_queries ∅ []
      = (Ok (VObj [ (lit "individualResults", VArr results);
                    (lit "synthesis", synthesis) ]), c', log')
      /\ length results = 3%nat).
Proof.
  intros w.
  destruct (batch_has_one_result_per_query w ∅ []) as [Hok Hno].
  split.
  - apply Hno. discriminate.
  - assert (resolves (searchMultipleQueries w three_queries ∅ []).1.1 = true) as Hrun
      by (vm_compute; reflexivity).
    apply resolved_run in Hrun.
    destruct (Hok _ _ _ _ Hrun) as (results & synthesis & before & Hr & Hn & _).
    rewrite Hr in Hrun. eexists _, _, _, _. split; [exact Hrun | exact Hn].
Defined.

(** ** Which external calls a run makes *)

Lemma calls_only_silent {S A} (allowed : call -> bool) (m : M S A) :
  (forall s log, (m s log).2 = log) -> calls_only allowed m.
Proof.
  intros H s log r s' log' Hrun. exists []. rewrite app_nil_r.
  specialize (H s log). rewrite Hrun in H. split; [exact H | constructor].
Qed.

Lemma calls_only_ret {S A} allowed (a : A) : calls_only allowed (@ret S A a).
Proof. now apply calls_only_silent. Qed.

Lemma calls_only_throw {S A} allowed e : calls_only allowed (@throw S A e).
Proof. now apply calls_only_silent. Qed.

Lemma calls_only_lift {S A} allowed (o : outcome A) : calls_only allowed (@lift S A o).
Proof. now apply calls_only_silent. Qed.

Lemma calls_only_get_state {S} allowed : calls_only allowed (@get_state S).
Proof. now apply calls_only_silent. Qed.

Lemma calls_only_put_state {S} allowed (s : S) : calls_only allowed (put_state s).
Proof. now apply calls_only_silent. Qed.

Lemma calls_only_now {S} allowed w : calls_only allowed (@now S w).
Proof. now apply calls_only_silent. Qed.

Lemma calls_only_external {S} (allowed : call -> bool) w c :
  allowed c = true -> calls_only allowed (@external S w c).
Proof.
  intros Hc s log r s' log' [= <- <- <-]. eexists. split; [reflexivity|].
  constructor; [exact Hc | constructor].
Qed.

Lemma calls_only_callLLM {S} (allowed : call -> bool) w task args :
  allowed (Completion task args) = true -> calls_only allowed (@callLLM S w task args).
Proof.
  intros Hc. unfold callLLM.
  destruct (truthy _); [now apply calls_only_external | apply calls_only_throw].
Qed.

Lemma calls_only_bind {S A B} allowed (m : M S A) (k : A -> M S B) :
  calls_only allowed m -> (forall a, calls_only allowed (k a)) ->
  calls_only allowed (bind m k).
Proof.
  intros Hm Hk s log r s' log'. unfold bind.
  destruct (m s log) as [[[a|e|] s1] log1] eqn:E; destruct (Hm _ _ _ _ _ E) as (n1 & -> & H1).
  - intros Hrun. destruct (Hk a _ _ _ _ _ Hrun) as (n2 & -> & H2).
    exists (n1 ++ n2). split; [now rewrite app_assoc | now apply Forall_app].
  - intros [= <- <- <-]. exists n1. split; [reflexivity | exact H1].
  - intros [= <- <- <-]. exists n1. split; [reflexivity | exact H1].
Qed.

Lemma calls_only_try_catch {S A} allowed (m : M S A) h :
  calls_only allowed m -> (forall e, calls_only allowed (h e)) ->
  calls_only allowed (try_catch m h).
Proof.
  intros Hm Hh s log r s' log'. unfold try_catch.
  destruct (m s log) as [[[a|e|] s1] log1] eqn:E; destruct (Hm _ _ _ _ _ E) as (n1 & -> & H1).
  - intros [= <- <- <-]. exists n1. split; [reflexivity | exact H1].
  - intros Hrun. destruct (Hh e _ _ _ _ _ Hrun) as (n2 & -> & H2).
    exists (n1 ++ n2). split; [now rewrite app_assoc | now apply Forall_app].
  - intros [= <- <- <-]. exists n1. split; [reflexivity | exact H1].
Qed.

Lemma calls_only_weaken {S A} (allowed allowed' : call -> bool) (m : M S A) :
  (forall c, allowed c = true -> allowed' c = true) ->
  calls_only allowed m -> calls_only allowed' m.
Proof.
  intros Hsub Hm s log r s' log' Hrun.
  destruct (Hm _ _ _ _ _ Hrun) as (new & -> & Hnew).
  exists new. split; [reflexivity|]. eapply Forall_impl; [exact Hnew|].
  intros ev. apply Hsub.
Qed.

Lemma contained_calls_only {S A} (m : M S A) :
  contained m -> calls_only caught_by_search m.
Proof.
  intros Hm s log r s' log' Hrun. destruct (Hm _ _ _ _ _ Hrun) as (new & -> & Hnew).
  exists new. split; [reflexivity|]. apply List.Forall_forall. intros [c x] Hin.
  exact (Hnew c x Hin).
Qed.

Lemma calls_only_searchMultipleQueries (allowed : call -> bool) w queries :
  (forall c, caught_by_search c = true -> allowed c = true) ->
  (forall args, allowed (Completion SynthesizeMultipleSearches args) = true) ->
  calls_only allowed (searchMultipleQueries w queries).
Proof.
  intros Hsearch Hsyn. unfold searchMultipleQueries, synthesizeMultipleSearches.
  apply calls_only_bind; [apply calls_only_lift | intros _].
  destruct queries; try apply calls_only_throw.
  apply calls_only_bind.
  - eapply calls_only_weaken; [exact Hsearch|].
    apply contained_calls_only, contained_search_all.
  - intros results. apply calls_only_bind; [apply calls_only_callLLM, Hsyn | intros ?].
    apply calls_only_ret.
Qed.

(** ** The score of a validation *)

Lemma set_field_fresh (key : jsstring) (v : value) (fields : list (jsstring * value)) :
  key ∉ map fst fields -> set_field key v fields = fields ++ [(key, v)].
Proof.
  induction fields as [|[k x] fields IH]; [reflexivity|].
  cbn [map fst set_field]. intros H. apply not_elem_of_cons in H as [Hk H].
  unfold jsstring_eqb. rewrite bool_decide_eq_false_2 by exact Hk.
  cbn [app]. now rewrite IH.
Qed.

Lemma criterion_checks_app (log new : list event) :
  criterion_checks (log ++ new) = criterion_checks log ++ criterion_checks new.
Proof. apply flat_map_app. Qed.

Lemma criterion_checks_quiet (new : list event) :
  Forall (fun ev : event => negb (is_check ev.1) = true) new -> criterion_checks new = [].
Proof.
  induction 1 as [|[c x] new H _ IH]; [reflexivity|].
  unfold criterion_checks in *. cbn [flat_map fst]. rewrite IH.
  destruct c as [| task args | |]; try reflexivity.
  destruct task; first [reflexivity | discriminate H].
Qed.

Lemma callLLM_resolves {S} (w : world) (task : llm_task) (args : list value)
    (s : S) (log : list event) (x : value) (s' : S) (log' : list event) :
  callLLM w task args s log = (Ok x, s', log') ->
  log' = log ++ [(Completion task args, Resolve x)].
Proof.
  unfold callLLM. destruct (truthy _); [|discriminate].
  rewrite external_run. destruct (answer w (length log) _); [|discriminate].
  now intros [= <- _ <-].
Qed.

Lemma searches_make_no_check (w : world) (queries : value) :
  calls_only (fun c => negb (is_check c)) (searchMultipleQueries w queries).
Proof.
  apply calls_only_searchMultipleQueries; [|reflexivity].
  intros [| [] | |]; first [discriminate | reflexivity].
Qed.

Lemma check_after_searches (w : world) (method : validation_method) (project : value)
    (queries : value) (c : cache) (log : list event) (x : value) (c' : cache)
    (log' : list event) :
  (let* research := searchMultipleQueries w queries in
   callLLM w (Validate method) [project; research]) c log = (Ok x, c', log') ->
  exists new args,
    log' = log ++ new /\ criterion_checks new = [(method, project :: args, Resolve x)].
Proof.
  rewrite bind_run.
  destruct (searchMultipleQueries w queries c log) as [[[research|e|] c1] l1] eqn:E;
    try discriminate.
  destruct (searches_make_no_check w queries _ _ _ _ _ E) as (new & -> & Hnew).
  intros Hrun. apply callLLM_resolves in Hrun as ->.
  exists (new ++ [(Completion (Validate method) [project; research], Resolve x)]),
    [research].
  split; [now rewrite app_assoc|].
  rewrite criterion_checks_app, (criterion_checks_quiet new Hnew). reflexivity.
Qed.

Lemma validateCriterion_check (w : world) (project : value) (criterion : jsstring)
    (c : cache) (log : list event) (x : value) (c' : cache) (log' : list event) :
  validateCriterion w project criterion c log = (Ok x, c', log') ->
  exists new check,
    log' = log ++ new
    /\ criterion_checks new = [check]
    /\ answers_criterion project (criterion, x) check.
Proof.
  unfold validateCriterion, answers_criterion. cbn [fst snd].
  destruct (dispatch criterion) as [method|]; [|discriminate].
  assert (forall args : list value,
             callLLM w (Validate method) (project :: args) c log = (Ok x, c', log') ->
             exists new check,
               log' = log ++ new
               /\ criterion_checks new = [check]
               /\ Some method = Some check.1.1
               /\ head check.1.2 = Some project
               /\ check.2 = Resolve x) as Hplain.
  { intros args Hrun. apply callLLM_resolves in Hrun as ->.
    eexists _, (method, project :: args, Resolve x). repeat split. }
  assert (forall queries,
             (let* research := searchMultipleQueries w queries in
              callLLM w (Validate method) [project; research]) c log = (Ok x, c', log') ->
             exists new check,
               log' = log ++ new
               /\ criterion_checks new = [check]
               /\ Some method = Some check.1.1
               /\ head check.1.2 = Some project
               /\ check.2 = Resolve x) as Hsearched.
  { intros queries Hrun. apply check_after_searches in Hrun as (new & args & -> & Hnew).
    eexists new, (method, project :: args, Resolve x). repeat split. exact Hnew. }
  destruct method; try apply Hplain; cbv beta iota.
  - unfold validateMarketViability. rewrite !bind_run. unfold lift.
    do 4 (destruct (titled project _) as [?|?|]; try discriminate).
    apply Hsearched.
  - unfold validateBestPracticesCompliance, searchBestPractices. rewrite !bind_run.
    unfold lift.
    destruct (get project (lit "title")) as [title|?|]; try discriminate.
    destruct (to_string _) as [domain|?|]; try discriminate.
    apply Hsearched.
Qed.

Lemma validate_each_checks w project criteria results0 c log results c' log' :
  NoDup (map fst results0 ++ criteria) ->
  validate_each w project criteria results0 c log = (Ok results, c', log') ->
  exists new added,
    log' = log ++ new
    /\ results = results0 ++ added
    /\ map fst added = criteria
    /\ Forall2 (answers_criterion project) added (criterion_checks new).
Proof.
  revert results0 c log. induction criteria as [|k criteria IH]; intros results0 c log Hnd;
    cbn [validate_each].
  - intros [= <- _ <-]. exists [], []. rewrite !app_nil_r. repeat split. constructor.
  - rewrite bind_run.
    destruct (validateCriterion w project k c log) as [[[x|e|] c1] l1] eqn:Ek;
      try discriminate.
    apply validateCriterion_check in Ek as (new1 & check & -> & Hcheck & Hanswer).
    assert (k ∉ map fst results0) as Hfresh.
    { apply NoDup_app in Hnd as (_ & Hnd & _). intros Hin. apply (Hnd _ Hin). left. }
    rewrite (set_field_fresh _ _ _ Hfresh).
    intros Hrun. apply IH in Hrun as (new & added & -> & -> & Hkeys & Hall).
    2:{ rewrite map_app, <- app_assoc. exact Hnd. }
    exists (new1 ++ new), ((k, x) :: added).
    rewrite <- !app_assoc. repeat split.
    + cbn [map fst]. now rewrite Hkeys.
    + rewrite criterion_checks_app, Hcheck. now constructor.
Qed.

Lemma uniform_mean (score : Z) (scores : list Z) :
  length scores = 8%nat -> Forall (eq score) scores -> rounded_mean scores = score.
Proof.
  intros Hlen Hall.
  assert (scores = repeat score 8) as ->.
  { do 9 (destruct scores as [|? scores]; try discriminate Hlen).
    repeat match goal with
           | H : Forall _ (_ :: _) |- _ => apply Forall_cons in H as [<- H]
           end.
    reflexivity. }
  unfold rounded_mean. rewrite <- round_div_spec by (cbn; lia).
  unfold round_div, total. cbn [repeat fold_right length].
  change (Z.of_nat 8) with 8.
  symmetry. apply Z.div_unique with (r := 8); lia.
Qed.




(** ** Further properties of the validation agent *)

Lemma criterion_call_search (c : call) : caught_by_search c = true -> criterion_call c = true.
Proof. destruct c as [| [] | |]; try discriminate; reflexivity. Qed.

Lemma calls_only_validateCriterion (w : world) (project : value) (criterion : jsstring) :
  In criterion validationCriteria ->
  calls_only criterion_call (validateCriterion w project criterion).
Proof.
  intros Hin. unfold validateCriterion.
  assert (exists method, dispatch criterion = Some method /\ method <> GenericValidation)
    as (method & -> & Hmethod).
  { cbn in Hin.
    repeat (destruct Hin as [<- | Hin];
            [eexists; split; [vm_compute; reflexivity | discriminate] |]).
    destruct Hin. }
  destruct method; try congruence; try (now apply calls_only_callLLM).
  - unfold validateMarketViability.
    do 4 (apply calls_only_bind; [apply calls_only_lift | intros ?]).
    apply calls_only_bind; [|intros ?; now apply calls_only_callLLM].
    apply calls_only_searchMultipleQueries; [apply criterion_call_search | reflexivity].
  - unfold validateBestPracticesCompliance, searchBestPractices.
    do 2 (apply calls_only_bind; [apply calls_only_lift | intros ?]).
    apply calls_only_bind; [|intros ?; now apply calls_only_callLLM].
    apply calls_only_searchMultipleQueries; [apply criterion_call_search | reflexivity].
Qed.

Lemma calls_only_validate_each (w : world) (project : value) (criteria : list jsstring)
    (results : list (jsstring * value)) :
  (forall criterion, In criterion criteria -> In criterion validationCriteria) ->
  calls_only criterion_call (validate_each w project criteria results).
Proof.
  revert results. induction criteria as [|criterion criteria IH]; intros results Hin;
    cbn [validate_each].
  - apply calls_only_ret.
  - apply calls_only_bind.
    + apply calls_only_validateCriterion, Hin. now left.
    + intros result. apply IH. intros x Hx. apply Hin. now right.
Qed.

(** Whatever the project and however the run ends, the only external calls
    [validateProject] makes are those of its web searches, the eight specific
    validation prompts, the improvement suggestions and the report: every one
    of the eight criteria has a method of its own, and the generic validation
    prompt is never used. *)
Theorem validation_never_uses_the_generic_prompt (w : world) (project : value) :
  calls_only validation_call (validateProject w project).
Proof.
  unfold validateProject.
  apply calls_only_bind; [apply calls_only_now | intros timestamp].
  apply calls_only_bind.
  { eapply calls_only_weaken; [|now apply calls_only_validate_each].
    intros c Hc. unfold criterion_call in Hc. now apply andb_true_iff in Hc as [Hc _]. }
  intros results.
  apply calls_only_bind; [apply calls_only_lift | intros overallScore].
  apply calls_only_bind.
  { destruct (overallScore <? 75); [now apply calls_only_callLLM | apply calls_only_ret]. }
  intros suggestions.
  apply calls_only_bind; [now apply calls_only_callLLM | intros report].
  apply calls_only_ret.
Qed.

Lemma validation_never_uses_the_generic_prompt_witness :
  let log := (validateProject (scored_world 60 None) sample_project ∅ []).2 in
  log <> [] /\ Forall (fun ev : event => validation_call ev.1 = true) log.
Proof.
  intros log. split; [unfold log; vm_compute; discriminate|].
  destruct (validateProject (scored_world 60 None) sample_project ∅ [])
    as [[r c'] log'] eqn:Hrun.
  destruct (validation_never_uses_the_generic_prompt (scored_world 60 None) sample_project
              ∅ [] r c' log' Hrun) as (new & Hlog & Hnew).
  unfold log. cbn [snd]. now rewrite Hlog.
Defined.

(** A run of [validateProject] that resolves ends with the report call. When
    the overall score is below 75 the call before it asks for improvement
    suggestions, and [suggestions] is what that call returned; otherwise no
    suggestions are asked for and [suggestions] is the empty array. *)
Theorem suggestions_only_when_needed
    (w : world) (project : value) (c : cache) (log : list event)
    (r : value) (c' : cache) (log' : list event) :
  validateProject w project c log = (Ok r, c', log') ->
  exists score suggestions report summary before,
    get r (lit "overallScore") = Ok (VNum score)
    /\ get r (lit "suggestions") = Ok suggestions
    /\ get r (lit "report") = Ok report
    /\ Forall (fun ev : event => criterion_call ev.1 = true) before
    /\ if score <? 75
       then exists results,
              log' = log ++ before
                     ++ [ (Completion GenerateImprovementSuggestions [project; VObj results],
                           Resolve suggestions);
                          (Completion GenerateValidationReport [summary], Resolve report) ]
       else suggestions = VArr []
            /\ log' = log ++ before
                      ++ [ (Completion GenerateValidationReport [summary], Resolve report) ].
Proof.
  unfold validateProject. unfold bind at 1. cbn [now].
  unfold bind at 1.
  pose proof (calls_only_validate_each w project validationCriteria [] (fun _ H => H) c log)
    as Heach.
  destruct (validate_each w project validationCriteria [] c log)
    as [[[results|e|] c1] l1] eqn:Ev; try discriminate.
  destruct (Heach _ _ _ eq_refl) as (before & -> & Hbefore).
  unfold bind at 1, lift at 1.
  destruct (calculateOverallScore results) as [score|e|]; try discriminate.
  unfold bind at 1.
  destruct (score <? 75) eqn:Es.
  - unfold callLLM at 1.
    destruct (truthy (OPENAI_API_KEY w)) eqn:Hkey; [|discriminate].
    unfold external at 1.
    destruct (answer w (length (log ++ before)) _) as [suggestions|e] eqn:Ea;
      [|discriminate].
    unfold bind, callLLM. rewrite Hkey. unfold external.
    destruct (answer w _ (Completion GenerateValidationReport _)) as [report|e] eqn:Er;
      [|discriminate].
    intros [= <- <- <-].
    eexists score, suggestions, report, _, before.
    split; [reflexivity|]. split; [reflexivity|]. split; [reflexivity|].
    split; [exact Hbefore|]. rewrite Es.
    exists results. now rewrite <- !app_assoc.
  - unfold ret at 1. unfold bind, callLLM.
    destruct (truthy (OPENAI_API_KEY w)) eqn:Hkey; [|discriminate].
    unfold external.
    destruct (answer w _ (Completion GenerateValidationReport _)) as [report|e] eqn:Er;
      [|discriminate].
    intros [= <- <- <-].
    eexists score, (VArr []), report, _, before.
    split; [reflexivity|]. split; [reflexivity|]. split; [reflexivity|].
    split; [exact Hbefore|]. rewrite Es.
    split; [reflexivity | now rewrite <- !app_assoc].
Qed.

Lemma suggestions_only_when_needed_witness :
  (let w := scored_world 80 None in
   exists r c' log',
     validateProject w sample_project ∅ [] = (Ok r, c', log')
     /\ get r (lit "suggestions") = Ok (VArr [])
     /\ existsb (fun ev : event => is_suggestions ev.1) log' = false)
  /\ (let w := scored_world 60 None in
      exists r c' log' suggestions,
        validateProject w sample_project ∅ [] = (Ok r, c', log')
        /\ get r (lit "suggestions") = Ok suggestions
        /\ suggestions <> VArr []
        /\ existsb (fun ev : event => is_suggestions ev.1) log' = true).
Proof.
  split; intros w.
  - assert (resolves (validateProject w sample_project ∅ []).1.1 = true) as Hrun
      by (vm_compute; reflexivity).
    apply resolved_run in Hrun.
    destruct (suggestions_only_when_needed w sample_project ∅ [] _ _ _ Hrun)
      as (score & suggestions & report & summary & before & Hscore & Hs & _).
    eexists _, _, _. split; [exact Hrun|].
    split; vm_compute; reflexivity.
  - assert (resolves (validateProject w sample_project ∅ []).1.1 = true) as Hrun
      by (vm_compute; reflexivity).
    apply resolved_run in Hrun.
    destruct (suggestions_only_when_needed w sample_project ∅ [] _ _ _ Hrun)
      as (score & suggestions & report & summary & before & Hscore & Hs & _).
    eexists _, _, _, suggestions. split; [exact Hrun|]. split; [exact Hs|].
    split; [|vm_compute; reflexivity].
    intros ->. vm_compute in Hs. discriminate Hs.
Defined.

Lemma round_div_bounds (sum n lo hi : Z) :
  0 < n -> lo * n <= sum <= hi * n -> lo <= round_div sum n <= hi.
Proof.
  intros Hn [Hlo Hhi]. unfold round_div. split.
  - apply Z.div_le_lower_bound; nia.
  - apply Z.lt_succ_r. apply Z.div_lt_upper_bound; nia.
Qed.

Lemma total_bounds (scores : list Z) (lo hi : Z) :
  Forall (fun s => lo <= s <= hi) scores ->
  lo * Z.of_nat (length scores) <= total scores <= hi * Z.of_nat (length scores).
Proof.
  induction 1 as [|s scores Hs _ IH]; unfold total in *; cbn [fold_right length]; [lia|].
  rewrite Nat2Z.inj_succ. nia.
Qed.



(** ** Further properties of the research agent *)

Lemma topic_score_bounds (results : value) : 0 <= topic_score results <= 100.
Proof. unfold topic_score. repeat destruct (truthy _); lia. Qed.

Lemma research_total_bounds (researchResults : list (jsstring * value)) (acc : Z) :
  acc <= fold_left (fun a kv => a + topic_score (snd kv)) researchResults acc
      <= acc + 100 * Z.of_nat (length researchResults).
Proof.
  revert acc. induction researchResults as [|[k r] rest IH]; intros acc;
    cbn [fold_left length snd]; [lia|].
  specialize (IH (acc + topic_score r)). pose proof (topic_score_bounds r).
  rewrite Nat2Z.inj_succ. lia.
Qed.

Lemma research_confidence_bounds (researchResults : list (jsstring * value)) :
  0 <= calculateResearchConfidence researchResults <= 100.
Proof.
  unfold calculateResearchConfidence.
  destruct (0 <? Z.of_nat (length researchResults)) eqn:E; [|lia].
  apply Z.ltb_lt in E. pose proof (research_total_bounds researchResults 0).
  apply (round_div_bounds _ _ 0 100); [exact E | lia].
Qed.

(** For research results that each have [findings] (the function throws on
    one that has none), the research confidence is an integer between 0 and
    100; it is 0 when no topic was researched, and 100 when every topic has
    all four kinds of findings. *)
Theorem research_confidence_within_bounds (researchResults : list (jsstring * value)) :
  Forall (fun kv => has_findings (snd kv)) researchResults ->
  0 <= calculateResearchConfidence researchResults <= 100
  /\ (researchResults = [] -> calculateResearchConfidence researchResults = 0)
  /\ (researchResults <> [] ->
      Forall (fun kv => topic_score (snd kv) = 100) researchResults ->
      calculateResearchConfidence researchResults = 100).
Proof.
  intros _. split; [|split; [now intros ->|]].
  - apply research_confidence_bounds.
  - intros Hne Hall. unfold calculateResearchConfidence.
    assert (0 < Z.of_nat (length researchResults)) as Hn
      by (destruct researchResults; [congruence | cbn [length]; lia]).
    rewrite (proj2 (Z.ltb_lt _ _) Hn).
    assert (forall acc,
               fold_left (fun a kv => a + topic_score (snd kv)) researchResults acc
               = acc + 100 * Z.of_nat (length researchResults)) as ->.
    { clear Hne Hn. induction Hall as [|[k r] rest Hr _ IH]; intros acc;
        cbn [fold_left length snd]; [lia|].
      rewrite IH, Nat2Z.inj_succ. cbn [snd] in Hr. lia. }
    set (n := Z.of_nat (length researchResults)) in *.
    replace (2 * (0 + 100 * n) + n) with (n + 100 * (2 * n)) by lia.
    rewrite Z.div_add by lia. rewrite Z.div_small by lia. lia.
Qed.

Lemma research_confidence_within_bounds_witness :
  let full := VObj [ (lit "findings",
                      VObj [ (lit "webResearch", VObj []);
                             (lit "technicalAnalysis", VObj []);
                             (lit "marketAnalysis", VObj []);
                             (lit "riskAnalysis", VObj []) ]) ] in
  calculateResearchConfidence [ (lit "security", full); (lit "market", full) ] = 100.
Proof.
  intros full.
  apply (research_confidence_within_bounds
           [ (lit "security", full); (lit "market", full) ]).
  - repeat constructor; eexists; (split; [reflexivity|]); split; discriminate.
  - discriminate.
  - repeat constructor.
Defined.

Lemma set_field_keys_known (key : jsstring) (v : value) (fields : list (jsstring * value)) :
  key ∈ map fst fields -> map fst (set_field key v fields) = map fst fields.
Proof.
  induction fields as [|[k x] fields IH]; cbn [map fst set_field].
  - intros H. inversion H.
  - intros H. unfold jsstring_eqb. case_bool_decide as Hk; [reflexivity|].
    cbn [map fst]. f_equal. apply IH.
    apply elem_of_cons in H as [H|H]; [congruence | exact H].
Qed.

Lemma set_field_keys (key : jsstring) (v : value) (fields : list (jsstring * value)) :
  NoDup (map fst fields) ->
  NoDup (map fst (set_field key v fields))
  /\ (forall k, k ∈ map fst (set_field key v fields) <-> k = key \/ k ∈ map fst fields)
  /\ (length fields <= length (set_field key v fields) <= S (length fields))%nat.
Proof.
  intros Hnd. destruct (decide (key ∈ map fst fields)) as [Hin|Hout].
  - assert (length (set_field key v fields) = length fields) as Hlen.
    { rewrite <- (length_map fst), set_field_keys_known, length_map by exact Hin.
      reflexivity. }
    rewrite set_field_keys_known by exact Hin.
    split; [exact Hnd|]. split; [|lia].
    intros k. split; [auto | intros [->|H]; assumption].
  - assert (length (set_field key v fields) = S (length fields)) as Hlen.
    { rewrite <- (length_map fst), set_field_keys_fresh, length_app, length_map by exact Hout.
      cbn [length]. lia. }
    rewrite set_field_keys_fresh by exact Hout.
    split; [|split; [|lia]].
    + apply NoDup_app. split; [exact Hnd|]. split; [|apply NoDup_singleton].
      intros k Hk Hk'. apply list_elem_of_singleton in Hk'. congruence.
    + intros k. rewrite elem_of_app, list_elem_of_singleton. tauto.
Qed.

Lemma when_needed_keys (strategy : value) (flag name : jsstring)
    (analysis : M cache value) (findings : list (jsstring * value))
    (c : cache) (log : list event) findings' c' log' :
  name ∉ map fst findings ->
  when_needed strategy flag name analysis findings c log = (Ok findings', c', log') ->
  map fst findings'
  = map fst findings ++ (if truthy (get_opt strategy flag) then [name] else []).
Proof.
  intros Hfresh. unfold when_needed, bind, lift, get_opt.
  destruct (get strategy flag) as [needed|e|]; try discriminate.
  destruct (truthy needed).
  - destruct (analysis c log) as [[[found|e|] c1] l1]; try discriminate.
    intros [= <- _ _]. now apply set_field_keys_fresh.
  - intros [= <- _ _]. now rewrite app_nil_r.
Qed.

(** The [findings] of a researched topic hold exactly the analyses the
    strategy asked for, in the order web research, technical, market and risk
    analysis; the strategy is what the planning call, the first call of the
    run, answered. *)
Theorem findings_follow_the_strategy
    (w : world) (topic : value) (text : jsstring) (c : cache) (log : list event)
    (r : value) (c' : cache) (log' : list event) :
  researchTopic w topic text c log = (Ok r, c', log') ->
  exists strategy findings,
    answer w (length log) (Completion PlanResearchStrategy [topic]) = Resolve strategy
    /\ get r (lit "strategy") = Ok strategy
    /\ get r (lit "findings") = Ok (VObj findings)
    /\ map fst findings = analyses_asked strategy.
Proof.
  unfold researchTopic. unfold bind at 1. unfold callLLM at 1.
  destruct (truthy (OPENAI_API_KEY w)); [|discriminate].
  unfold external at 1.
  destruct (answer w (length log) (Completion PlanResearchStrategy [topic]))
    as [strategy|e] eqn:Ea; [|discriminate].
  unfold bind at 1.
  match goal with
  | |- context [when_needed ?s ?f ?n ?a [] ?c0 ?l0] =>
      destruct (when_needed s f n a [] c0 l0) as [[[f1|e|] c1] l1] eqn:E1; try discriminate
  end.
  apply when_needed_keys in E1; [|apply not_elem_of_nil].
  unfold bind at 1.
  match goal with
  | |- context [when_needed ?s ?f ?n ?a f1 ?c0 ?l0] =>
      destruct (when_needed s f n a f1 c0 l0) as [[[f2|e|] c2] l2] eqn:E2; try discriminate
  end.
  apply when_needed_keys in E2.
  2:{ rewrite E1. cbn [map fst app]. destruct (truthy _);
        [apply not_elem_of_cons; split; [discriminate | apply not_elem_of_nil]
        | apply not_elem_of_nil]. }
  unfold bind at 1.
  match goal with
  | |- context [when_needed ?s ?f ?n ?a f2 ?c0 ?l0] =>
      destruct (when_needed s f n a f2 c0 l0) as [[[f3|e|] c3] l3] eqn:E3; try discriminate
  end.
  apply when_needed_keys in E3.
  2:{ rewrite E2, E1. cbn [map fst app].
      repeat destruct (truthy _); cbn [app];
        repeat (apply not_elem_of_cons; split; [discriminate|]); apply not_elem_of_nil. }
  unfold bind at 1.
  match goal with
  | |- context [when_needed ?s ?f ?n ?a f3 ?c0 ?l0] =>
      destruct (when_needed s f n a f3 c0 l0) as [[[f4|e|] c4] l4] eqn:E4; try discriminate
  end.
  apply when_needed_keys in E4.
  2:{ rewrite E3, E2, E1. cbn [map fst app].
      repeat destruct (truthy _); cbn [app];
        repeat (apply not_elem_of_cons; split; [discriminate|]); apply not_elem_of_nil. }
  unfold bind.
  destruct (callLLM w SynthesizeTopicFindings _ c4 l4) as [[[synthesis|e|] c5] l5];
    try discriminate.
  intros [= <- _ _]. exists strategy, f4.
  split; [reflexivity|]. split; [reflexivity|]. split; [reflexivity|].
  rewrite E4, E3, E2, E1. unfold analyses_asked, analyses. cbn [flat_map map fst app].
  now rewrite !app_nil_r, <- !app_assoc.
Qed.

Lemma findings_follow_the_strategy_witness :
  let w := strategy_world in
  exists r c' log' findings,
    researchTopic w (VStr (lit "security")) (lit "security") ∅ [] = (Ok r, c', log')
    /\ get r (lit "findings") = Ok (VObj findings)
    /\ map fst findings = [ lit "technicalAnalysis"; lit "riskAnalysis" ].
Proof.
  intros w.
  assert (resolves (researchTopic w (VStr (lit "security")) (lit "security") ∅ []).1.1 = true)
    as Hrun by (vm_compute; reflexivity).
  apply resolved_run in Hrun.
  destruct (findings_follow_the_strategy w _ _ _ _ _ _ _ Hrun)
    as (strategy & findings & Ha & _ & Hf & Hkeys).
  eexists _, _, _, findings. split; [exact Hrun|]. split; [exact Hf|].
  rewrite Hkeys. injection Ha as <-. reflexivity.
Defined.

Lemma research_each_keys (w : world) (topics : list value)
    (researchResults0 : list (jsstring * value)) (c : cache) (log : list event)
    researchResults c' log' :
  NoDup (map fst researchResults0) ->
  research_each w topics researchResults0 c log = (Ok researchResults, c', log') ->
  NoDup (map fst researchResults)
  /\ (forall text, text ∈ map fst researchResults
                   <-> text ∈ map fst researchResults0
                       \/ exists topic, topic ∈ topics /\ to_string topic = Ok text)
  /\ (length researchResults <= length researchResults0 + length topics)%nat.
Proof.
  revert researchResults0 c log. induction topics as [|topic topics IH];
    intros results0 c log Hnd; cbn [research_each].
  - intros [= <- _ _]. split; [exact Hnd|]. split; [|cbn [length]; lia].
    intros text. split; [auto|]. intros [H | (topic & H & _)]; [exact H | inversion H].
  - unfold bind at 1, lift at 1.
    destruct (to_string topic) as [text|e|] eqn:Et; try discriminate.
    destruct (special_key text); [discriminate|].
    unfold bind.
    destruct (researchTopic w topic text c log) as [[[results|e|] c1] l1]; try discriminate.
    intros Hrun.
    destruct (set_field_keys text results results0 Hnd) as (Hnd' & Hkeys & Hlen).
    apply IH in Hrun as (Hnd'' & Hkeys' & Hlen'); [|exact Hnd'].
    split; [exact Hnd''|]. split; [|cbn [length]; lia].
    intros k. rewrite Hkeys', Hkeys. split.
    + intros [[-> | H] | (t & Ht & Hk)]; [right | left | right]; eauto.
      * exists topic. split; [apply list_elem_of_here | exact Et].
      * exists t. split; [now apply list_elem_of_further | exact Hk].
    + intros [H | (t & Ht & Hk)]; [auto|].
      apply elem_of_cons in Ht as [-> | Ht]; [|eauto].
      left. left. congruence.
Qed.

(** A run of [conductResearch] that resolves reports one entry per distinct
    topic: a topic listed twice is researched twice, the later result
    replacing the earlier, while [topicsInvestigated] counts every listed
    topic; the confidence score lies between 0 and 100. *)
Theorem research_is_keyed_by_topic
    (w : world) (topics : list value) (c : cache) (log : list event)
    (r : value) (c' : cache) (log' : list event) :
  conductResearch w (VArr topics) c log = (Ok r, c', log') ->
  exists researchResults metadata confidence,
    get r (lit "individualResearch") = Ok (VObj researchResults)
    /\ NoDup (map fst researchResults)
    /\ (forall text, text ∈ map fst researchResults
                     <-> exists topic, topic ∈ topics /\ to_string topic = Ok text)
    /\ (length researchResults <= length topics)%nat
    /\ get r (lit "researchMetadata") = Ok metadata
    /\ get metadata (lit "topicsInvestigated") = Ok (VNum (Z.of_nat (length topics)))
    /\ get metadata (lit "confidenceScore") = Ok (VNum confidence)
    /\ 0 <= confidence <= 100.
Proof.
  unfold conductResearch. unfold bind at 1, lift at 1. cbn [get].
  replace (jsstring_eqb (lit "length") (lit "length")) with true by reflexivity.
  unfold bind at 1.
  destruct (research_each w topics [] c log) as [[[researchResults|e|] c1] l1] eqn:E;
    try discriminate.
  apply research_each_keys in E as (Hnd & Hkeys & Hlen); [|constructor].
  unfold bind.
  destruct (callLLM w SynthesizeResearch _ c1 l1) as [[[synthesis|e|] c2] l2];
    try discriminate.
  cbn [now]. intros [= <- _ _].
  eexists researchResults, _, (calculateResearchConfidence researchResults).
  split; [reflexivity|]. split; [exact Hnd|]. split.
  { intros text. rewrite Hkeys. split; [|auto]. intros [H|H]; [inversion H | exact H]. }
  split; [exact Hlen|]. split; [reflexivity|]. split; [reflexivity|].
  split; [reflexivity|]. apply research_confidence_bounds.
Qed.

Lemma research_is_keyed_by_topic_witness :
  let w := strategy_world in
  let topics := [ VStr (lit "security"); VStr (lit "market"); VStr (lit "security") ] in
  exists r c' log' researchResults metadata,
    conductResearch w (VArr topics) ∅ [] = (Ok r, c', log')
    /\ get r (lit "individualResearch") = Ok (VObj researchResults)
    /\ map fst researchResults = [ lit "security"; lit "market" ]
    /\ get r (lit "researchMetadata") = Ok metadata
    /\ get metadata (lit "topicsInvestigated") = Ok (VNum 3).
Proof.
  intros w topics.
  assert (resolves (conductResearch w (VArr topics) ∅ []).1.1 = true) as Hrun
    by (vm_compute; reflexivity).
  apply resolved_run in Hrun.
  destruct (research_is_keyed_by_topic w topics ∅ [] _ _ _ Hrun)
    as (researchResults & metadata & confidence & Hr & _ & _ & _ & Hm & Hn & _).
  eexists _, _, _, researchResults, metadata.
  split; [exact Hrun|]. split; [exact Hr|]. split; [|split; [exact Hm | exact Hn]].
  vm_compute in Hr. now injection Hr as <-.
Defined.

(** ** Further properties of the HTTP handlers *)

Lemma publishes_only_when_quiet {S A} (complete : A -> Prop) (m : M S A) :
  calls_only not_publish m -> publishes_only_when complete m.
Proof.
  intros Hm s log r s' log' Hrun. destruct (Hm _ _ _ _ _ Hrun) as (new & -> & Hnew).
  exists new. split; [reflexivity | now right].
Qed.

Lemma publishes_only_when_bind {S A B} (complete : B -> Prop) (m : M S A) (k : A -> M S B) :
  calls_only not_publish m -> (forall a, publishes_only_when complete (k a)) ->
  publishes_only_when complete (bind m k).
Proof.
  intros Hm Hk s log r s' log'. unfold bind.
  destruct (m s log) as [[[a|e|] s1] log1] eqn:E; destruct (Hm _ _ _ _ _ E) as (n1 & -> & H1).
  - intros Hrun. destruct (Hk a _ _ _ _ _ Hrun) as (n2 & -> & [H2|H2]).
    + exists (n1 ++ n2). split; [now rewrite app_assoc | now left].
    + exists (n1 ++ n2). split; [now rewrite app_assoc | right; now apply Forall_app].
  - intros [= <- <- <-]. exists n1. split; [reflexivity | now right].
  - intros [= <- <- <-]. exists n1. split; [reflexivity | now right].
Qed.

Lemma publishes_only_when_try_catch {S A} (complete : A -> Prop) (m : M S A) h :
  publishes_only_when complete m -> (forall e, calls_only not_publish (h e)) ->
  publishes_only_when complete (try_catch m h).
Proof.
  intros Hm Hh s log r s' log'. unfold try_catch.
  destruct (m s log) as [[[a|e|] s1] log1] eqn:E;
    destruct (Hm _ _ _ _ _ E) as (n1 & -> & H1).
  - intros [= <- <- <-]. exists n1. split; [reflexivity|].
    destruct H1 as [(x & [= <-] & Hx) | H1]; [left; eauto | now right].
  - intros Hrun. destruct (Hh e _ _ _ _ _ Hrun) as (n2 & -> & H2).
    exists (n1 ++ n2). split; [now rewrite app_assoc|]. right.
    destruct H1 as [(x & [=] & _) | H1]. now apply Forall_app.
  - intros [= <- <- <-]. exists n1. split; [reflexivity|].
    destruct H1 as [(x & [=] & _) | H1]. now right.
Qed.

Lemma publish_tail (w : world) (i m a art : value)
    (answer_with : value -> value -> M unit response) :
  (forall notionUrl githubUrl log,
      exists resp, answer_with notionUrl githubUrl tt log = (Ok resp, tt, log)
                   /\ status resp = 200) ->
  publishes_only_when (fun resp => status resp = 200)
    (let* notionUrl := attempt (createNotionPage w i m a) in
     let* githubUrl := attempt (createGitHubRepo w i art m) in
     answer_with notionUrl githubUrl).
Proof.
  intros Hanswer [] log r [] log'. rewrite bind_run. unfold createNotionPage.
  rewrite attempt_run. rewrite bind_run. unfold createGitHubRepo. rewrite attempt_run.
  match goal with
  | |- answer_with ?n ?g tt ?l = _ -> _ =>
      destruct (Hanswer n g l) as (resp & -> & Hs)
  end.
  intros [= <- <-]. eexists. split; [now rewrite <- app_assoc|]. left. eauto.
Qed.

Ltac quiet :=
  repeat first
    [ apply calls_only_ret | apply calls_only_throw | apply calls_only_lift
    | apply calls_only_now
    | apply calls_only_external; reflexivity
    | apply calls_only_callLLM; reflexivity
    | apply calls_only_bind; [|intros ?]
    | match goal with
      | |- calls_only _ (if ?b then _ else _) => destruct b
      | |- calls_only _ (match ?v with _ => _ end) => destruct v
      end ].

Ltac stage_step :=
  apply publishes_only_when_bind; [stages; unfold LLM.stage; quiet | intros ?].

Ltac quiet_step :=
  apply publishes_only_when_bind; [quiet | intros ?].

Lemma publishes_only_when_POST_try (w : world) (req : request) :
  publishes_only_when (fun resp => status resp = 200) (POST_try w req).
Proof.
  unfold POST_try.
  quiet_step. { unfold request_json. quiet. }
  do 3 quiet_step.
  quiet_step. { unfold idea_missing. quiet. }
  match goal with |- publishes_only_when _ (if ?b then _ else _) => destruct b end;
    [apply publishes_only_when_quiet; quiet|].
  quiet_step. { unfold contributors_missing. quiet. }
  match goal with |- publishes_only_when _ (if ?b then _ else _) => destruct b end;
    [apply publishes_only_when_quiet; quiet|].
  stage_step. quiet_step. stage_step. quiet_step. stage_step. quiet_step. stage_step.
  apply (publish_tail w _ _ _ _
           (fun notionUrl githubUrl =>
              let* timestamp := now w in
              ret (Response_json (success_data _ _ _ _ notionUrl githubUrl timestamp) 200))).
  intros notionUrl githubUrl log. eexists. split; reflexivity.
Qed.

Lemma publishes_only_when_POST_basic_try (w : world) (req : request) :
  publishes_only_when (fun resp => status resp = 200) (POST_basic_try w req).
Proof.
  unfold POST_basic_try.
  quiet_step. { unfold request_json. quiet. }
  do 3 quiet_step.
  quiet_step. { unfold idea_missing. quiet. }
  match goal with |- publishes_only_when _ (if ?b then _ else _) => destruct b end;
    [apply publishes_only_when_quiet; quiet|].
  quiet_step. { unfold contributors_missing. quiet. }
  match goal with |- publishes_only_when _ (if ?b then _ else _) => destruct b end;
    [apply publishes_only_when_quiet; quiet|].
  stage_step. quiet_step. stage_step. do 2 quiet_step. stage_step. do 2 quiet_step.
  stage_step. quiet_step.
  quiet_step. { unfold readme_preview. quiet. }
  apply (publish_tail w _ _ _ _
           (fun notionUrl githubUrl =>
              ret (Response_json (success_data_basic _ _ _ _ notionUrl githubUrl) 200))).
  intros notionUrl githubUrl log. eexists. split; reflexivity.
Qed.

(** Nothing is published unless the plan is complete: when a handler answers
    with a status other than 200, or rejects, the run has made neither the
    Notion call nor the GitHub call. Both handlers. *)
Theorem nothing_is_published_on_failure (w : world) (req : request) (log : list event) :
  (forall resp log',
      POST w req tt log = (Ok resp, tt, log') -> status resp <> 200 ->
      exists new, log' = log ++ new
                  /\ Forall (fun ev : event => is_publish ev.1 = false) new)
  /\ (forall resp log',
      POST_basic w req tt log = (Ok resp, tt, log') -> status resp <> 200 ->
      exists new, log' = log ++ new
                  /\ Forall (fun ev : event => is_publish ev.1 = false) new).
Proof.
  assert (forall c, not_publish c = true -> is_publish c = false) as Hnot
    by (intros c; unfold not_publish; now destruct (is_publish c)).
  split; intros resp log' Hrun Hs.
  - assert (publishes_only_when (fun resp => status resp = 200) (POST w req)) as H.
    { apply publishes_only_when_try_catch; [apply publishes_only_when_POST_try|].
      intros e. unfold POST_catch. quiet. }
    destruct (H _ _ _ _ _ Hrun) as (new & -> & [(x & [= <-] & Hx) | Hnew]); [congruence|].
    exists new. split; [reflexivity|]. eapply Forall_impl; [exact Hnew|].
    intros ev. apply Hnot.
  - assert (publishes_only_when (fun resp => status resp = 200) (POST_basic w req)) as H.
    { apply publishes_only_when_try_catch; [apply publishes_only_when_POST_basic_try|].
      intros e. unfold POST_basic_catch. quiet. }
    destruct (H _ _ _ _ _ Hrun) as (new & -> & [(x & [= <-] & Hx) | Hnew]); [congruence|].
    exists new. split; [reflexivity|]. eapply Forall_impl; [exact Hnew|].
    intros ev. apply Hnot.
Qed.

Lemma answered_run (run : outcome response * unit * list event) :
  resolves run.1.1 = true -> run = (Ok (answered run.1.1), tt, run.2).
Proof.
  destruct run as [[[resp|e|] []] l]; cbn; intros H; first [discriminate H | reflexivity].
Qed.

Lemma nothing_is_published_on_failure_witness :
  exists resp log',
    POST_basic bare_list_world todo_request tt [] = (Ok resp, tt, log')
    /\ status resp = 500
    /\ Forall (fun ev : event => is_publish ev.1 = false) log'.
Proof.
  assert (resolves (POST_basic bare_list_world todo_request tt []).1.1 = true) as Hrun
    by (vm_compute; reflexivity).
  apply answered_run in Hrun.
  assert (status (answered (POST_basic bare_list_world todo_request tt []).1.1) = 500) as Hs
    by (vm_compute; reflexivity).
  eexists _, _. split; [exact Hrun|]. split; [exact Hs|].
  destruct (proj2 (nothing_is_published_on_failure bare_list_world todo_request [])
              _ _ Hrun) as (new & Hlog & Hnew); [rewrite Hs; discriminate|].
  cbn [app] in Hlog. now rewrite Hlog.
Defined.

Lemma readable_get (v : value) (k : jsstring) :
  readable v -> exists x, get v k = Ok x.
Proof.
  intros [Hu Hn]. destruct v; try congruence; cbn [get];
    try destruct (jsstring_eqb _ _); eauto.
Qed.

Lemma text_idea_readable (b : value) :
  idea_is_text (get_opt b (lit "project_idea")) = true -> b <> VUndefined /\ b <> VNull.
Proof. intros H. split; intros ->; discriminate H. Qed.

Lemma plan_prompt_readable (i : value) : LLM.plan_prompt i = Ok tt -> readable i.
Proof. intros H. split; intros ->; discriminate H. Qed.

Lemma assign_prompt_planned (m co si : value) :
  LLM.assign_prompt m co si = Ok tt ->
  exists planned, get m (lit "milestones") = Ok (VArr planned).
Proof.
  unfold LLM.assign_prompt. intros H.
  destruct (LLM.array_for _ _ co) as [cs|e|]; try discriminate H. cbn [LLM.and_then] in H.
  destruct (LLM.each LLM.contributor_line cs) as [[]|e|]; try discriminate H.
  cbn [LLM.and_then] in H.
  destruct (get m (lit "milestones")) as [planned|e|]; try discriminate H.
  cbn [LLM.and_then] in H.
  destruct planned; try discriminate H. eauto.
Qed.

Lemma assign_prompt_unplanned (m co si planned : value) :
  get m (lit "milestones") = Ok planned ->
  planned = VUndefined \/ planned = VNull ->
  exists e, LLM.assign_prompt m co si = Throw e.
Proof.
  intros Hlist Hno.
  destruct (LLM.assign_prompt m co si) as [[]|e|] eqn:E.
  - apply assign_prompt_planned in E as [l E]. rewrite Hlist in E.
    destruct Hno as [-> | ->]; discriminate E.
  - eauto.
  - now apply assign_prompt_settled in E.
Qed.

Ltac validated Hu Hn :=
  rewrite bind_run; cbn [request_json ret];
  rewrite bind_run; unfold lift at 1; rewrite (get_readable _ _ Hu Hn);
  rewrite bind_run; unfold lift at 1; rewrite (get_readable _ _ Hu Hn);
  rewrite bind_run; unfold lift at 1; rewrite (get_readable _ _ Hu Hn);
  rewrite bind_run, idea_missing_value;
  repeat match goal with
         | H : _ = _ :> bool |- _ => rewrite H
         end;
  rewrite bind_run, contributors_missing_value;
  repeat match goal with
         | H : _ = _ :> bool |- _ => rewrite H
         end.

(** The enhanced handler answers 200 whenever the request names an idea and
    contributors, the four prompts can be built from the request and from the
    answers of the stages before, the four requests are answered and the
    assignments can be read, whatever the two publish services answer: the
    calls are the four stages and the two publish steps, in that order. The
    plan then has a list under [milestones] (the third prompt maps over it),
    and the response carries that list as [milestones]. *)
Theorem plans_are_answered_200
    (w : world) (b : value) (log : list event) (i m a art : value) :
  let pi := get_opt b (lit "project_idea") in
  let si := get_opt b (lit "special_instructions") in
  let co := get_opt b (lit "contributors") in
  idea_is_blank pi = false ->
  idea_is_text pi = true ->
  contributors_absent co = false ->
  generation w (length log) pi si co i m a art ->
  buildable pi si co i m ->
  readable a ->
  exists resp planned,
    POST w (Body b) tt log
    = (Ok resp, tt, log ++ generation_log w (length log) pi si co i m a art)
    /\ status resp = 200
    /\ body resp
       = jsonify (success_data i m a art
                    (url_of (answer w (length log + 4) (CreateNotionPage i m a)))
                    (url_of (answer w (length log + 5) (CreateGitHubRepo i art m)))
                    (clock w (length log + 6)))
    /\ get m (lit "milestones") = Ok (VArr planned)
    /\ get (body resp) (lit "milestones") = Ok (jsonify (VArr planned)).
Proof.
  intros pi si co Hblank Htext Habsent [Hkey Hi Hm Ha Hart] (P1 & P2 & P3 & P4) Ra.
  subst pi si co.
  destruct (text_idea_readable b Htext) as [Hu Hn].
  pose proof (plan_prompt_readable i P2) as Ri.
  destruct (assign_prompt_planned m _ _ P3) as [planned Hplanned].
  destruct (readable_get i (lit "title") Ri) as [ti Hti].
  destruct (readable_get a (lit "assignments") Ra) as [ta Hta].
  exists (Response_json
            (success_data i m a art
               (url_of (answer w (length log + 4) (CreateNotionPage i m a)))
               (url_of (answer w (length log + 5) (CreateGitHubRepo i art m)))
               (clock w (length log + 6))) 200), planned.
  split; [|split; [reflexivity|split; [reflexivity|split; [exact Hplanned|]]]].
  - unfold POST, try_catch, POST_try. validated Hu Hn.
    replay. unfold generation_log. rewrite <- ?app_assoc. cbn [app]. reflexivity.
  - cbn [body Response_json]. unfold success_data.
    rewrite get_jsonify_obj by apply success_data_keys.
    cbn [assoc].
    replace (jsstring_eqb (lit "milestones") (lit "title")) with false by reflexivity.
    replace (jsstring_eqb (lit "milestones") (lit "objectives")) with false by reflexivity.
    replace (jsstring_eqb (lit "milestones") (lit "scope_assumptions")) with false
      by reflexivity.
    replace (jsstring_eqb (lit "milestones") (lit "milestones")) with true by reflexivity.
    unfold get_opt. rewrite Hplanned. reflexivity.
Qed.

Lemma plans_are_answered_200_witness :
  exists resp log',
    POST unpublished todo_request tt [] = (Ok resp, tt, log')
    /\ status resp = 200
    /\ length log' = 6%nat
    /\ get (body resp) (lit "milestones")
       = Ok (VArr [VObj [ (lit "name", VStr (lit "Setup"));
                          (lit "dependencies", VArr []);
                          (lit "tasks",
                           VArr [VObj [ (lit "id", VStr (lit "T001"));
                                        (lit "required_expertise",
                                         VArr [VStr (lit "DevOps")]) ]]) ]]).
Proof.
  destruct (plans_are_answered_200 unpublished
              (body_of (Some (lit "Build a todo app")) None
                 (Some [VObj [ (lit "name", VStr (lit "A")); (lit "expertise", VArr []) ]]))
              []
              (VObj [ (lit "title", VStr (lit "Todo app"));
                      (lit "objectives", VArr [VStr (lit "Track tasks")]);
                      (lit "scope_assumptions", VArr []);
                      (lit "technical_requirements",
                       VArr [VStr (lit "Runs in a browser")]);
                      (lit "success_criteria", VArr [VStr (lit "Tasks persist")]);
                      (lit "primary_technologies", VArr [VStr (lit "React")]) ])
              (VObj [ (lit "milestones",
                       VArr [VObj [ (lit "name", VStr (lit "Setup"));
                                    (lit "dependencies", VArr []);
                                    (lit "tasks",
                                     VArr [VObj [ (lit "id", VStr (lit "T001"));
                                                  (lit "required_expertise",
                                                   VArr [VStr (lit "DevOps")]) ]]) ]]) ])
              (VObj [ (lit "assignments",
                       VArr [VObj [ (lit "task_id", VStr (lit "T001"));
                                    (lit "assigned_to", VStr (lit "A")) ]]) ])
              (VObj [ (lit "readme", VStr (lit "# Todo app"));
                      (lit "paper_draft", VStr (lit "Abstract")) ]))
    as (resp & planned & Hrun & Hs & _ & Hplanned & Hm);
    try reflexivity; try (split; discriminate);
    try (constructor; reflexivity); try (repeat split; reflexivity).
  injection Hplanned as <-.
  exists resp. eexists. split; [exact Hrun|]. split; [exact Hs|].
  split; [reflexivity | exact Hm].
Defined.

(** Neither handler goes on with a plan that has no list under
    [milestones]. The basic handler reads the length of
    [milestones.milestones] and answers 500 with the TypeError of that read;
    the enhanced handler starts the third stage, whose prompt cannot be
    built, and answers 500 as well. Both have made the first two requests and
    no other call. *)
Theorem basic_handler_needs_the_milestone_list
    (w : world) (b : value) (log : list event) (i m planned : value) :
  let pi := get_opt b (lit "project_idea") in
  let si := get_opt b (lit "special_instructions") in
  let co := get_opt b (lit "contributors") in
  let interpret := Completion InterpretProject [pi; si] in
  let plan := Completion GenerateTasksAndMilestones [i] in
  idea_is_blank pi = false ->
  idea_is_text pi = true ->
  contributors_absent co = false ->
  truthy (OPENAI_API_KEY w) = true ->
  LLM.interpret_prompt pi si = Ok tt ->
  answer w (length log) interpret = Resolve i ->
  LLM.plan_prompt i = Ok tt ->
  answer w (length log + 1) plan = Resolve m ->
  get m (lit "milestones") = Ok planned ->
  planned = VUndefined \/ planned = VNull ->
  (exists resp,
      POST_basic w (Body b) tt log
      = (Ok resp, tt, log ++ [ (interpret, Resolve i); (plan, Resolve m) ])
      /\ status resp = 500
      /\ get (body resp) (lit "error")
         = Ok (VStr (type_error_reading planned (lit "length"))))
  /\ (exists resp,
      POST w (Body b) tt log
      = (Ok resp, tt, log ++ [ (interpret, Resolve i); (plan, Resolve m) ])
      /\ status resp = 500
      /\ has_error resp).
Proof.
  intros pi si co interpret plan Hblank Htext Habsent Hkey P1 Hi P2 Hm Hlist Hno.
  subst pi si co.
  destruct (text_idea_readable b Htext) as [Hu Hn].
  pose proof (plan_prompt_readable i P2) as Ri.
  destruct (readable_get i (lit "title") Ri) as [ti Hti].
  destruct (assign_prompt_unplanned m (get_opt b (lit "contributors"))
              (get_opt b (lit "special_instructions")) planned Hlist Hno) as [e P3].
  assert (length (log ++ [(interpret, Resolve i)]) = (length log + 1)%nat) as Hlen
    by (rewrite length_app; reflexivity).
  split.
  - exists (Response_json
              (VObj [ (lit "error",
                       js_or (VStr (type_error_reading planned (lit "length")))
                             (VStr (lit "Failed to generate project"))) ]) 500).
    split; [|split; [reflexivity|]].
    + unfold POST_basic, try_catch, POST_basic_try. validated Hu Hn.
      rewrite bind_run. stages. rewrite stage_run, P1, Hkey, external_run.
      fold interpret. rewrite Hi.
      rewrite bind_run. unfold lift at 1. rewrite Hti.
      rewrite bind_run. stages. rewrite stage_run, P2, Hkey, external_run, Hlen.
      fold plan. rewrite Hm.
      rewrite bind_run. unfold lift at 1. rewrite Hlist.
      rewrite bind_run. unfold lift at 1.
      destruct Hno as [-> | ->]; cbn [get]; unfold POST_basic_catch, ret;
        rewrite <- app_assoc; reflexivity.
    + cbn [body Response_json]. destruct Hno as [-> | ->]; reflexivity.
  - eexists. split; [|split; [|apply caught_has_error]].
    + unfold POST, try_catch, POST_try. validated Hu Hn.
      rewrite bind_run. stages. rewrite stage_run, P1, Hkey, external_run.
      fold interpret. rewrite Hi.
      rewrite bind_run. unfold lift at 1. rewrite Hti.
      rewrite bind_run. stages. rewrite stage_run, P2, Hkey, external_run, Hlen.
      fold plan. rewrite Hm.
      rewrite bind_run. unfold lift at 1. rewrite Hlist.
      rewrite bind_run. stages. rewrite stage_run, P3.
      unfold POST_catch. rewrite bind_run. unfold now, ret.
      rewrite <- app_assoc. reflexivity.
    + reflexivity.
Qed.

Lemma basic_handler_needs_the_milestone_list_witness :
  (exists resp log',
      POST_basic listless_world todo_request tt [] = (Ok resp, tt, log')
      /\ status resp = 500
      /\ length log' = 2%nat
      /\ get (body resp) (lit "error")
         = Ok (VStr (lit "Cannot read properties of undefined (reading 'length')")))
  /\ (exists resp log',
      POST listless_world todo_request tt [] = (Ok resp, tt, log')
      /\ status resp = 500
      /\ length log' = 2%nat
      /\ get (body resp) (lit "error")
         = Ok (VStr (lit "Cannot read properties of undefined (reading 'map')"))).
Proof.
  destruct (basic_handler_needs_the_milestone_list listless_world
              (body_of (Some (lit "Build a todo app")) None
                 (Some [VObj [ (lit "name", VStr (lit "A")); (lit "expertise", VArr []) ]]))
              []
              (VObj [ (lit "title", VStr (lit "Todo app"));
                      (lit "objectives", VArr [VStr (lit "Track tasks")]);
                      (lit "technical_requirements",
                       VArr [VStr (lit "Runs in a browser")]);
                      (lit "primary_technologies", VArr [VStr (lit "React")]) ])
              (VArr [ VObj [ (lit "name", VStr (lit "Setup")) ] ]) VUndefined)
    as [(resp & Hrun & Hs & He) (resp' & Hrun' & Hs' & _)];
    try reflexivity; try (left; reflexivity).
  split.
  - exists resp. eexists. split; [exact Hrun|]. split; [exact Hs|].
    split; [reflexivity | exact He].
  - exists resp'. eexists. split; [exact Hrun'|]. split; [exact Hs'|].
    split; [reflexivity|].
    unfold todo_request in Hrun'.
    assert (resp' = answered (POST listless_world todo_request tt []).1.1) as ->
      by (unfold todo_request; now rewrite Hrun').
    vm_compute. reflexivity.
Defined.

(** A request whose body is not JSON, or is the JSON value null, is answered
    500, not 400, and a JSON body that is not an object (a number, a string,
    a boolean, an array) is answered 400 for its missing project idea; in all
    these cases no external call is made. Both handlers. *)
Theorem bodies_that_are_not_objects (w : world) (log : list event) :
  (forall req,
      (exists message, req = Malformed message) \/ req = Body VNull ->
      exists resp resp',
        POST w req tt log = (Ok resp, tt, log)
        /\ status resp = 500 /\ has_error resp
        /\ get (body resp) (lit "generation_type") = Ok (VStr (lit "enhanced"))
        /\ POST_basic w req tt log = (Ok resp', tt, log)
        /\ status resp' = 500 /\ has_error resp')
  /\ (forall b,
      readable b -> (forall fields, b <> VObj fields) ->
      exists resp,
        POST w (Body b) tt log = (Ok resp, tt, log)
        /\ POST_basic w (Body b) tt log = (Ok resp, tt, log)
        /\ status resp = 400
        /\ get (body resp) (lit "error") = Ok (VStr (lit "Project idea is required"))).
Proof.
  split.
  - intros req [[message ->] | ->].
    + eexists _, _. split; [reflexivity|]. split; [reflexivity|].
      split; [apply caught_has_error|]. split; [|split; [reflexivity|]].
      * cbn [body Response_json POST_catch]. destruct message; reflexivity.
      * split; [reflexivity | apply caught_has_error].
    + eexists _, _. split; [reflexivity|]. split; [reflexivity|].
      split; [apply caught_has_error|]. split; [reflexivity|].
      split; [reflexivity|]. split; [reflexivity | apply caught_has_error].
  - intros b [Hu Hn] Hobj.
    destruct b as [| | x | z | s | l | fields]; try congruence;
      try (now destruct (Hobj fields));
      (eexists; split; [reflexivity|]; split; [reflexivity|]; split; reflexivity).
Qed.

Lemma bodies_that_are_not_objects_witness :
  let w := published in
  (exists resp, POST w (Malformed (lit "Unexpected end of JSON input")) tt [] = (Ok resp, tt, [])
                /\ status resp = 500)
  /\ (exists resp, POST w (Body (VStr (lit "Build a todo app"))) tt [] = (Ok resp, tt, [])
                   /\ status resp = 400).
Proof.
  intros w. destruct (bodies_that_are_not_objects w []) as [H500 H400]. split.
  - destruct (H500 (Malformed (lit "Unexpected end of JSON input")))
      as (resp & _ & Hrun & Hs & _); [left; eauto|].
    exists resp. split; [exact Hrun | exact Hs].
  - destruct (H400 (VStr (lit "Build a todo app"))) as (resp & Hrun & _ & Hs & _);
      [split; discriminate | discriminate |].
    exists resp. split; [exact Hrun | exact Hs].
Defined.

(** ** Further properties of the knowledge base *)

Lemma to_int32_range (z : Z) : - 2 ^ 31 <= to_int32 z < 2 ^ 31.
Proof.
  unfold to_int32. pose proof (Z.mod_pos_bound (z + 2 ^ 31) (2 ^ 32) eq_refl). lia.
Qed.

Lemma to_int32_congr (a b : Z) :
  (a mod 2 ^ 32 = b mod 2 ^ 32) -> to_int32 a = to_int32 b.
Proof.
  intros H. unfold to_int32. f_equal.
  rewrite <- (Zplus_mod_idemp_l a), <- (Zplus_mod_idemp_l b). now rewrite H.
Qed.

Lemma to_int32_mod (z : Z) : to_int32 z mod 2 ^ 32 = z mod 2 ^ 32.
Proof.
  unfold to_int32.
  rewrite <- Zminus_mod_idemp_l, Z.mod_mod by lia.
  rewrite Zminus_mod_idemp_l. f_equal. lia.
Qed.

Lemma hash_step_31 (hash : Z) (char : N) :
  hash_step hash char = to_int32 (31 * hash + Z.of_N char).
Proof.
  unfold hash_step. apply to_int32_congr.
  rewrite <- Zplus_mod_idemp_l, <- Zminus_mod_idemp_l, to_int32_mod.
  rewrite Zminus_mod_idemp_l, Zplus_mod_idemp_l. f_equal. lia.
Qed.

Lemma hash_range (str : jsstring) (hash : Z) :
  - 2 ^ 31 <= hash < 2 ^ 31 -> - 2 ^ 31 <= fold_left hash_step str hash < 2 ^ 31.
Proof.
  revert hash. induction str as [|c str IH]; intros hash H; cbn [fold_left]; [exact H|].
  apply IH. unfold hash_step. apply to_int32_range.
Qed.

Lemma digit36_spec (d : Z) :
  0 <= d < 36 -> is_base36 (digit36 d) = true /\ digit36_value (digit36 d) = d.
Proof.
  intros H. unfold digit36, is_base36, digit36_value.
  destruct (d <? 10) eqn:E; [apply Z.ltb_lt in E | apply Z.ltb_ge in E].
  - assert (Z.to_N (48 + d) < 58)%N as H1 by lia.
    rewrite (proj2 (N.ltb_lt _ _) H1).
    split; [|lia]. apply orb_true_iff. left. apply andb_true_iff.
    split; apply N.leb_le; lia.
  - assert (58 <= Z.to_N (87 + d))%N as H1 by lia.
    rewrite (proj2 (N.ltb_ge _ _) H1).
    split; [|lia]. apply orb_true_iff. right. apply andb_true_iff.
    split; apply N.leb_le; lia.
Qed.

Lemma from_base36_snoc (s : jsstring) (d : N) :
  from_base36 (s ++ [d]) = 36 * from_base36 s + digit36_value d.
Proof. unfold from_base36. now rewrite fold_left_app. Qed.

Lemma base36_spec (fuel digits : nat) (n : Z) :
  (1 <= digits <= fuel)%nat -> 0 <= n < 36 ^ Z.of_nat digits ->
  from_base36 (base36 fuel n) = n
  /\ forallb is_base36 (base36 fuel n) = true
  /\ (1 <= length (base36 fuel n) <= digits)%nat.
Proof.
  revert digits n. induction fuel as [|fuel IH]; intros digits n Hd Hn; [lia|].
  cbn [base36]. destruct (n <? 36) eqn:E; [apply Z.ltb_lt in E | apply Z.ltb_ge in E].
  - destruct (digit36_spec n) as [H1 H2]; [lia|].
    unfold from_base36. cbn [fold_left forallb length]. rewrite H1, H2.
    split; [lia|]. split; [reflexivity | lia].
  - destruct digits as [|[|digits]]; [lia | change (36 ^ Z.of_nat 1) with 36 in Hn; lia |].
    assert (0 <= n / 36 < 36 ^ Z.of_nat (S digits)) as Hq.
    { split; [apply Z.div_pos; lia|].
      apply Z.div_lt_upper_bound; [lia|].
      replace (Z.of_nat (S (S digits))) with (Z.succ (Z.of_nat (S digits))) in Hn by lia.
      rewrite Z.pow_succ_r in Hn by lia. lia. }
    destruct (IH (S digits) (n / 36)) as (H1 & H2 & H3); [lia | exact Hq |].
    destruct (digit36_spec (n mod 36)) as [H4 H5];
      [apply Z.mod_pos_bound; lia|].
    rewrite from_base36_snoc, H1, H5, forallb_app, H2, length_app. cbn [forallb length].
    rewrite H4. split; [|split; [reflexivity | lia]].
    pose proof (Z.div_mod n 36). lia.
Qed.

(** [hashString] prints the absolute value of a 32-bit hash in base 36: its
    result is never empty, has six characters at most, all of them digits or
    lower-case letters, and reads back as that absolute value; the hash of the
    empty string prints as "0". *)
Theorem hashString_is_a_short_numeral (str : jsstring) :
  let hash := fold_left hash_step str 0 in
  - 2 ^ 31 <= hash < 2 ^ 31
  /\ from_base36 (hashString str) = Z.abs hash
  /\ forallb is_base36 (hashString str) = true
  /\ (1 <= length (hashString str) <= 6)%nat
  /\ hashString [] = lit "0".
Proof.
  intros hash.
  assert (- 2 ^ 31 <= hash < 2 ^ 31) as Hh by (apply hash_range; lia).
  split; [exact Hh|].
  destruct (base36_spec 7 6 (Z.abs hash)) as (H1 & H2 & H3); [lia | |].
  { change (36 ^ Z.of_nat 6) with 2176782336. lia. }
  unfold hashString. fold hash. auto.
Qed.

Lemma hash_step_collision (hash : Z) :
  hash_step (hash_step hash 65) 97 = hash_step (hash_step hash 66) 66.
Proof.
  rewrite !hash_step_31. apply to_int32_congr.
  rewrite <- (Zplus_mod_idemp_l (31 * to_int32 _)), <- (Zmult_mod_idemp_r (to_int32 _)).
  rewrite to_int32_mod, Zmult_mod_idemp_r, Zplus_mod_idemp_l.
  symmetry.
  rewrite <- (Zplus_mod_idemp_l (31 * to_int32 _)), <- (Zmult_mod_idemp_r (to_int32 _)).
  rewrite to_int32_mod, Zmult_mod_idemp_r, Zplus_mod_idemp_l.
  f_equal. lia.
Qed.

Lemma escape_units_pair (c d : N) (rest : jsstring) :
  is_high_surrogate c = true -> is_low_surrogate d = true ->
  escape_units (c :: d :: rest) = c :: d :: escape_units rest.
Proof. intros Hc Hd. cbn [escape_units]. now rewrite Hc, Hd. Qed.

Lemma escape_units_lone (c d : N) (rest : jsstring) :
  is_high_surrogate c = true -> is_low_surrogate d = false ->
  escape_units (c :: d :: rest) = (lit "\u" ++ hex4 c) ++ escape_units (d :: rest).
Proof.
  intros Hc Hd. change (escape_units (c :: d :: rest))
    with (if is_high_surrogate c
          then if is_low_surrogate d then c :: d :: escape_units rest
               else (lit "\u" ++ hex4 c) ++ escape_units (d :: rest)
          else if is_low_surrogate c then (lit "\u" ++ hex4 c) ++ escape_units (d :: rest)
               else escape_unit c ++ escape_units (d :: rest)).
  now rewrite Hc, Hd.
Qed.

Lemma escape_units_plain (c : N) (rest : jsstring) :
  is_high_surrogate c = false ->
  escape_units (c :: rest)
  = (if is_low_surrogate c then lit "\u" ++ hex4 c else escape_unit c) ++ escape_units rest.
Proof.
  intros Hc. change (escape_units (c :: rest))
    with (if is_high_surrogate c
          then match rest with
               | d :: rest' =>
                   if is_low_surrogate d then c :: d :: escape_units rest'
                   else (lit "\u" ++ hex4 c) ++ escape_units rest
               | [] => lit "\u" ++ hex4 c
               end
          else if is_low_surrogate c then (lit "\u" ++ hex4 c) ++ escape_units rest
               else escape_unit c ++ escape_units rest).
  rewrite Hc. now destruct (is_low_surrogate c).
Qed.

Lemma escape_units_app (x : jsstring) :
  exists pre, forall d rest,
    is_low_surrogate d = false ->
    escape_units (x ++ d :: rest) = pre ++ escape_units (d :: rest).
Proof.
  assert (forall n (s : jsstring), (length s <= n)%nat ->
            exists pre, forall d rest,
              is_low_surrogate d = false ->
              escape_units (s ++ d :: rest) = pre ++ escape_units (d :: rest)) as H.
  { clear x. induction n as [|n IH]; intros [|c x] Hn; cbn [length] in Hn; try lia.
    - exists []. reflexivity.
    - exists []. reflexivity.
    - destruct (is_high_surrogate c) eqn:Ehigh.
      + destruct x as [|d' x].
        * exists (lit "\u" ++ hex4 c). intros d rest Hd.
          cbn [app]. now rewrite escape_units_lone.
        * destruct (is_low_surrogate d') eqn:Elow.
          -- destruct (IH x) as [pre Hpre]; [cbn [length] in Hn; lia|].
             exists (c :: d' :: pre). intros d rest Hd.
             cbn [app]. rewrite escape_units_pair by assumption. now rewrite Hpre.
          -- destruct (IH (d' :: x)) as [pre Hpre]; [lia|].
             exists ((lit "\u" ++ hex4 c) ++ pre). intros d rest Hd.
             change ((c :: d' :: x) ++ d :: rest) with (c :: d' :: (x ++ d :: rest)).
             rewrite escape_units_lone by assumption.
             change (d' :: x ++ d :: rest) with ((d' :: x) ++ d :: rest).
             rewrite (Hpre d rest Hd). now rewrite <- !app_assoc.
      + destruct (IH x) as [pre Hpre]; [lia|].
        exists ((if is_low_surrogate c then lit "\u" ++ hex4 c else escape_unit c) ++ pre).
        intros d rest Hd.
        change ((c :: x) ++ d :: rest) with (c :: (x ++ d :: rest)).
        rewrite escape_units_plain by assumption.
        rewrite (Hpre d rest Hd). now rewrite <- !app_assoc. }
  exact (H (length x) x (Nat.le_refl _)).
Qed.

Lemma hash_collision (x y : jsstring) :
  hashString (quote_json (x ++ lit "Aa" ++ y)) = hashString (quote_json (x ++ lit "BB" ++ y)).
Proof.
  unfold hashString, quote_json. do 2 f_equal.
  destruct (escape_units_app x) as [pre Hpre].
  change (lit "Aa" ++ y) with (65%N :: 97%N :: y).
  change (lit "BB" ++ y) with (66%N :: 66%N :: y).
  rewrite !Hpre by reflexivity.
  rewrite !(escape_units_plain 65), !(escape_units_plain 97), !(escape_units_plain 66)
    by reflexivity.
  cbn [is_low_surrogate N.leb N.compare Pos.compare Pos.compare_cont andb].
  change (escape_unit 65) with [65%N]. change (escape_unit 97) with [97%N].
  change (escape_unit 66) with [66%N].
  rewrite !fold_left_app. cbn [fold_left].
  now rewrite hash_step_collision.
Qed.

Lemma distinct_items_share_a_key_run (prefix x y : jsstring) :
  exists key,
    generateKey prefix (VStr (x ++ lit "Aa" ++ y)) = Ok key
    /\ generateKey prefix (VStr (x ++ lit "BB" ++ y)) = Ok key.
Proof.
  unfold generateKey. cbn [JSON_stringify]. eexists. split; [reflexivity|].
  now rewrite hash_collision.
Qed.

(** The key of an item is not injective: for all strings [x] and [y] the
    items [x ++ "Aa" ++ y] and [x ++ "BB" ++ y] get the same key, under each
    of the four prefixes. *)
Theorem distinct_items_share_a_key (prefix x y : jsstring) :
  VStr (x ++ lit "Aa" ++ y) <> VStr (x ++ lit "BB" ++ y)
  /\ exists key,
       generateKey prefix (VStr (x ++ lit "Aa" ++ y)) = Ok key
       /\ generateKey prefix (VStr (x ++ lit "BB" ++ y)) = Ok key.
Proof.
  split.
  - intros [= H]. apply app_inv_head in H. discriminate H.
  - apply distinct_items_share_a_key_run.
Qed.

Section Stores.
Context {double : Type}.
Variable w : world.

Local Abbreviation knowledge := (@KnowledgeBase.knowledge double).
Local Abbreviation store := (KnowledgeBase.store (double:=double) w).
Local Abbreviation storePattern := (KnowledgeBase.storePattern (double:=double) w).

(** Storing two patterns that share a key, whatever they are, leaves one
    entry: it keeps the first pattern and its type, and counts two
    occurrences. *)
Theorem colliding_patterns_are_merged
    (first second : value) (type1 type2 key : jsstring) (kb : knowledge)
    (log : list event) :
  generatePatternKey first = Ok key ->
  generatePatternKey second = Ok key ->
  patterns kb !! key = None ->
  exists entry kb',
    (do* storePattern type1 first in storePattern type2 second) kb log
    = (Ok tt, kb', log)
    /\ patterns kb' !! key = Some entry
    /\ pattern entry = first /\ type entry = type1 /\ occurrences entry = 2
    /\ size (patterns kb') = S (size (patterns kb)).
Proof.
  intros H1 H2 Hnew.
  eexists. eexists.
  unfold bind, KnowledgeBase.storePattern, bind, lift, get_state, now, put_state.
  rewrite H1, H2, Hnew.
  cbn [default from_option id occurrences pattern type projects pattern_confidence
         pattern_lastValidated evidence].
  change (increment 0) with (Ok (A:=Z) 1). cbn [patterns]. rewrite lookup_insert_eq.
  cbn [default from_option id occurrences pattern type projects pattern_confidence
         pattern_lastValidated evidence].
  change (increment 1) with (Ok (A:=Z) 2).
  split; [reflexivity|]. cbn [patterns]. rewrite lookup_insert_eq.
  split; [reflexivity|]. cbn [pattern type occurrences].
  split; [reflexivity|]. split; [reflexivity|]. split; [reflexivity|].
  rewrite insert_insert_eq. now apply map_size_insert_None.
Qed.

(** The store that creates an entry leaves it with strength 1 for a pattern
    and 2 for an insight, a best practice and a technology learning (their
    counters start at 1 and are incremented at once); the map has one entry
    more. *)
Theorem first_store_strength
    (sc : store_call) (key : jsstring) (kb : knowledge) (log : list event) :
  store_key sc = Ok key ->
  strengths_for sc kb !! key = None ->
  exists kb',
    store sc kb log = (Ok tt, kb', log)
    /\ strengths_for sc kb' !! key = Some (first_strength sc)
    /\ size (strengths_for sc kb') = S (size (strengths_for sc kb)).
Proof.
  intros Hkey Hnew.
  destruct sc; cbn [KnowledgeBase.store store_key strengths_for first_strength] in *;
    unfold pattern_strengths, insight_strengths, practice_strengths,
      technology_strengths in *;
    rewrite lookup_fmap in Hnew;
    unfold KnowledgeBase.storePattern, storeInsight, storeBestPractice,
      storeTechnologyLearning, bind, lift, get_state, now, put_state;
    rewrite Hkey;
    match goal with
    | H : _ <$> (?m !! key) = None |- _ =>
        destruct (m !! key) eqn:E; [discriminate H|]
    end;
    cbn [default from_option id occurrences confidence effectiveness reliability];
    [change (increment 0) with (Ok (A:=Z) 1) | change (increment 1) with (Ok (A:=Z) 2) ..];
    eexists; (split; [reflexivity|]);
    cbn [patterns insights bestPractices technologies];
    rewrite lookup_fmap, lookup_insert_eq; (split; [reflexivity|]);
    rewrite !map_size_fmap; now apply map_size_insert_None.
Qed.

(** A store call writes the entry of its key in its own map and nothing
    else: every other entry of that map, the three other maps and the
    learning switch are as they were, however the call ends. *)
Theorem store_writes_one_entry
    (sc : store_call) (key : jsstring) (kb : knowledge) (log : list event) :
  store_key sc = Ok key ->
  let kb' := (store sc kb log).1.2 in
  learningEnabled kb' = learningEnabled kb
  /\ (forall other, other <> key ->
        patterns kb' !! other = patterns kb !! other
        /\ insights kb' !! other = insights kb !! other
        /\ bestPractices kb' !! other = bestPractices kb !! other
        /\ technologies kb' !! other = technologies kb !! other)
  /\ match sc with
     | StorePattern _ _ =>
         insights kb' = insights kb /\ bestPractices kb' = bestPractices kb
         /\ technologies kb' = technologies kb
     | StoreInsight _ _ =>
         patterns kb' = patterns kb /\ bestPractices kb' = bestPractices kb
         /\ technologies kb' = technologies kb
     | StoreBestPractice _ =>
         patterns kb' = patterns kb /\ insights kb' = insights kb
         /\ technologies kb' = technologies kb
     | StoreTechnologyLearning _ =>
         patterns kb' = patterns kb /\ insights kb' = insights kb
         /\ bestPractices kb' = bestPractices kb
     end.
Proof.
  intros Hkey.
  destruct sc; cbn [KnowledgeBase.store store_key] in *;
    unfold KnowledgeBase.storePattern, storeInsight, storeBestPractice,
      storeTechnologyLearning, bind, lift, get_state, now, put_state;
    rewrite Hkey;
    match goal with
    | |- context [increment ?n] => destruct (increment n)
    end; cbn [fst snd patterns insights bestPractices technologies learningEnabled];
    (split; [reflexivity|]); (split; [|auto]);
    intros other Hother; rewrite ?lookup_insert_ne by congruence; auto.
Qed.

Lemma map_of_entries {V} (m : gmap jsstring V) (entries : list (jsstring * V)) :
  entries ≡ₚ map_to_list m -> map_of entries = m.
Proof.
  intros Hperm. unfold map_of.
  assert (forall (l : list (jsstring * V)) (acc : gmap jsstring V),
             fold_left (fun m kv => <[kv.1 := kv.2]> m) l acc
             = foldr (fun kv m => <[kv.1 := kv.2]> m) acc (rev l)) as Hfold.
  { induction l as [|kv l IH]; intros acc; cbn [fold_left rev]; [reflexivity|].
    rewrite IH, foldr_app. reflexivity. }
  rewrite Hfold.
  assert (forall l : list (jsstring * V),
             foldr (fun kv m => <[kv.1 := kv.2]> m) ∅ l
             = (list_to_map l : gmap jsstring V)) as Hlist.
  { induction l as [|[k v] l IH]; cbn [foldr list_to_map]; [reflexivity|].
    now rewrite IH. }
  rewrite Hlist.
  symmetry. apply list_to_map_flip. rewrite <- Hperm. apply Permutation_rev.
Qed.

(** Importing what [exportKnowledge] returned for a knowledge base gives its
    four maps back, in whatever knowledge base it is imported and in whatever
    order the entries are listed; the learning switch of the importing
    knowledge base is kept. *)
Theorem import_restores_an_export
    (kb target : knowledge) (data : exported) (log : list event) :
  exports kb data ->
  importKnowledge data target log
  = (Ok tt,
     {| patterns := patterns kb; insights := insights kb;
        bestPractices := bestPractices kb; technologies := technologies kb;
        learningEnabled := learningEnabled target |}, log).
Proof.
  intros ((l1 & E1 & P1) & (l2 & E2 & P2) & (l3 & E3 & P3) & (l4 & E4 & P4)).
  unfold importKnowledge, bind, get_state, put_state.
  rewrite E1, E2, E3, E4. cbn [from_option].
  now rewrite (map_of_entries _ _ P1), (map_of_entries _ _ P2), (map_of_entries _ _ P3),
    (map_of_entries _ _ P4).
Qed.

End Stores.

Lemma colliding_patterns_are_merged_witness :
  let w := scored_world 80 None in
  let first := VStr (lit "Aa") in
  let second := VStr (lit "BB") in
  first <> second
  /\ generatePatternKey first = generatePatternKey second
  /\ exists kb' entry,
       (do* storePattern w (lit "success") first in storePattern w (lit "failure") second)
         (empty_knowledge (double:=Q)) []
       = (Ok tt, kb', [])
       /\ size (patterns kb') = 1%nat
       /\ patterns kb' !! resolution_key (generatePatternKey first) = Some entry
       /\ pattern entry = first /\ type entry = lit "success" /\ occurrences entry = 2.
Proof.
  intros w first second.
  split; [discriminate|]. split; [vm_compute; reflexivity|].
  destruct (colliding_patterns_are_merged w first second (lit "success") (lit "failure")
              (resolution_key (generatePatternKey first))
              (empty_knowledge (double:=Q)) [])
    as (entry & kb' & Hrun & Hentry & Hp & Ht & Ho & Hsize);
    [vm_compute; reflexivity | vm_compute; reflexivity | reflexivity |].
  exists kb', entry. split; [exact Hrun|]. split; [exact Hsize|]. auto.
Defined.

Lemma first_store_strength_witness :
  let w := scored_world 80 None in
  (exists kb', store w sample_store (empty_knowledge (double:=Q)) [] = (Ok tt, kb', [])
               /\ strengths_for sample_store kb' !! sample_key = Some 1)
  /\ (exists key kb',
         store w (StoreInsight (lit "technical") sample_pattern)
           (empty_knowledge (double:=Q)) [] = (Ok tt, kb', [])
         /\ insight_strengths kb' !! key = Some 2).
Proof.
  intros w. split.
  - destruct (first_store_strength w sample_store sample_key (empty_knowledge (double:=Q)) [])
      as (kb' & Hrun & Hs & _); [vm_compute; reflexivity | reflexivity |].
    exists kb'. split; [exact Hrun | exact Hs].
  - destruct (first_store_strength w (StoreInsight (lit "technical") sample_pattern)
                (resolution_key (store_key (StoreInsight (lit "technical") sample_pattern)))
                (empty_knowledge (double:=Q)) [])
      as (kb' & Hrun & Hs & _); [vm_compute; reflexivity | reflexivity |].
    eexists _, kb'. split; [exact Hrun | exact Hs].
Defined.

Lemma store_writes_one_entry_witness :
  let w := scored_world 80 None in
  let kb' := (store w (StoreBestPractice sample_pattern) stored_twice []).1.2 in
  patterns kb' = patterns stored_twice
  /\ size (bestPractices kb') = 1%nat.
Proof.
  intros w kb'.
  destruct (store_writes_one_entry w (StoreBestPractice sample_pattern)
              (resolution_key (store_key (StoreBestPractice sample_pattern)))
              stored_twice []) as (_ & _ & Hp & _); [vm_compute; reflexivity|].
  split; [exact Hp | vm_compute; reflexivity].
Defined.

Lemma import_restores_an_export_witness :
  let data : exported (double:=Q) :=
    {| exported_patterns := Some (map_to_list (patterns stored_twice));
       exported_insights := Some []; exported_bestPractices := Some [];
       exported_technologies := Some [] |} in
  exists kb',
    (do* clearKnowledge in importKnowledge data) stored_twice [] = (Ok tt, kb', [])
    /\ patterns kb' = patterns stored_twice.
Proof.
  intros data.
  assert (exports stored_twice data) as Hexp.
  { repeat split; eexists; (split; [reflexivity|]); try reflexivity;
      cbn [stored_twice]; vm_compute; reflexivity. }
  eexists. unfold bind at 1. unfold clearKnowledge at 1. unfold bind, get_state, put_state.
  rewrite (import_restores_an_export stored_twice _ data [] Hexp).
  split; reflexivity.
Defined.

Import Orchestrator.

(** ** Further properties of the orchestrator's log *)

Lemma starts_with_head (sub s : jsstring) (c d : N) :
  c <> d -> starts_with (c :: sub) (d :: s) = false.
Proof. intros H. cbn [starts_with]. now rewrite (proj2 (N.eqb_neq c d) H). Qed.

Lemma includes_skip (pre s sub : jsstring) (c : N) :
  Forall (fun d => c <> d) pre -> includes (pre ++ s) (c :: sub) = includes s (c :: sub).
Proof.
  induction 1 as [|d pre Hd _ IH]; [reflexivity|].
  cbn [app]. change (includes (d :: pre ++ s) (c :: sub))
    with (starts_with (c :: sub) (d :: pre ++ s) || includes (pre ++ s) (c :: sub)).
  now rewrite starts_with_head, IH.
Qed.

Lemma line_counts_as_message (timestamp message word : jsstring) :
  forallb iso_char timestamp = true ->
  In word counted_words ->
  includes (lit "[" ++ timestamp ++ lit "] " ++ message) word = includes message word.
Proof.
  intros Hts Hword.
  assert (forall c, In c [114; 118; 101]%N ->
            Forall (fun d => c <> d) (lit "[" ++ timestamp ++ lit "] ")) as Hpre.
  { intros c Hc. apply Forall_app. split; [|apply Forall_app; split].
    - cbn in Hc. repeat constructor; intuition (subst; discriminate).
    - apply Forall_forall. intros d Hd.
      assert (iso_char d = true) as Hiso.
      { rewrite forallb_forall in Hts. apply Hts. now apply list_elem_of_In. }
      cbn in Hc. intros <-. intuition (subst; discriminate).
    - cbn in Hc. repeat constructor; intuition (subst; discriminate). }
  replace (lit "[" ++ timestamp ++ lit "] " ++ message)
    with ((lit "[" ++ timestamp ++ lit "] ") ++ message) by now rewrite <- !app_assoc.
  cbn in Hword. destruct Hword as [<- | [<- | [<- | []]]];
    apply includes_skip, Hpre; cbn; auto.
Qed.

Lemma count_snoc (word line : jsstring) (executionLog : list jsstring) :
  Z.of_nat (length (List.filter (fun l => includes l word) (executionLog ++ [line])))
  = Z.of_nat (length (List.filter (fun l => includes l word) executionLog))
    + (if includes line word then 1 else 0).
Proof.
  rewrite List.filter_app, length_app. cbn [List.filter].
  destruct (includes line word); cbn [length]; lia.
Qed.

(** The timestamp of a log line never counts: with a timestamp as
    [toISOString] prints it, the score after [log(message)] is the score of
    the earlier lines followed by the bare message. *)
Theorem timestamps_do_not_count
    (timestamp message : jsstring) (executionLog : list jsstring) :
  forallb iso_char timestamp = true ->
  calculateConfidenceScore (log timestamp message executionLog)
  = calculateConfidenceScore (executionLog ++ [message]).
Proof.
  intros Hts. unfold calculateConfidenceScore, count_factors, log.
  cbn [researchDepth validationChecks enhancementSteps].
  rewrite !count_snoc.
  rewrite !(line_counts_as_message timestamp message) by (exact Hts || (cbn; auto)).
  reflexivity.
Qed.

Lemma timestamps_do_not_count_witness :
  calculateConfidenceScore
    (log (lit "2024-01-01T00:00:00.000Z") (lit "Starting autonomous research phase") [])
  = 20.
Proof.
  rewrite (timestamps_do_not_count (lit "2024-01-01T00:00:00.000Z")
             (lit "Starting autonomous research phase") []) by reflexivity.
  reflexivity.
Defined.

(** Logging never lowers the confidence score: a further line raises it by
    20, 25 and 15 for the words it contains, up to 100, and leaves it as it is
    when it contains none of them; so a score of 100 stays. *)
Theorem logging_never_lowers_the_score
    (timestamp message : jsstring) (executionLog : list jsstring) :
  let line := lit "[" ++ timestamp ++ lit "] " ++ message in
  let gain :=
    (if includes line (lit "research") then 20 else 0)
    + (if includes line (lit "validation") then 25 else 0)
    + (if includes line (lit "enhancement") then 15 else 0) in
  let before := calculateConfidenceScore executionLog in
  let after := calculateConfidenceScore (log timestamp message executionLog) in
  before <= after /\ after = Z.min 100 (before + gain).
Proof.
  intros line gain before after.
  unfold after, before, calculateConfidenceScore, count_factors, log.
  cbn [researchDepth validationChecks enhancementSteps].
  fold line. rewrite !count_snoc.
  set (r := Z.of_nat (length (List.filter _ executionLog))).
  set (v := Z.of_nat (length (List.filter (fun l => includes l (lit "validation")) _))).
  set (e := Z.of_nat (length (List.filter (fun l => includes l (lit "enhancement")) _))).
  assert (0 <= r /\ 0 <= v /\ 0 <= e) as (Hr & Hv & He) by (unfold r, v, e; lia).
  unfold gain.
  destruct (includes line (lit "research")), (includes line (lit "validation")),
    (includes line (lit "enhancement")); lia.
Qed.

Import Notion.

(** ** The Notion page *)

Lemma chunks_from_spec (fuel i : nat) (blocks : list value) :
  (length blocks - i <= fuel)%nat ->
  exists cs,
    chunks_from fuel i blocks = Some cs
    /\ concat cs = skipn i blocks
    /\ Forall (fun c => (1 <= length c <= 100)%nat) cs
    /\ length cs = ((length blocks - i + 99) / 100)%nat
    /\ (forall k c, nth_error cs k = Some c ->
          c = firstn 100 (skipn (i + 100 * k) blocks)).
Proof.
  revert i. induction fuel as [|fuel IH]; intros i Hfuel.
  - cbn [chunks_from]. destruct (Nat.ltb_spec i (length blocks)) as [Hlt|Hge]; [lia|].
    exists []. repeat split.
    + now rewrite skipn_all2 by lia.
    + constructor.
    + replace (length blocks - i)%nat with 0%nat by lia. reflexivity.
    + intros [|k] c; discriminate.
  - cbn [chunks_from]. destruct (Nat.ltb_spec i (length blocks)) as [Hlt|Hge].
    + destruct (IH (i + chunkSize)%nat) as (cs & -> & Hcat & Hall & Hlen & Hnth).
      { unfold chunkSize. lia. }
      unfold chunkSize in *.
      exists (firstn 100 (skipn i blocks) :: cs). repeat split.
      * cbn [concat]. rewrite Hcat.
        replace (i + 100)%nat with (100 + i)%nat by lia.
        rewrite <- skipn_skipn. apply firstn_skipn.
      * constructor; [|exact Hall].
        rewrite length_firstn, length_skipn. lia.
      * cbn [length]. rewrite Hlen.
        destruct (Nat.le_gt_cases 100 (length blocks - i)) as [Hbig|Hsmall].
        -- replace (length blocks - i + 99)%nat
             with ((length blocks - (i + 100) + 99) + 1 * 100)%nat by lia.
           rewrite Nat.div_add by lia. lia.
        -- replace (length blocks - (i + 100))%nat with 0%nat by lia.
           rewrite (Nat.div_small (0 + 99) 100) by lia.
           apply (Nat.div_unique _ 100 1 (length blocks - i + 99 - 100)); lia.
      * intros [|k] c Hc; cbn [nth_error] in Hc.
        -- injection Hc as <-. now rewrite Nat.mul_0_r, Nat.add_0_r.
        -- rewrite (Hnth k c Hc). f_equal. f_equal. lia.
    + exists []. repeat split.
      * now rewrite skipn_all2 by lia.
      * constructor.
      * replace (length blocks - i)%nat with 0%nat by lia. reflexivity.
      * intros [|k] c; discriminate.
Qed.

Lemma chunks_spec (blocks : list value) :
  exists cs,
    chunks blocks = Some cs
    /\ concat cs = blocks
    /\ Forall (fun c => (1 <= length c <= 100)%nat) cs
    /\ length cs = ((length blocks + 99) / 100)%nat
    /\ (forall k c, nth_error cs k = Some c -> c = firstn 100 (skipn (100 * k) blocks)).
Proof.
  destruct (chunks_from_spec (length blocks) 0 blocks) as (cs & E & Hcat & Hall & Hlen & Hnth);
    [lia|].
  exists cs. rewrite Nat.sub_0_r in Hlen. now repeat split.
Qed.

(** The loop over the blocks always ends. It cuts them into chunks that put
    together give the blocks back in order: [ceil(n / 100)] chunks, none of
    them empty, each of 100 blocks but for the last, which has the rest. *)
Theorem blocks_go_in_chunks_of_100 (blocks : list value) :
  exists cs,
    chunks blocks = Some cs
    /\ concat cs = blocks
    /\ length cs = ((length blocks + 99) / 100)%nat
    /\ Forall (fun c => (1 <= length c <= 100)%nat) cs
    /\ (forall k c, nth_error cs k = Some c ->
          length c = Nat.min 100 (length blocks - 100 * k)).
Proof.
  destruct (chunks_spec blocks) as (cs & E & Hcat & Hall & Hlen & Hnth).
  exists cs. repeat split; try assumption.
  intros k c Hc. rewrite (Hnth k c Hc), length_firstn, length_skipn. reflexivity.
Qed.

Lemma next_done {A B} (o : outcome A) (k : A -> run B) (sent : list request) :
  next (done o) k sent
  = match o with
    | Ok a => k a sent
    | Throw e => (Throw e, sent)
    | Beyond => (Beyond, sent)
    end.
Proof. unfold next, done. now destruct o. Qed.

Lemma next_send {B} (s : service) (r : request) (k : reply -> run B)
    (sent : list request) :
  next (send s r) k sent = k (respond s (length sent) r) (sent ++ [r]).
Proof. reflexivity. Qed.

Lemma append_all_sent (s : service) (pageId : value) (cs : list (list value))
    (sent : list request) :
  exists rest,
    snd (append_all s pageId cs sent) = sent ++ rest
    /\ Forall (fun r => is_append r = true /\ In (appended r) cs) rest.
Proof.
  revert sent. induction cs as [|chunk cs IH]; intros sent.
  - exists []. cbn. now rewrite app_nil_r.
  - cbn [append_all]. rewrite next_done.
    destruct (to_string pageId) as [id| |].
    + rewrite next_send.
      destruct (respond s (length sent) (AppendChildren id chunk)).
      1,2: destruct (IH (sent ++ [AppendChildren id chunk])) as (rest & E & Hall);
        exists (AppendChildren id chunk :: rest); rewrite E, <- app_assoc;
        (split; [reflexivity|]);
        (constructor; [cbn; auto|]);
        (eapply List.Forall_impl; [|exact Hall]); cbn; intros r [? ?]; auto.
      exists [AppendChildren id chunk]. cbn. split; [reflexivity|].
      repeat constructor.
    + exists []. cbn. now rewrite app_nil_r.
    + exists []. cbn. now rewrite app_nil_r.
Qed.

Lemma append_all_quiet (s : service) (pageId : value) (id : jsstring)
    (cs : list (list value)) (sent : list request) :
  to_string pageId = Ok id ->
  (forall n c message, respond s n (AppendChildren id c) <> Failed message) ->
  append_all s pageId cs sent = (Ok tt, sent ++ map (AppendChildren id) cs).
Proof.
  intros Hid Hquiet. revert sent. induction cs as [|chunk cs IH]; intros sent.
  - cbn. now rewrite app_nil_r.
  - cbn [append_all map]. rewrite next_done, Hid, next_send.
    destruct (respond s (length sent) (AppendChildren id chunk)) eqn:E.
    1,2: rewrite IH, <- app_assoc; reflexivity.
    now apply Hquiet in E.
Qed.

(** What the function sends, whatever it is given and however the service
    answers: nothing at all, or one request that creates the page, followed by
    requests that append between 1 and 100 blocks each; and blocks are only
    appended to a page that the service created. *)
Theorem at_most_100_blocks_per_request
    (s : service) (interpretation milestones assignments : value) :
  let sent := snd (createNotionPage s interpretation milestones assignments []) in
  sent = []
  \/ exists title rest,
       sent = CreatePage (NOTION_PARENT_PAGE_ID s) title :: rest
       /\ get interpretation (lit "title") = Ok title
       /\ Forall (fun r => is_append r = true
                           /\ (1 <= length (appended r) <= 100)%nat) rest
       /\ (rest <> [] ->
           exists page,
             respond s 0 (CreatePage (NOTION_PARENT_PAGE_ID s) title) = Accepted page).
Proof.
  cbv zeta. unfold createNotionPage.
  destruct (negb (truthy (NOTION_API_KEY s)) || negb (truthy (NOTION_PARENT_PAGE_ID s)));
    [now left|].
  rewrite next_done.
  destruct (get interpretation (lit "title")) as [title| |]; [|now left..].
  right. exists title. rewrite next_send. cbn [length app].
  destruct (respond s 0 (CreatePage (NOTION_PARENT_PAGE_ID s) title)) as [page|text|message].
  2,3: exists []; cbn; repeat split; [constructor | congruence].
  rewrite next_done.
  destruct (get page (lit "id")) as [pageId| |].
  2,3: exists []; cbn; repeat split; [constructor | congruence].
  rewrite next_done.
  destruct (content_blocks interpretation milestones assignments) as [blocks| |].
  2,3: exists []; cbn; repeat split; [constructor | congruence].
  destruct (chunks_spec blocks) as (cs & Hcs & _ & Hall & _).
  rewrite next_done, Hcs.
  destruct (append_all_sent s pageId cs [CreatePage (NOTION_PARENT_PAGE_ID s) title])
    as (rest & E & Hrest).
  exists rest. split; [|split; [reflexivity|split]].
  - unfold next.
    destruct (append_all s pageId cs [CreatePage (NOTION_PARENT_PAGE_ID s) title])
      as [[[]| |] sent']; cbn in E |- *; exact E.
  - eapply List.Forall_impl; [|exact Hrest]. cbn. intros r [Hr Hin]. split; [exact Hr|].
    rewrite List.Forall_forall in Hall. exact (Hall _ Hin).
  - intros _. now exists page.
Qed.

(** A refused append request does not fail the function. With the page
    created and the blocks built, and as long as no append request is
    rejected outright, the function returns [page.url] after it has sent every
    chunk, in order, to the page's [id], whether or not the service took them. *)
Theorem refused_appends_are_ignored
    (s : service) (interpretation milestones assignments title page pageId : value)
    (id : jsstring) (blocks : list value) :
  truthy (NOTION_API_KEY s) = true ->
  truthy (NOTION_PARENT_PAGE_ID s) = true ->
  get interpretation (lit "title") = Ok title ->
  respond s 0 (CreatePage (NOTION_PARENT_PAGE_ID s) title) = Accepted page ->
  get page (lit "id") = Ok pageId ->
  to_string pageId = Ok id ->
  content_blocks interpretation milestones assignments = Ok blocks ->
  (forall n c message, respond s n (AppendChildren id c) <> Failed message) ->
  exists url cs,
    get page (lit "url") = Ok url
    /\ chunks blocks = Some cs
    /\ concat cs = blocks
    /\ createNotionPage s interpretation milestones assignments []
       = (Ok url, CreatePage (NOTION_PARENT_PAGE_ID s) title :: map (AppendChildren id) cs).
Proof.
  intros Hkey Hparent Htitle Hpage Hid Hstr Hblocks Hquiet.
  destruct (chunks_spec blocks) as (cs & Hcs & Hcat & _).
  assert (exists url, get page (lit "url") = Ok url) as [url Hurl].
  { destruct page; try discriminate; cbn; eauto;
      destruct (jsstring_eqb _ _); eauto. }
  exists url, cs. split; [exact Hurl|split; [exact Hcs|split; [exact Hcat|]]].
  unfold createNotionPage. rewrite Hkey, Hparent. cbn [negb orb].
  rewrite next_done, Htitle, next_send. cbn [length app]. rewrite Hpage.
  rewrite next_done, Hid, next_done, Hblocks, next_done, Hcs.
  unfold next. rewrite (append_all_quiet s pageId id cs _ Hstr Hquiet).
  unfold done. now rewrite Hurl.
Qed.

Lemma refused_appends_are_ignored_witness :
  createNotionPage refusing_service sample_interpretation sample_milestones
    sample_assignments []
  = (Ok (VStr (lit "https://notion.so/page-1")),
     [ CreatePage (VStr (lit "parent")) (VStr (lit "Todo app"));
       AppendChildren (lit "page-1")
         [ heading_2 (lit "Objectives");
           bulleted_list_item (VStr (lit "Track tasks"));
           heading_2 (lit "Scope Assumptions");
           heading_2 (lit "Milestones & Tasks");
           heading_3 (VStr (lit "Setup"));
           bulleted_list_item
             (VStr (lit "Create the repository | Assigned: A | undefined"));
           bulleted_list_item
             (VStr (lit "Write the schema | Assigned: Unassigned | TBD")) ] ]).
Proof.
  assert (forall n c message,
            respond refusing_service n (AppendChildren (lit "page-1") c) <> Failed message)
    as Hquiet by (intros; discriminate).
  destruct (refused_appends_are_ignored refusing_service sample_interpretation
              sample_milestones sample_assignments (VStr (lit "Todo app"))
              (VObj [ (lit "id", VStr (lit "page-1"));
                      (lit "url", VStr (lit "https://notion.so/page-1")) ])
              (VStr (lit "page-1")) (lit "page-1")
              [ heading_2 (lit "Objectives");
                bulleted_list_item (VStr (lit "Track tasks"));
                heading_2 (lit "Scope Assumptions");
                heading_2 (lit "Milestones & Tasks");
                heading_3 (VStr (lit "Setup"));
                bulleted_list_item
                  (VStr (lit "Create the repository | Assigned: A | undefined"));
                bulleted_list_item
                  (VStr (lit "Write the schema | Assigned: Unassigned | TBD")) ]
              eq_refl eq_refl eq_refl eq_refl eq_refl eq_refl eq_refl Hquiet)
    as (url & cs & Hurl & Hcs & _ & E).
  injection Hurl as <-. injection Hcs as <-. exact E.
Defined.

(** The page is created before the plan is read. When building the blocks
    throws, as it does for a plan whose lists are missing, the function
    throws the same error after the page has been created, and appends
    nothing to it. *)
Theorem page_is_created_before_the_plan_is_read
    (s : service) (interpretation milestones assignments title page pageId : value)
    (e : jsstring) :
  truthy (NOTION_API_KEY s) = true ->
  truthy (NOTION_PARENT_PAGE_ID s) = true ->
  get interpretation (lit "title") = Ok title ->
  respond s 0 (CreatePage (NOTION_PARENT_PAGE_ID s) title) = Accepted page ->
  get page (lit "id") = Ok pageId ->
  content_blocks interpretation milestones assignments = Throw e ->
  createNotionPage s interpretation milestones assignments []
  = (Throw e, [CreatePage (NOTION_PARENT_PAGE_ID s) title]).
Proof.
  intros Hkey Hparent Htitle Hpage Hid Hblocks.
  unfold createNotionPage. rewrite Hkey, Hparent. cbn [negb orb].
  rewrite next_done, Htitle, next_send. cbn [length app]. rewrite Hpage.
  now rewrite next_done, Hid, next_done, Hblocks.
Qed.

Lemma page_is_created_before_the_plan_is_read_witness :
  createNotionPage refusing_service (VObj [ (lit "title", VStr (lit "Todo app")) ])
    sample_milestones sample_assignments []
  = (Throw (lit "Cannot read properties of undefined (reading 'forEach')"),
     [ CreatePage (VStr (lit "parent")) (VStr (lit "Todo app")) ]).
Proof.
  exact (page_is_created_before_the_plan_is_read refusing_service
           (VObj [ (lit "title", VStr (lit "Todo app")) ])
           sample_milestones sample_assignments (VStr (lit "Todo app"))
           (VObj [ (lit "id", VStr (lit "page-1"));
                   (lit "url", VStr (lit "https://notion.so/page-1")) ])
           (VStr (lit "page-1"))
           (lit "Cannot read properties of undefined (reading 'forEach')")
           eq_refl eq_refl eq_refl eq_refl eq_refl eq_refl).
Defined.

Lemma each_length {A} (f : A -> outcome (list value)) (g : A -> nat)
    (items : list A) (blocks : list value) :
  (forall x bs, f x = Ok bs -> length bs = g x) ->
  each f items = Ok blocks ->
  length blocks = list_sum (map g items).
Proof.
  intros Hf. revert blocks. induction items as [|x items IH]; intros blocks E.
  - cbn in E. now injection E as <-.
  - cbn [each] in E. unfold and_then in E.
    destruct (f x) as [bs| |] eqn:Ex; try discriminate.
    destruct (each f items) as [more| |]; try discriminate.
    injection E as <-. rewrite length_app, (Hf _ _ Ex), (IH more eq_refl). reflexivity.
Qed.

Lemma milestone_blocks_length (assignments milestone : value) (blocks : list value) :
  milestone_blocks assignments milestone = Ok blocks ->
  length blocks = S (task_count milestone).
Proof.
  unfold milestone_blocks, and_then, task_count. intros E.
  destruct (get milestone (lit "name")) as [name| |]; try discriminate.
  destruct (get milestone (lit "tasks")) as [tasks| |]; try discriminate.
  destruct tasks; try discriminate. cbn [array_of] in E.
  destruct (each _ elems) as [bs| |] eqn:Eeach; try discriminate.
  injection E as <-. cbn [length]. f_equal.
  apply each_length with (g := fun _ => 1%nat) in Eeach.
  - rewrite Eeach. clear. induction elems; cbn; auto.
  - intros task out. destruct (task_block assignments task); try discriminate.
    now intros [= <-].
Qed.

(** Every item of the plan gets one block: the blocks are the three section
    headings, one block per objective, one per scope assumption, one per
    milestone and one per task. *)
Theorem every_item_gets_a_block
    (interpretation milestones assignments : value)
    (objectives assumptions planned blocks : list value) :
  get interpretation (lit "objectives") = Ok (VArr objectives) ->
  get interpretation (lit "scope_assumptions") = Ok (VArr assumptions) ->
  get milestones (lit "milestones") = Ok (VArr planned) ->
  content_blocks interpretation milestones assignments = Ok blocks ->
  length blocks
  = (3 + length objectives + length assumptions + length planned
     + list_sum (map task_count planned))%nat.
Proof.
  intros Ho Ha Hm E. unfold content_blocks in E. rewrite Ho, Ha, Hm in E.
  cbn [and_then array_of] in E.
  destruct (each _ planned) as [bs| |] eqn:Eeach; try discriminate.
  cbn [and_then] in E. injection E as <-.
  apply each_length with (g := fun m => S (task_count m)) in Eeach;
    [|apply milestone_blocks_length].
  repeat first [ rewrite length_app | rewrite length_map | progress cbn [length app] ].
  rewrite Eeach.
  assert (list_sum (map (fun m => S (task_count m)) planned)
          = (length planned + list_sum (map task_count planned))%nat) as ->.
  { clear. induction planned as [|m planned IH]; [reflexivity|].
    cbn [map length]. unfold list_sum in *. cbn [fold_right]. lia. }
  lia.
Qed.

Lemma every_item_gets_a_block_witness :
  exists blocks,
    content_blocks sample_interpretation sample_milestones sample_assignments = Ok blocks
    /\ length blocks = 7%nat.
Proof.
  eexists. split; [reflexivity|].
  exact (every_item_gets_a_block sample_interpretation sample_milestones
           sample_assignments _ _ _ _ eq_refl eq_refl eq_refl eq_refl).
Defined.

Lemma find_assignment_none (entries : list value) (task id : value) :
  get task (lit "id") = Ok id ->
  Forall (other_task id) entries ->
  find_assignment entries task = Ok VUndefined.
Proof.
  intros Hid. induction 1 as [|a entries (task_id & Ha & Hne) _ IH]; [reflexivity|].
  cbn [find_assignment]. now rewrite Ha, Hid, Hne.
Qed.

Lemma find_assignment_first (pre rest : list value) (a task id task_id : value) :
  get task (lit "id") = Ok id ->
  Forall (other_task id) pre ->
  get a (lit "task_id") = Ok task_id ->
  strict_eq task_id id = Ok true ->
  find_assignment (pre ++ a :: rest) task = Ok a.
Proof.
  intros Hid Hpre Ha Heq. induction Hpre as [|b pre (t & Hb & Hne) _ IH].
  - cbn [app find_assignment]. now rewrite Ha, Hid, Heq.
  - cbn [app find_assignment]. now rewrite Hb, Hid, Hne.
Qed.

(** The line of a task. A task that no assignment names is printed with
    "Unassigned" and "TBD"; otherwise the first assignment with the task's id
    gives the two fields, later ones with the same id are not looked at. *)
Theorem task_line_names_the_first_assignment
    (assignments task id description : value) (entries : list value) (text : jsstring) :
  get assignments (lit "assignments") = Ok (VArr entries) ->
  get task (lit "id") = Ok id ->
  get task (lit "description") = Ok description ->
  to_string description = Ok text ->
  (Forall (other_task id) entries ->
   task_block assignments task
   = Ok (bulleted_list_item (VStr (text ++ lit " | Assigned: Unassigned | TBD"))))
  /\ (forall pre a rest task_id assigned_to timeframe who when,
        entries = pre ++ a :: rest ->
        Forall (other_task id) pre ->
        get a (lit "task_id") = Ok task_id ->
        strict_eq task_id id = Ok true ->
        truthy a = true ->
        get a (lit "assigned_to") = Ok assigned_to ->
        get a (lit "timeframe") = Ok timeframe ->
        to_string assigned_to = Ok who ->
        to_string timeframe = Ok when ->
        task_block assignments task
        = Ok (bulleted_list_item
                (VStr (text ++ lit " | Assigned: " ++ who ++ lit " | " ++ when)))).
Proof.
  intros Hentries Hid Hdescription Htext. split.
  - intros Hnone. unfold task_block. rewrite Hentries. cbn [and_then array_of].
    rewrite (find_assignment_none entries task id Hid Hnone).
    cbn [and_then truthy]. rewrite Hdescription. cbn [and_then]. rewrite Htext.
    reflexivity.
  - intros pre a rest task_id assigned_to timeframe who when_ -> Hpre Ha Heq Htruthy
      Hwho Hwhen Swho Swhen.
    unfold task_block. rewrite Hentries. cbn [and_then array_of].
    rewrite (find_assignment_first pre rest a task id task_id Hid Hpre Ha Heq).
    cbn [and_then]. rewrite Htruthy, Hwho. cbn [and_then]. rewrite Hwhen.
    cbn [and_then]. rewrite Hdescription. cbn [and_then].
    rewrite Htext. cbn [and_then]. rewrite Swho. cbn [and_then]. rewrite Swhen.
    reflexivity.
Qed.

Lemma task_line_names_the_first_assignment_witness :
  task_block (VObj [ (lit "assignments", VArr [ VObj [ (lit "task_id", VStr (lit "T002")) ] ]) ])
    sample_task
  = Ok (bulleted_list_item
          (VStr (lit "Create the repository | Assigned: Unassigned | TBD")))
  /\ task_block doubly_assigned sample_task
     = Ok (bulleted_list_item (VStr (lit "Create the repository | Assigned: B | 2 weeks"))).
Proof.
  split.
  - apply (task_line_names_the_first_assignment
             (VObj [ (lit "assignments",
                      VArr [ VObj [ (lit "task_id", VStr (lit "T002")) ] ]) ])
             sample_task (VStr (lit "T001")) (VStr (lit "Create the repository"))
             [ VObj [ (lit "task_id", VStr (lit "T002")) ] ]
             (lit "Create the repository") eq_refl eq_refl eq_refl eq_refl).
    repeat constructor. exists (VStr (lit "T002")). split; reflexivity.
  - destruct (task_line_names_the_first_assignment
                doubly_assigned sample_task (VStr (lit "T001"))
                (VStr (lit "Create the repository")) _ (lit "Create the repository")
                eq_refl eq_refl eq_refl eq_refl) as [_ Hfirst].
    apply (Hfirst [ VObj [ (lit "task_id", VStr (lit "T002"));
                           (lit "assigned_to", VStr (lit "A"));
                           (lit "timeframe", VStr (lit "1 week")) ] ]
                  (VObj [ (lit "task_id", VStr (lit "T001"));
                          (lit "assigned_to", VStr (lit "B"));
                          (lit "timeframe", VStr (lit "2 weeks")) ])
                  [ VObj [ (lit "task_id", VStr (lit "T001"));
                           (lit "assigned_to", VStr (lit "C"));
                           (lit "timeframe", VStr (lit "3 weeks")) ] ]
                  (VStr (lit "T001")) (VStr (lit "B")) (VStr (lit "2 weeks"))
                  (lit "B") (lit "2 weeks")); try reflexivity.
    repeat constructor. exists (VStr (lit "T002")). split; reflexivity.
Defined.
